(** * soundcloud-downloader: input validation, progress parsing and the
      operation state store

    A shallow embedding of [src/utils/security.ts] and of the download
    engine of [src/soundcloud-downloader.tsx], with the properties of
    the specification stated over it. *)

From Stdlib Require Import ZArith NArith List Bool Lia Ascii String DecimalString.
From stdpp Require Import base option list gmap.

Local Open Scope N_scope.

(** ** JavaScript strings

    A JavaScript string is a sequence of UTF-16 code units; [length],
    [includes], [startsWith], [split], [trim] and regular expressions
    without the [u] flag all work on code units.  A code unit is below
    65536; no definition here depends on that bound. *)

Module JS.

Definition char := N.
Definition jsstring := list char.

(** A literal of the source, written as an ASCII string. *)
Definition js (s : string) : jsstring :=
  List.map N_of_ascii (list_ascii_of_string s).

Definition ch (a : ascii) : char := N_of_ascii a.

Definition char_eqb (a b : char) : bool := N.eqb a b.

Fixpoint str_eqb (a b : jsstring) : bool :=
  match a, b with
  | [], [] => true
  | x :: a', y :: b' => char_eqb x y && str_eqb a' b'
  | _, _ => false
  end.

(** [s.startsWith(p)] *)
Fixpoint startsWith (s p : jsstring) : bool :=
  match p, s with
  | [], _ => true
  | _ :: _, [] => false
  | y :: p', x :: s' => char_eqb x y && startsWith s' p'
  end.

(** [s.includes(p)] *)
Fixpoint includes (s p : jsstring) : bool :=
  startsWith s p ||
  match s with
  | [] => false
  | _ :: s' => includes s' p
  end.

(** [s.split(c)] for a one-character separator: never empty, and an
    empty piece stands between two adjacent separators. *)
Fixpoint split (c : char) (s : jsstring) : list jsstring :=
  match s with
  | [] => [[]]
  | x :: s' =>
      if char_eqb x c then [] :: split c s'
      else match split c s' with
           | [] => [[x]]
           | piece :: rest => (x :: piece) :: rest
           end
  end.

(** WhiteSpace and LineTerminator of ECMAScript: what [trim] strips and
    what [\s] matches. *)
Definition isWhiteSpace (c : char) : bool :=
  ((9 <=? c) && (c <=? 13)) || (c =? 32) || (c =? 160) || (c =? 5760)
  || ((8192 <=? c) && (c <=? 8202)) || (c =? 8232) || (c =? 8233)
  || (c =? 8239) || (c =? 8287) || (c =? 12288) || (c =? 65279).

Fixpoint trimStart (s : jsstring) : jsstring :=
  match s with
  | [] => []
  | x :: s' => if isWhiteSpace x then trimStart s' else s
  end.

Definition trimEnd (s : jsstring) : jsstring := rev (trimStart (rev s)).

(** [s.trim()] *)
Definition trim (s : jsstring) : jsstring := trimEnd (trimStart s).

(** [s.slice(0, n)] for [n >= 0] *)
Definition slice0 (n : nat) (s : jsstring) : jsstring := firstn n s.

(** [String(z)] for an integer-valued number. *)
Definition of_Z (z : Z) : jsstring := js (NilZero.string_of_int (Z.to_int z)).

(** [s.padStart(n, c)] for a one-character pad. *)
Definition padStart (n : nat) (c : char) (s : jsstring) : jsstring :=
  repeat c (n - length s) ++ s.

(** The separator-joined concatenation of [Array.prototype.join]. *)
Fixpoint join (sep : jsstring) (l : list jsstring) : jsstring :=
  match l with
  | [] => []
  | [x] => x
  | x :: l' => x ++ sep ++ join sep l'
  end.

End JS.
Import JS.

(** ** Regular expressions

    The patterns of the source are written as syntax trees and run by a
    backtracking matcher with the priorities of ECMAScript: the left
    alternative first, greedy repetition longest first, lazy repetition
    shortest first, and an iteration of a repetition that consumes
    nothing is refused. *)

Module Regex.

Inductive regex : Type :=
| Eps
| Class (p : char -> bool)
| Cat (r1 r2 : regex)
| Alt (r1 r2 : regex)
| Star (greedy : bool) (r : regex)
| Group (i : nat) (r : regex).

(** The captures, latest first: group number and captured text. *)
Definition captures := list (nat * jsstring).

Definition orElse {A} (a : option A) (b : unit -> option A) : option A :=
  match a with
  | Some x => Some x
  | None => b tt
  end.

(** What is left of the input and the captures go to the continuation
    [k]; [None] makes the matcher backtrack. *)
Definition cont := jsstring -> captures -> option captures.

(** Repetition of [body], at most [fuel] times; an iteration has to
    consume input, so the length of the input is fuel enough. *)
Fixpoint iterate (greedy : bool) (body : jsstring -> captures -> cont -> option captures)
    (k : cont) (fuel : nat) (s : jsstring) (c : captures) {struct fuel}
  : option captures :=
  match fuel with
  | O => k s c
  | S fuel' =>
      let again (_ : unit) :=
        body s c (fun s' c' =>
          if (length s' <? length s)%nat then iterate greedy body k fuel' s' c'
          else None) in
      if greedy then orElse (again tt) (fun _ => k s c)
      else orElse (k s c) again
  end.

Fixpoint run (r : regex) (s : jsstring) (c : captures) (k : cont) {struct r}
  : option captures :=
  match r with
  | Eps => k s c
  | Class p =>
      match s with
      | x :: s' => if p x then k s' c else None
      | [] => None
      end
  | Cat r1 r2 => run r1 s c (fun s' c' => run r2 s' c' k)
  | Alt r1 r2 => orElse (run r1 s c k) (fun _ => run r2 s c k)
  | Star greedy r' => iterate greedy (run r') k (length s) s c
  | Group i r' =>
      run r' s c (fun s' c' =>
        k s' ((i, firstn (length s - length s') s) :: c'))
  end.

(** A match anchored at the start of [s]. *)
Definition matchHere (r : regex) (s : jsstring) : option captures :=
  run r s [] (fun _ c => Some c).

(** [s.match(r)] for a pattern without the [g] flag: the leftmost match. *)
Fixpoint exec (r : regex) (s : jsstring) : option captures :=
  match matchHere r s with
  | Some c => Some c
  | None =>
      match s with
      | [] => None
      | _ :: s' => exec r s'
      end
  end.

(** [r.test(s)] *)
Definition test (r : regex) (s : jsstring) : bool :=
  match exec r s with Some _ => true | None => false end.

(** [m[i]]: the text of group [i], [None] when the group took no part. *)
Fixpoint group (i : nat) (c : captures) : option jsstring :=
  match c with
  | [] => None
  | (j, t) :: c' => if (i =? j)%nat then Some t else group i c'
  end.

(** *** Pattern syntax *)

Definition lit1 (a : ascii) : regex := Class (fun c => char_eqb c (ch a)).

Fixpoint litl (l : list ascii) : regex :=
  match l with
  | [] => Eps
  | [a] => lit1 a
  | a :: l' => Cat (lit1 a) (litl l')
  end.

(** A literal run of characters. *)
Definition lit (s : string) : regex := litl (list_ascii_of_string s).

Fixpoint seq (l : list regex) : regex :=
  match l with
  | [] => Eps
  | [r] => r
  | r :: l' => Cat r (seq l')
  end.

Definition plus (r : regex) : regex := Cat r (Star true r).       (* r+  *)
Definition star (r : regex) : regex := Star true r.               (* r*  *)
Definition lazyPlus (r : regex) : regex := Cat r (Star false r).  (* r+? *)
Definition opt (r : regex) : regex := Alt r Eps.                  (* r?  *)

Definition isDigit (c : char) : bool := (48 <=? c) && (c <=? 57).
Definition isWord (c : char) : bool :=
  isDigit c || ((65 <=? c) && (c <=? 90)) || ((97 <=? c) && (c <=? 122)) || (c =? 95).
Definition isLineTerminator (c : char) : bool :=
  (c =? 10) || (c =? 13) || (c =? 8232) || (c =? 8233).

Definition digit : regex := Class isDigit.                        (* \d *)
Definition wordChar : regex := Class isWord.                      (* \w *)
Definition space : regex := Class isWhiteSpace.                   (* \s *)
Definition anyChar : regex := Class (fun c => negb (isLineTerminator c)). (* . *)
Definition notChar (a : ascii) : regex :=
  Class (fun c => negb (char_eqb c (ch a))).                      (* [^a] *)

End Regex.

(** ** The platform

    What the code takes from Node, the WHATWG URL class and the
    environment: it is not code of this repository, so the definitions
    below take it as an interface. *)

(** The parts of a parsed [URL] object that the code reads or writes. *)
Record URL : Type := mkURL {
  hostname : jsstring;
  pathname : jsstring;
  searchParams : list (jsstring * jsstring)
}.

(** [TrackInfo]: what a metadata line of the downloader is read as. *)
Record TrackInfo : Type := mkTrackInfo {
  title : option jsstring;
  uploader : option jsstring;
  duration : option Z;
  view_count : option Z;
  like_count : option Z;
  description : option jsstring;
  upload_date : option jsstring;
  thumbnail : option jsstring;
  webpage_url : option jsstring;
  track_id : option jsstring;
  playlist_title : option jsstring;
  playlist_count : option Z;
  playlist_index : option Z
}.

Class Platform : Type := {
  (** [new URL(s)]; [None] when the constructor throws *)
  URL_parse : jsstring -> option URL;
  (** [u.toString()] *)
  URL_toString : URL -> jsstring;
  (** [path.resolve(p)] *)
  path_resolve : jsstring -> jsstring;
  (** [path.join(a, b)] *)
  path_join : jsstring -> jsstring -> jsstring;
  (** [os.homedir()] *)
  homedir : jsstring;
  (** [fs.existsSync(p)] *)
  existsSync : jsstring -> bool;
  (** [JSON.parse(s) as TrackInfo]; [None] when it throws *)
  JSON_parse : jsstring -> option TrackInfo
}.

(** ** [src/utils/security.ts] *)

Module Security.
Import Regex.

Definition validDomains : list jsstring :=
  [ js "soundcloud.com"; js "www.soundcloud.com"; js "m.soundcloud.com";
    js "mobile.soundcloud.com"; js "on.soundcloud.com" ].

(** [l.includes(x)] on an array of strings *)
Definition arrayIncludes (l : list jsstring) (x : jsstring) : bool :=
  existsb (str_eqb x) l.

(** [sanitizeUrl]: the characters of the class [[;&|`$(){}[\]\\]]. *)
Definition isShellMeta (c : char) : bool :=
  existsb (char_eqb c)
    (js ";&|`$(){}[]\").

Definition sanitizeUrl (url : jsstring) : jsstring :=
  List.filter (fun c => negb (isShellMeta c)) url.

(** The type names that [detectSoundCloudUrlType] returns. *)
Inductive UrlType : Type :=
| shortened | discover | search | playlist | album | user | track | unknown | invalid.

(** [validateCommandArgs] *)

Definition dangerousPatterns : list regex :=
  [ lit "$(";
    seq [lit1 "`"; star (notChar "`"); lit1 "`"];
    lit "&&";
    lit "||";
    lit ";";
    lit ">";
    lit "<" ].

Definition hasDangerousPattern (stringArg : jsstring) : bool :=
  existsb (fun pattern => test pattern stringArg) dangerousPatterns.

(** The class [[\x00-\x1f\x7f-\x9f]]. *)
Definition isControl (c : char) : bool :=
  (c <=? 31)%N || ((127 <=? c)%N && (c <=? 159)%N).

(** [s.replace(/[\x00-\x1f\x7f-\x9f]/g, '')] *)
Definition stripControl (s : jsstring) : jsstring :=
  List.filter (fun c => negb (isControl c)) s.

Definition sanitizeArg (stringArg : jsstring) : jsstring :=
  trim (stripControl stringArg).

Record ArgsResult : Type := mkArgsResult {
  isValid : bool;
  errors : option (list jsstring);
  sanitizedArgs : option (list jsstring)
}.

(** One turn of the loop body: the message pushed on [errors], or the
    string pushed on [sanitizedArgs].  The elements are strings, as the
    signature says, so the guard against [null] never fires and
    [String(arg)] is [arg]. *)
Definition checkArg (stringArg : jsstring) : jsstring + jsstring :=
  if (2000 <? length stringArg)%nat then
    inl (js "Argument too long: " ++ of_Z (Z.of_nat (length stringArg)) ++ js " characters")
  else if hasDangerousPattern stringArg then
    inl (js "Potentially dangerous pattern in argument: " ++ stringArg)
  else
    let sanitized := sanitizeArg stringArg in
    if (length sanitized =? 0)%nat && (0 <? length stringArg)%nat then
      inl (js "Argument became empty after sanitization")
    else inr sanitized.

(** The loop, threading the two arrays. *)
Fixpoint validateLoop (args : list jsstring) (errs sane : list jsstring)
  : list jsstring * list jsstring :=
  match args with
  | [] => (errs, sane)
  | arg :: rest =>
      match checkArg arg with
      | inl e => validateLoop rest (errs ++ [e]) sane
      | inr s => validateLoop rest errs (sane ++ [s])
      end
  end.

Definition validateCommandArgs (args : list jsstring) : ArgsResult :=
  let '(errs, sane) := validateLoop args [] [] in
  {| isValid := (length errs =? 0)%nat;
     errors := if (0 <? length errs)%nat then Some errs else None;
     sanitizedArgs := if (length errs =? 0)%nat then Some sane else None |}.

Section WithPlatform.
Context {P : Platform}.

(** The refinement of [SoundCloudUrlSchema]. *)
Definition isSoundCloudHost (url : jsstring) : bool :=
  match URL_parse url with
  | Some parsed => arrayIncludes validDomains (hostname parsed)
  | None => false
  end.

(** [SoundCloudUrlSchema.parse(url)]: the string, or the messages of the
    issues in order.  The [url()] check of the schema accepts what the
    [URL] constructor accepts, and the refinement runs after it either
    way. *)
Definition SoundCloudUrlSchema (url : jsstring) : list jsstring + jsstring :=
  let issues :=
    (match URL_parse url with Some _ => [] | None => [js "Invalid URL format"] end) ++
    (if isSoundCloudHost url then [] else [js "Must be a valid SoundCloud URL"]) in
  match issues with
  | [] => inr url
  | _ => inl issues
  end.

Definition safePaths : list jsstring :=
  [ homedir;
    path_join homedir (js "Downloads");
    path_join homedir (js "Documents");
    path_join homedir (js "Desktop");
    path_join homedir (js "Music") ].

(** The refinement of [OutputPathSchema]. *)
Definition isSafePath (inputPath : jsstring) : bool :=
  let resolved := path_resolve inputPath in
  existsb (fun safePath => startsWith resolved safePath) safePaths.

Definition OutputPathSchema (inputPath : jsstring) : list jsstring + jsstring :=
  let issues :=
    (if (1 <=? length inputPath)%nat then [] else [js "Path cannot be empty"]) ++
    (if isSafePath inputPath then [] else [js "Path must be within safe directories"]) in
  match issues with
  | [] => inr inputPath
  | _ => inl issues
  end.

(** Why [validateAndSanitizePath] throws. *)
Inductive PathError : Type :=
| SchemaIssues (issues : list jsstring)
| OutsideUserDirectory.

Definition validateAndSanitizePath (inputPath : jsstring) : PathError + jsstring :=
  match OutputPathSchema inputPath with
  | inl issues => inl (SchemaIssues issues)
  | inr validatedPath =>
      let resolved := path_resolve validatedPath in
      if negb (startsWith resolved homedir) then inl OutsideUserDirectory
      else inr resolved
  end.

Definition allowedParams : list jsstring :=
  [ js "t"; js "in"; js "si"; js "utm_source"; js "utm_medium"; js "utm_campaign" ].

(** [URLSearchParams.set]: the first entry of the key takes the value and
    the later ones go; a new key is appended. *)
Fixpoint paramsSet (key value : jsstring) (l : list (jsstring * jsstring))
  : list (jsstring * jsstring) :=
  match l with
  | [] => [(key, value)]
  | (k, v) :: l' =>
      if str_eqb k key
      then (key, value) :: List.filter (fun kv => negb (str_eqb (fst kv) key)) l'
      else (k, v) :: paramsSet key value l'
  end.

Definition keepAllowed (entries : list (jsstring * jsstring)) : list (jsstring * jsstring) :=
  fold_left (fun acc kv =>
               if arrayIncludes allowedParams (fst kv)
               then paramsSet (fst kv) (snd kv) acc else acc)
            entries [].

Definition normalizeSoundCloudUrl (url : jsstring) : jsstring :=
  match URL_parse url with
  | None => url
  | Some parsed =>
      let parsed :=
        if str_eqb (hostname parsed) (js "m.soundcloud.com")
           || str_eqb (hostname parsed) (js "mobile.soundcloud.com")
        then mkURL (js "soundcloud.com") (pathname parsed) (searchParams parsed)
        else parsed in
      if str_eqb (hostname parsed) (js "on.soundcloud.com") then URL_toString parsed
      else URL_toString
             (mkURL (hostname parsed) (pathname parsed) (keepAllowed (searchParams parsed)))
  end.

(** [pathname.split("/").filter(segment => segment.length > 0)] *)
Definition pathSegmentsOf (pathname : jsstring) : list jsstring :=
  List.filter (fun segment => (0 <? length segment)%nat) (split (ch "/") pathname).

Definition detectSoundCloudUrlType (url : jsstring) : UrlType * bool :=
  match URL_parse url with
  | None => (invalid, false)
  | Some parsed =>
      let pathname := pathname parsed in
      if str_eqb (hostname parsed) (js "on.soundcloud.com") then (shortened, true)
      else if startsWith pathname (js "/discover") || startsWith pathname (js "/explore")
      then (discover, false)
      else if startsWith pathname (js "/search") then (search, false)
      else if includes pathname (js "/sets/") then (playlist, true)
      else if includes pathname (js "/albums/") then (album, true)
      else
        let pathSegments := pathSegmentsOf pathname in
        if (2 <=? length pathSegments)%nat then
          if (length pathSegments =? 1)%nat then (user, false)
          else (track, true)
        else if (length pathSegments =? 1)%nat then (user, false)
        else (unknown, false)
  end.

Record UrlValidation : Type := mkUrlValidation {
  urlIsValid : bool;
  urlError : option jsstring;
  sanitizedUrl : option jsstring;
  urlType : option UrlType
}.

Definition errorMessages (t : UrlType) : jsstring :=
  match t with
  | discover => js "Discover pages are not downloadable. Please use a specific track or playlist URL."
  | search => js "Search pages are not downloadable. Please use a specific track or playlist URL."
  | user => js "User profile URLs are not directly downloadable. Please use a specific track or playlist URL."
  | unknown => js "This SoundCloud URL format is not supported for downloading."
  | _ => js "Invalid SoundCloud URL format."
  end.

Definition validateSoundCloudUrl (url : jsstring) : UrlValidation :=
  match SoundCloudUrlSchema url with
  | inl issues =>
      mkUrlValidation false (Some (hd (js "Invalid URL format") issues)) None None
  | inr validatedUrl =>
      let '(type, typeValid) := detectSoundCloudUrlType validatedUrl in
      if negb typeValid then
        mkUrlValidation false (Some (errorMessages type)) None (Some type)
      else
        mkUrlValidation true None
          (Some (sanitizeUrl (normalizeSoundCloudUrl validatedUrl))) (Some type)
  end.

End WithPlatform.

End Security.

(** ** [src/soundcloud-downloader.tsx]: the operation state store *)

Module Downloader.
Import Regex Security.

(** A number read by [parseFloat] from decimal digits:
    [digits / 10^scale].  The program holds the double nearest to it. *)
Record number : Type := mkNumber { digits : N; scale : nat }.

Record DownloadProgress : Type := mkProgress {
  percentage : option number;
  speed : option jsstring;
  eta : option jsstring;
  downloaded : option jsstring;
  total : option jsstring;
  currentTrack : option Z;
  totalTracks : option Z;
  trackTitle : option jsstring;
  elapsedTime : option jsstring
}.

(** The object literal [{}] as a progress. *)
Definition noProgress : DownloadProgress :=
  mkProgress None None None None None None None None None.

Record OperationState : Type := mkState {
  isActive : bool;
  progress : DownloadProgress;
  trackInfo : option TrackInfo;
  error : option jsstring;
  isCompleted : bool;
  downloadedFiles : list jsstring
}.

(** [Partial<OperationState>]: a key is [None] when the object does not
    have it.  [trackInfo] and [error] can be present and [null]. *)
Record PartialState : Type := mkPartial {
  setIsActive : option bool;
  setProgress : option DownloadProgress;
  setTrackInfo : option (option TrackInfo);
  setError : option (option jsstring);
  setIsCompleted : option bool;
  setDownloadedFiles : option (list jsstring)
}.

Definition noUpdate : PartialState := mkPartial None None None None None None.

(** The state that [updateOperationState] starts from when the id has
    none. *)
Definition defaultState : OperationState :=
  mkState false noProgress None None false [].

(** One key of a spread: the right object wins where it has the key. *)
Definition over {A} (new : option A) (old : A) : A :=
  match new with Some v => v | None => old end.

(** [{ ...currentState, ...updates }] *)
Definition spreadState (currentState : OperationState) (updates : PartialState)
  : OperationState :=
  {| isActive := over (setIsActive updates) (isActive currentState);
     progress := over (setProgress updates) (progress currentState);
     trackInfo := over (setTrackInfo updates) (trackInfo currentState);
     error := over (setError updates) (error currentState);
     isCompleted := over (setIsCompleted updates) (isCompleted currentState);
     downloadedFiles := over (setDownloadedFiles updates) (downloadedFiles currentState) |}.

(** One key of a spread of two partial objects. *)
Definition overOpt {A} (new old : option A) : option A :=
  match new with Some v => Some v | None => old end.

(** [{ ...a, ...b }] on two progress objects. *)
Definition spreadProgress (a b : DownloadProgress) : DownloadProgress :=
  {| percentage := overOpt (percentage b) (percentage a);
     speed := overOpt (speed b) (speed a);
     eta := overOpt (eta b) (eta a);
     downloaded := overOpt (downloaded b) (downloaded a);
     total := overOpt (total b) (total a);
     currentTrack := overOpt (currentTrack b) (currentTrack a);
     totalTracks := overOpt (totalTracks b) (totalTracks a);
     trackTitle := overOpt (trackTitle b) (trackTitle a);
     elapsedTime := overOpt (elapsedTime b) (elapsedTime a) |}.

Definition present {A} (o : option A) : bool :=
  match o with Some _ => true | None => false end.

(** [Object.keys(p).length > 0] *)
Definition hasKeys (p : DownloadProgress) : bool :=
  present (percentage p) || present (speed p) || present (eta p)
  || present (downloaded p) || present (total p) || present (currentTrack p)
  || present (totalTracks p) || present (trackTitle p) || present (elapsedTime p).

(** A subscriber callback, by identity.  The callbacks of the program
    hand the state to a view and do not touch the store. *)
Definition callback := nat.

Inductive ToastStyle : Type := Animated | Success | Failure.

(** What the engine does to the outside, in the order it does it. *)
Inductive Effect : Type :=
| Called (cb : callback) (state : OperationState)
| ShowToast (style : ToastStyle) (title message : jsstring)
| Spawn (command : jsstring) (args : list jsstring)
| SetTimeout (ms : Z) (then_ : Effect)
| SetInterval (name : jsstring) (ms : Z)
| ClearInterval (name : jsstring)
| SetIsLoading (b : bool)
| SetCurrentOperationId (operationId : jsstring)
| Push (operationId : jsstring).

(** The two global maps, and the effects so far.  A [Set] of callbacks
    keeps insertion order and has no duplicates. *)
Record World : Type := mkWorld {
  globalOperations : gmap jsstring OperationState;
  globalListeners : gmap jsstring (list callback);
  effects : list Effect
}.

Definition emit (e : list Effect) (w : World) : World :=
  mkWorld (globalOperations w) (globalListeners w) (effects w ++ e).

(** [Set.prototype.add] *)
Definition setAdd (cb : callback) (s : list callback) : list callback :=
  if existsb (Nat.eqb cb) s then s else s ++ [cb].

(** [Set.prototype.delete] *)
Definition setDelete (cb : callback) (s : list callback) : list callback :=
  List.filter (fun x => negb (Nat.eqb cb x)) s.

(** [subscribeToOperation], up to the [return]. *)
Definition subscribeToOperation (operationId : jsstring) (cb : callback) (w : World)
  : World :=
  let listeners := default [] (globalListeners w !! operationId) in
  let w := mkWorld (globalOperations w)
                   (<[operationId := setAdd cb listeners]> (globalListeners w))
                   (effects w) in
  match globalOperations w !! operationId with
  | Some currentState => emit [Called cb currentState] w
  | None => w
  end.

(** The function that [subscribeToOperation] returns. *)
Definition unsubscribe (operationId : jsstring) (cb : callback) (w : World) : World :=
  match globalListeners w !! operationId with
  | Some listeners =>
      let listeners := setDelete cb listeners in
      mkWorld (globalOperations w)
              (if (length listeners =? 0)%nat
               then delete operationId (globalListeners w)
               else <[operationId := listeners]> (globalListeners w))
              (effects w)
  | None => w
  end.

Definition updateOperationState (operationId : jsstring) (updates : PartialState)
    (w : World) : World :=
  let currentState := default defaultState (globalOperations w !! operationId) in
  let newState := spreadState currentState updates in
  let w := mkWorld (<[operationId := newState]> (globalOperations w))
                   (globalListeners w) (effects w) in
  match globalListeners w !! operationId with
  | Some listeners => emit (List.map (fun cb => Called cb newState) listeners) w
  | None => w
  end.

(** *** The progress parser *)

(** The value of a run of decimal digits. *)
Definition digitsValue (s : jsstring) : N :=
  fold_left (fun acc c => acc * 10 + (c - 48))%N s 0%N.

(** [parseInt(s)] on a run of decimal digits. *)
Definition parseInt (s : jsstring) : Z := Z.of_N (digitsValue s).

(** [parseFloat(s)] on digits, a point, digits. *)
Definition parseFloat (s : jsstring) : number :=
  match split (ch ".") s with
  | whole :: frac :: _ => mkNumber (digitsValue (whole ++ frac)) (length frac)
  | _ => mkNumber (digitsValue s) 0
  end.

Definition digitOrDot : regex := Class (fun c => isDigit c || char_eqb c (ch ".")).

(** [/\[download\]\s+(\d+\.\d+)%\s+of\s+([\d.]+\w+)\s+at\s+([\d.]+\w+\/s)(?:\s+ETA\s+(\d+:\d+))?/] *)
Definition downloadPattern : regex :=
  seq [ lit "[download]"; plus space;
        Group 1 (seq [plus digit; lit "."; plus digit]); lit "%"; plus space;
        lit "of"; plus space;
        Group 2 (seq [plus digitOrDot; plus wordChar]); plus space;
        lit "at"; plus space;
        Group 3 (seq [plus digitOrDot; plus wordChar; lit "/s"]);
        opt (seq [plus space; lit "ETA"; plus space; Group 4 (seq [plus digit; lit ":"; plus digit])]) ].

(** [/\[download\]\s+Downloading\s+(?:video\s+)?(\d+)\s+of\s+(\d+)/] *)
Definition playlistPattern : regex :=
  seq [ lit "[download]"; plus space; lit "Downloading"; plus space;
        opt (seq [lit "video"; plus space]);
        Group 1 (plus digit); plus space; lit "of"; plus space; Group 2 (plus digit) ].

(** [/\[info\]\s+([^:]+):\s+Downloading\s+webpage/] *)
Definition titlePattern : regex :=
  seq [ lit "[info]"; plus space; Group 1 (plus (notChar ":")); lit ":"; plus space;
        lit "Downloading"; plus space; lit "webpage" ].

(** A group that took part in the match; the empty text where the
    pattern cannot leave it out. *)
Definition groupText (i : nat) (m : captures) : jsstring := default [] (group i m).

Definition parseProgress (line : jsstring) : DownloadProgress :=
  match exec downloadPattern line with
  | Some downloadMatch =>
      {| percentage := Some (parseFloat (groupText 1 downloadMatch));
         speed := Some (groupText 3 downloadMatch);
         eta := match group 4 downloadMatch with
                | Some (x :: t) => Some (x :: t)
                | _ => None
                end;
         downloaded := None;
         total := Some (groupText 2 downloadMatch);
         currentTrack := None; totalTracks := None; trackTitle := None;
         elapsedTime := None |}
  | None =>
  match exec playlistPattern line with
  | Some playlistMatch =>
      {| percentage := None; speed := None; eta := None; downloaded := None;
         total := None;
         currentTrack := Some (parseInt (groupText 1 playlistMatch));
         totalTracks := Some (parseInt (groupText 2 playlistMatch));
         trackTitle := None; elapsedTime := None |}
  | None =>
  match exec titlePattern line with
  | Some titleMatch =>
      {| percentage := None; speed := None; eta := None; downloaded := None;
         total := None; currentTrack := None; totalTracks := None;
         trackTitle := Some (trim (groupText 1 titleMatch));
         elapsedTime := None |}
  | None => noProgress
  end end end.

(** [calculateElapsedTime], with the clock reading of [Date.now()]. *)
Definition calculateElapsedTime (startTime now : Z) : jsstring :=
  let elapsed := ((now - startTime) / 1000)%Z in
  let minutes := (elapsed / 60)%Z in
  let seconds := Z.rem elapsed 60 in
  of_Z minutes ++ js ":" ++ padStart 2 (ch "0") (of_Z seconds).

(** *** Settings *)

Inductive Quality : Type := high | medium | low.

Definition QUALITY_PRESETS_name (q : Quality) : jsstring :=
  match q with
  | high => js "High Quality (VBR ~190 kbps)"
  | medium => js "Medium Quality (VBR ~128 kbps)"
  | low => js "Low Quality (VBR ~96 kbps)"
  end.

Definition QUALITY_PRESETS_args (q : Quality) : list jsstring :=
  match q with
  | high => [js "-f"; js "best[abr<=192]/best"; js "--audio-quality"; js "0";
             js "--audio-format"; js "mp3"]
  | medium => [js "-f"; js "best[abr<=128]/best"; js "--audio-quality"; js "5";
               js "--audio-format"; js "mp3"]
  | low => [js "-f"; js "best[abr<=96]/best"; js "--audio-quality"; js "9";
            js "--audio-format"; js "mp3"]
  end.

Record Settings : Type := mkSettings {
  quality : Quality;
  downloadPath : jsstring;
  openInAppleMusic : bool;
  embedThumbnail : bool;
  addMetadata : bool
}.

(** The double quote, as a string. *)
Definition dq : jsstring := [34%N].

(** *** A monad for the handlers: the world threaded, and an [Error]
    thrown as its message *)

Definition M (A : Type) : Type := World -> (jsstring + A) * World.

Definition ret {A} (a : A) : M A := fun w => (inr a, w).

Definition bind {A B} (m : M A) (f : A -> M B) : M B :=
  fun w => match m w with
           | (inl e, w') => (inl e, w')
           | (inr a, w') => f a w'
           end.

Definition throw {A} (message : jsstring) : M A := fun w => (inl message, w).

Definition tryCatch {A} (body : M A) (handler : jsstring -> M A) : M A :=
  fun w => match body w with
           | (inl e, w') => handler e w'
           | (inr a, w') => (inr a, w')
           end.

Definition tryFinally {A} (body : M A) (final : World -> World) : M A :=
  fun w => let '(r, w') := body w in (r, final w').

Definition act (f : World -> World) : M unit := fun w => (inr tt, f w).

Definition perform (e : Effect) : M unit := act (emit [e]).

Notation "x <- c1 ;; c2" := (bind c1 (fun x => c2))
  (at level 100, c1 at next level, right associativity).
Notation "c1 ;;; c2" := (bind c1 (fun _ => c2))
  (at level 100, right associativity).

(** *** The download engine *)

(** The variables that the handlers of one [executeBackgroundDownload]
    call close over. *)
Record Running : Type := mkRunning {
  run_operationId : jsstring;
  run_isPlaylist : bool;
  run_settings : Settings;
  run_startTime : Z;
  run_trackInfo : option TrackInfo;
  run_downloadedFiles : list jsstring;
  run_currentProgress : DownloadProgress
}.

Definition withProgress (r : Running) (p : DownloadProgress) : Running :=
  mkRunning (run_operationId r) (run_isPlaylist r) (run_settings r) (run_startTime r)
            (run_trackInfo r) (run_downloadedFiles r) p.

Definition withTrackInfo (r : Running) (info : option TrackInfo) : Running :=
  mkRunning (run_operationId r) (run_isPlaylist r) (run_settings r) (run_startTime r)
            info (run_downloadedFiles r) (run_currentProgress r).

Definition withFiles (r : Running) (files : list jsstring) : Running :=
  mkRunning (run_operationId r) (run_isPlaylist r) (run_settings r) (run_startTime r)
            (run_trackInfo r) files (run_currentProgress r).

Definition elapsedOnly (t : jsstring) : DownloadProgress :=
  mkProgress None None None None None None None None (Some t).

Definition progressUpdateOf (p : DownloadProgress) : PartialState :=
  mkPartial None (Some p) None None None None.

(** [/\{.*\}/], the whole match kept as group 0 *)
Definition jsonPattern : regex := Group 0 (seq [lit "{"; star anyChar; lit "}"]).

(** [/\[download\]\s+(.+?)\s+has already been downloaded/] *)
Definition alreadyPattern : regex :=
  seq [ lit "[download]"; plus space; Group 1 (lazyPlus anyChar); plus space;
        lit "has already been downloaded" ].

(** [/\[ffmpeg\]\s+Destination:\s+(.+)/] *)
Definition destinationPattern : regex :=
  seq [ lit "[ffmpeg]"; plus space; lit "Destination:"; plus space; Group 1 (plus anyChar) ].

Definition isPlaylistUrl (url : jsstring) : bool :=
  includes url (js "/sets/") || includes url (js "/albums/").

(** The [args] array of [executeBackgroundDownload], in push order. *)
Definition downloadArgs (settings : Settings) (sanitizedUrl safePath : jsstring)
    (isPlaylist : bool) : list jsstring :=
  [js "--extract-flat"; js "false"]
  ++ [js "-o"; safePath ++ js "/%(title)s.%(ext)s"]
  ++ QUALITY_PRESETS_args (quality settings)
  ++ [js "--add-metadata"]
  ++ (if isPlaylist
      then [js "--parse-metadata"; js "playlist_title:%(album)s"]
      else [js "--parse-metadata"; js "title:%(album)s"])
  ++ [js "--postprocessor-args";
      js "ffmpeg:-metadata genre=" ++ dq ++ js "Electronic" ++ dq]
  ++ (if embedThumbnail settings
      then [js "--embed-thumbnail"; js "--no-write-thumbnail"]
      else [])
  ++ [js "--no-write-info-json"; js "--no-write-description";
      js "--no-write-annotations"; js "--no-write-comments"]
  ++ [js "--embed-subs"; js "--no-write-subs"]
  ++ [js "--newline"; js "--no-warnings"; js "--ignore-errors"]
  ++ [sanitizedUrl].

(** The final validation of [executeBackgroundDownload] and the [spawn]
    after it, for any [args] array: the process is started on the
    [sanitizedArgs] of the validation, or the error is thrown. *)
Definition spawnValidated (ytDlpPath : jsstring) (args : list jsstring) : M unit :=
  let finalArgValidation := validateCommandArgs args in
  match Security.isValid finalArgValidation, sanitizedArgs finalArgValidation with
  | true, Some sane => perform (Spawn ytDlpPath sane)
  | _, _ =>
      throw (js "Invalid command arguments: "
             ++ join (js ", ") (default [] (errors finalArgValidation)))
  end.

Section WithPlatform.
Context {P : Platform}.

Definition isValidSoundCloudUrl (url : jsstring) : bool :=
  match URL_parse url with
  | Some parsed =>
      str_eqb (hostname parsed) (js "soundcloud.com")
      || str_eqb (hostname parsed) (js "www.soundcloud.com")
  | None => false
  end.

Definition getYtDlpPath : jsstring :=
  let possiblePaths :=
    [js "/opt/homebrew/bin/yt-dlp"; js "/usr/local/bin/yt-dlp";
     js "/usr/bin/yt-dlp"; js "yt-dlp"] in
  match List.find existsSync possiblePaths with
  | Some path => path
  | None => js "yt-dlp"
  end.

(** [optimizePerformance] of [src/utils/performance.ts]: it starts the
    memory monitor and its timers. *)
Definition optimizePerformance (w : World) : World :=
  emit [ SetInterval (js "monitoringInterval") 5000;
         SetTimeout 300000 (ClearInterval (js "monitoringInterval")) ] w.

(** [openInAppleMusic]: one [open] per file that exists, and one more
    two seconds later. *)
Definition openMusic (settings : Settings) (files : list jsstring) (w : World) : World :=
  if negb (openInAppleMusic settings) || (length files =? 0)%nat then w
  else
    emit (List.map (fun file => Spawn (js "open") [js "-a"; js "Music"; file])
                   (List.filter existsSync files)
          ++ [SetTimeout 2000 (Spawn (js "open") [js "-a"; js "Music"])]) w.

(** The [setInterval] callback. *)
Definition onTick (now : Z) (r : Running) (w : World) : Running * World :=
  let currentProgress :=
    spreadProgress (run_currentProgress r)
                   (elapsedOnly (calculateElapsedTime (run_startTime r) now)) in
  (withProgress r currentProgress,
   updateOperationState (run_operationId r) (progressUpdateOf currentProgress) w).

(** The body of the loop over the lines of a chunk of standard output. *)
Definition onLine (st : Running * World) (line : jsstring) : Running * World :=
  let '(r, w) := st in
  let progressUpdate := parseProgress line in
  let '(r, w) :=
    if hasKeys progressUpdate then
      let currentProgress := spreadProgress (run_currentProgress r) progressUpdate in
      (withProgress r currentProgress,
       updateOperationState (run_operationId r) (progressUpdateOf currentProgress) w)
    else (r, w) in
  let '(r, w) :=
    if includes line (dq ++ js "title" ++ dq) && includes line (dq ++ js "uploader" ++ dq)
    then
      match exec jsonPattern line with
      | Some jsonMatch =>
          match JSON_parse (groupText 0 jsonMatch) with
          | Some info =>
              (withTrackInfo r (Some info),
               updateOperationState (run_operationId r)
                 (mkPartial None None (Some (Some info)) None None None) w)
          | None => (r, w)
          end
      | None => (r, w)
      end
    else (r, w) in
  if includes line (js "[download] 100%")
     || includes line (js "has already been downloaded")
  then
    match orElse (exec alreadyPattern line) (fun _ => exec destinationPattern line) with
    | Some fileMatch =>
        let filePath := trim (groupText 1 fileMatch) in
        if negb (arrayIncludes (run_downloadedFiles r) filePath) then
          let files := run_downloadedFiles r ++ [filePath] in
          (withFiles r files,
           updateOperationState (run_operationId r)
             (mkPartial None None None None None (Some files)) w)
        else (r, w)
    | None => (r, w)
    end
  else (r, w).

(** The [data] handler of standard output. *)
Definition onStdout (data : jsstring) (r : Running) (w : World) : Running * World :=
  let lines :=
    List.filter (fun line => (0 <? length (trim line))%nat) (split 10%N data) in
  fold_left onLine lines (r, w).

(** The [data] handler of standard error. *)
Definition onStderr (errorText : jsstring) (r : Running) (w : World) : Running * World :=
  if includes errorText (js "ERROR:") && negb (includes errorText (js "WARNING:")) then
    (r, updateOperationState (run_operationId r)
          (mkPartial None None None
             (Some (Some (js "Download error: " ++ slice0 200 errorText ++ js "...")))
             None None) w)
  else (r, w).

(** [`${code}`] for an exit code, [null] when a signal ended the
    process. *)
Definition codeText (code : option Z) : jsstring :=
  match code with Some c => of_Z c | None => js "null" end.

Definition exitedWithZero (code : option Z) : bool :=
  match code with Some c => (c =? 0)%Z | None => false end.

(** The check mark of the success toast. *)
Definition checkMark : jsstring := [9989%N].

(** The [close] handler. *)
Definition onClose (code : option Z) (now : Z) (r : Running) (w : World) : World :=
  let w := emit [ClearInterval (js "timeInterval")] w in
  if exitedWithZero code || (0 <? length (run_downloadedFiles r))%nat then
    let finalElapsedTime := calculateElapsedTime (run_startTime r) now in
    let w :=
      updateOperationState (run_operationId r)
        {| setIsActive := Some false;
           setIsCompleted := Some true;
           setProgress :=
             Some (spreadProgress (run_currentProgress r)
                     (mkProgress (Some (mkNumber 100 0)) None None None None None None
                                 None (Some finalElapsedTime)));
           setDownloadedFiles := Some (run_downloadedFiles r);
           setTrackInfo := None;
           setError := None |} w in
    let fileCount := length (run_downloadedFiles r) in
    let message :=
      if run_isPlaylist r
      then checkMark ++ js " Downloaded " ++ of_Z (Z.of_nat fileCount) ++ js " track"
           ++ (if (fileCount =? 1)%nat then [] else js "s")
           ++ js " in " ++ finalElapsedTime
      else checkMark ++ js " Downloaded track in " ++ finalElapsedTime in
    let w := emit [ShowToast Success (js "Download Complete") message] w in
    if openInAppleMusic (run_settings r) && (0 <? length (run_downloadedFiles r))%nat
    then openMusic (run_settings r) (run_downloadedFiles r) w
    else w
  else
    let errorMessage := js "Download failed with exit code " ++ codeText code in
    let w := updateOperationState (run_operationId r)
               (mkPartial (Some false) None None (Some (Some errorMessage)) None None) w in
    emit [ShowToast Failure (js "Download Failed") errorMessage] w.

(** The [error] handler of the process. *)
Definition onError (message : jsstring) (r : Running) (w : World) : World :=
  let w := emit [ClearInterval (js "timeInterval")] w in
  let errorMessage := js "Process error: " ++ message in
  let w := updateOperationState (run_operationId r)
             (mkPartial (Some false) None None (Some (Some errorMessage)) None None) w in
  emit [ShowToast Failure (js "Download Error") errorMessage] w.

(** [executeBackgroundDownload] up to its return: the handlers that it
    registers are [onTick], [onStdout], [onStderr], [onClose] and
    [onError]; it gives back their variables when a process was
    started. *)
Definition executeBackgroundDownload (settings : Settings) (now : Z)
    (operationId sanitizedUrl safePath : jsstring) (isPlaylist : bool)
  : M (option Running) :=
  tryCatch
    (act (updateOperationState operationId
            (mkPartial (Some true) (Some (elapsedOnly (js "0:00"))) None (Some None)
                       None None)) ;;;
     let ytDlpPath := getYtDlpPath in
     let args := downloadArgs settings sanitizedUrl safePath isPlaylist in
     let finalArgValidation := validateCommandArgs args in
     match Security.isValid finalArgValidation, sanitizedArgs finalArgValidation with
     | true, Some sane =>
         perform (Spawn ytDlpPath sane) ;;;
         perform (SetInterval (js "timeInterval") 1000) ;;;
         ret (Some (mkRunning operationId isPlaylist settings now None []
                              (elapsedOnly (js "0:00"))))
     | _, _ =>
         throw (js "Invalid command arguments: "
                ++ join (js ", ") (default [] (errors finalArgValidation)))
     end)
    (fun errorMessage =>
       act (updateOperationState operationId
              (mkPartial (Some false) None None (Some (Some errorMessage)) None None)) ;;;
       perform (ShowToast Failure (js "Download Error") errorMessage) ;;;
       ret None).

(** [handleDownload], with the form's [url], the [settings], the clock
    and the id that [generateOperationId] draws. *)
Definition handleDownload (url : jsstring) (settings : Settings) (now : Z)
    (newOperationId : jsstring) : M (option Running) :=
  if (length (trim url) =? 0)%nat then
    perform (ShowToast Failure (js "Error") (js "Please enter a SoundCloud URL")) ;;;
    ret None
  else if negb (isValidSoundCloudUrl url) then
    perform (ShowToast Failure (js "Invalid URL")
               (js "Please enter a valid SoundCloud URL")) ;;;
    ret None
  else
    perform (SetIsLoading true) ;;;
    tryFinally
      (tryCatch
         (act optimizePerformance ;;;
          let urlValidation := validateCommandArgs [url] in
          match Security.isValid urlValidation, sanitizedArgs urlValidation with
          | true, Some ((c :: u) :: _) =>
              let sanitizedUrl := c :: u in
              let isPlaylist := isPlaylistUrl sanitizedUrl in
              let pathValidation := validateCommandArgs [downloadPath settings] in
              match Security.isValid pathValidation, sanitizedArgs pathValidation with
              | true, Some ((c' :: p) :: _) =>
                  let safePath := c' :: p in
                  let operationId := newOperationId in
                  perform (SetCurrentOperationId operationId) ;;;
                  perform (ShowToast Animated
                             (if isPlaylist then js "Starting Playlist Download"
                              else js "Starting Download")
                             (js "Initializing...")) ;;;
                  r <- executeBackgroundDownload settings now operationId sanitizedUrl
                         safePath isPlaylist ;;
                  perform (Push operationId) ;;;
                  ret r
              | _, _ => throw (js "Invalid download path")
              end
          | _, _ => throw (js "Invalid URL format")
          end)
         (fun message =>
            perform (ShowToast Failure (js "Download Error") message) ;;;
            ret None))
      (emit [SetIsLoading false]).

(** What can happen to a started download before its process ends. *)
Inductive ProcessEvent : Type :=
| Tick (now : Z)
| StdoutData (data : jsstring)
| StderrData (data : jsstring).

Definition handle (st : Running * World) (e : ProcessEvent) : Running * World :=
  match e with
  | Tick now => onTick now (fst st) (snd st)
  | StdoutData data => onStdout data (fst st) (snd st)
  | StderrData data => onStderr data (fst st) (snd st)
  end.

Definition handleAll (events : list ProcessEvent) (st : Running * World)
  : Running * World :=
  fold_left handle events st.

End WithPlatform.

End Downloader.

(** ** A platform to evaluate on

    The parsed form of the URLs that the examples use, as the [URL]
    class gives it, and a home directory.  [path.resolve] leaves an
    absolute path without dot segments as it is, and the examples use
    only such paths. *)

Module Sample.

Definition urls : list (jsstring * URL) :=
  [ (js "https://soundcloud.com/artist",
     mkURL (js "soundcloud.com") (js "/artist") []);
    (js "https://soundcloud.com/artist/track",
     mkURL (js "soundcloud.com") (js "/artist/track") []);
    (js "https://m.soundcloud.com/artist/track",
     mkURL (js "m.soundcloud.com") (js "/artist/track") []);
    (js "https://on.soundcloud.com/AbC12",
     mkURL (js "on.soundcloud.com") (js "/AbC12") []);
    (js "https://soundcloud.com/discover",
     mkURL (js "soundcloud.com") (js "/discover") []);
    (js "https://soundcloud.com/search",
     mkURL (js "soundcloud.com") (js "/search") []);
    (js "https://soundcloud.com/sets/",
     mkURL (js "soundcloud.com") (js "/sets/") []) ].

Fixpoint lookupUrl (l : list (jsstring * URL)) (s : jsstring) : option URL :=
  match l with
  | [] => None
  | (k, u) :: l' => if str_eqb k s then Some u else lookupUrl l' s
  end.

Definition platform : Platform :=
  {| URL_parse := lookupUrl urls;
     URL_toString := fun u => js "https://" ++ hostname u ++ pathname u;
     path_resolve := fun p => p;
     path_join := fun a b => a ++ js "/" ++ b;
     homedir := js "/Users/me";
     existsSync := fun _ => false;
     JSON_parse := fun _ => None |}.

End Sample.

(** * The vocabulary of the statements *)

Module Terms.
Import Regex Security Downloader.

Definition chars (l : list ascii) : jsstring := List.map ch l.

(** After the characters before the first [a]: what follows that [a],
    if there is one. *)
Fixpoint afterFirst (a : char) (s : jsstring) : option jsstring :=
  match s with
  | [] => None
  | x :: s' => if char_eqb x a then Some s' else afterFirst a s'
  end.

(** Two occurrences of [a] in [s]. *)
Definition hasTwo (a : char) (s : jsstring) : bool :=
  match afterFirst a s with
  | Some rest => existsb (fun x => char_eqb x a) rest
  | None => false
  end.

(** The second of the dangerous patterns. *)
Definition backticks : regex := seq [lit1 "`"; star (notChar "`"); lit1 "`"].

(** The seven dangerous patterns, in words: a dollar sign and an opening
    parenthesis, a pair of backticks, two ampersands, two bars, a
    semicolon, and the two angle brackets. *)
Definition dangerous (arg : jsstring) : bool :=
  includes arg (js "$(") || hasTwo (ch "`") arg || includes arg (js "&&")
  || includes arg (js "||") || includes arg (js ";") || includes arg (js ">")
  || includes arg (js "<").

(** The argument is turned down: too long, dangerous, or not empty and
    empty once the control characters are stripped and it is trimmed. *)
Definition rejects (arg : jsstring) : bool :=
  (2000 <? length arg)%nat
  || dangerous arg
  || ((length (trim (stripControl arg)) =? 0)%nat && (0 <? length arg)%nat).

(** The same with the last test on the stripped string, before it is
    trimmed. *)
Definition rejectsUntrimmed (arg : jsstring) : bool :=
  (2000 <? length arg)%nat
  || dangerous arg
  || ((length (stripControl arg) =? 0)%nat && (0 <? length arg)%nat).

(** The messages that the loop pushes, in order. *)
Definition messages (args : list jsstring) : list jsstring :=
  omap (fun arg => match checkArg arg with inl e => Some e | inr _ => None end) args.

(** The strings that the loop pushes, in order. *)
Definition accepted (args : list jsstring) : list jsstring :=
  omap (fun arg => match checkArg arg with inl _ => None | inr s => Some s end) args.

(** No key in both objects. *)
Definition disjointKeys (p1 p2 : PartialState) : bool :=
  negb (present (setIsActive p1) && present (setIsActive p2))
  && negb (present (setProgress p1) && present (setProgress p2))
  && negb (present (setTrackInfo p1) && present (setTrackInfo p2))
  && negb (present (setError p1) && present (setError p2))
  && negb (present (setIsCompleted p1) && present (setIsCompleted p2))
  && negb (present (setDownloadedFiles p1) && present (setDownloadedFiles p2)).

(** The merge on the caller's side, [{ ...p1, ...p2 }]. *)
Definition spreadPartial (p1 p2 : PartialState) : PartialState :=
  {| setIsActive := overOpt (setIsActive p2) (setIsActive p1);
     setProgress := overOpt (setProgress p2) (setProgress p1);
     setTrackInfo := overOpt (setTrackInfo p2) (setTrackInfo p1);
     setError := overOpt (setError p2) (setError p1);
     setIsCompleted := overOpt (setIsCompleted p2) (setIsCompleted p1);
     setDownloadedFiles := overOpt (setDownloadedFiles p2) (setDownloadedFiles p1) |}.

(** The state of an operation as [updateOperationState] reads it. *)
Definition stateOf (w : World) (operationId : jsstring) : OperationState :=
  default defaultState (globalOperations w !! operationId).

(** The updates of a list, one call of [updateOperationState] each. *)
Definition updateAll (operationId : jsstring) (updates : list PartialState) (w : World)
  : World :=
  fold_left (fun w p => updateOperationState operationId p w) updates w.

(** A process is started, now or from a timer. *)
Fixpoint isSpawn (e : Effect) : bool :=
  match e with
  | Spawn _ _ => true
  | SetTimeout _ e' => isSpawn e'
  | _ => false
  end.

Definition isFailureToast (e : Effect) : bool :=
  match e with
  | ShowToast Failure _ _ => true
  | _ => false
  end.

(** The processes started so far, and the failures shown so far. *)
Definition spawned (w : World) : list Effect := List.filter isSpawn (effects w).
Definition failuresShown (w : World) : list Effect :=
  List.filter isFailureToast (effects w).

Definition emptyWorld : World := mkWorld ∅ ∅ [].

(** The path [p] is the directory [dir] or lies under it. *)
Definition insideDirectory (dir p : jsstring) : bool :=
  str_eqb p dir || startsWith p (dir ++ js "/").

(** The resolved form of the path is inside none of the safe
    directories. *)
Definition outsideSafeDirectories {P : Platform} (inputPath : jsstring) : bool :=
  forallb (fun safePath => negb (insideDirectory safePath (path_resolve inputPath)))
          safePaths.

(** What a refused start leaves: no process started, now or from a
    timer, one more failure shown, and either the store as it was or
    the operation inactive with an error. *)
Definition refused (operationId : jsstring) (w w' : World) : Prop :=
  spawned w' = spawned w
  /\ length (failuresShown w') = S (length (failuresShown w))
  /\ (globalOperations w' = globalOperations w
      \/ isActive (stateOf w' operationId) = false
         /\ isCompleted (stateOf w' operationId) = isCompleted (stateOf w operationId)
         /\ exists message, error (stateOf w' operationId) = Some message).

(** The update has no [isCompleted] key. *)
Definition keepsCompleted (p : PartialState) : Prop := setIsCompleted p = None.

(** The first update of [executeBackgroundDownload], and the update of
    its [catch] block. *)
Definition startUpdate : PartialState :=
  mkPartial (Some true) (Some (elapsedOnly (js "0:00"))) None (Some None) None None.

Definition failUpdate (errorMessage : jsstring) : PartialState :=
  mkPartial (Some false) None None (Some (Some errorMessage)) None None.

(** The message of the error that [executeBackgroundDownload] throws
    when the final validation turns the arguments down. *)
Definition invalidArgsMessage (args : list jsstring) : jsstring :=
  js "Invalid command arguments: " ++ join (js ", ") (messages args).

(** One key of a shallow merge: where the partial object has the key,
    the merged state has the partial object's value for it, the whole
    value and nothing of the old one; where it has not, the merged
    state keeps the old value. *)
Definition mergedKey {A} (partial : option A) (old merged : A) : Prop :=
  match partial with
  | Some v => merged = v
  | None => merged = old
  end.

(** [merged] is [partial] merged onto [old], key by key. *)
Definition shallowMerge (old : OperationState) (partial : PartialState)
    (merged : OperationState) : Prop :=
  mergedKey (setIsActive partial) (isActive old) (isActive merged)
  /\ mergedKey (setProgress partial) (progress old) (progress merged)
  /\ mergedKey (setTrackInfo partial) (trackInfo old) (trackInfo merged)
  /\ mergedKey (setError partial) (error old) (error merged)
  /\ mergedKey (setIsCompleted partial) (isCompleted old) (isCompleted merged)
  /\ mergedKey (setDownloadedFiles partial) (downloadedFiles old)
       (downloadedFiles merged).

(** One key of the state after two updates: the value of the second
    object where it has the key, else of the first where it has the
    key, else the old value. *)
Definition mergedTwice {A} (first second : option A) (old merged : A) : Prop :=
  match second, first with
  | Some v, _ => merged = v
  | None, Some v => merged = v
  | None, None => merged = old
  end.

(** [merged] is what two updates, [first] and then [second], leave of
    [old], key by key. *)
Definition mergedBoth (old : OperationState) (first second : PartialState)
    (merged : OperationState) : Prop :=
  mergedTwice (setIsActive first) (setIsActive second) (isActive old) (isActive merged)
  /\ mergedTwice (setProgress first) (setProgress second) (progress old) (progress merged)
  /\ mergedTwice (setTrackInfo first) (setTrackInfo second) (trackInfo old)
       (trackInfo merged)
  /\ mergedTwice (setError first) (setError second) (error old) (error merged)
  /\ mergedTwice (setIsCompleted first) (setIsCompleted second) (isCompleted old)
       (isCompleted merged)
  /\ mergedTwice (setDownloadedFiles first) (setDownloadedFiles second)
       (downloadedFiles old) (downloadedFiles merged).

(** A control character: U+0000 to U+001F, or U+007F to U+009F. *)
Definition controlCharacter (c : char) : Prop :=
  (c <= 0x1f)%N \/ (0x7f <= c <= 0x9f)%N.

(** [t] is [s] with its control characters removed: every other
    character of [s], in the order of [s]. *)
Inductive withoutControl : jsstring -> jsstring -> Prop :=
| withoutControl_nil : withoutControl [] []
| withoutControl_drop (c : char) (s t : jsstring) :
    controlCharacter c -> withoutControl s t -> withoutControl (c :: s) t
| withoutControl_keep (c : char) (s t : jsstring) :
    ~ controlCharacter c -> withoutControl s t -> withoutControl (c :: s) (c :: t).

(** The string is empty or starts with a character that is not white
    space. *)
Definition noSpaceAhead (t : jsstring) : Prop :=
  match t with
  | [] => True
  | x :: _ => isWhiteSpace x = false
  end.

(** [t] is [s] with the white space around it trimmed: [s] is [t]
    between two runs of white space, and [t] neither starts nor ends
    with white space. *)
Definition withoutSurroundingSpace (s t : jsstring) : Prop :=
  exists lead trail : jsstring,
    s = lead ++ t ++ trail
    /\ Forall (fun c => isWhiteSpace c = true) lead
    /\ Forall (fun c => isWhiteSpace c = true) trail
    /\ noSpaceAhead t /\ noSpaceAhead (rev t).

End Terms.

(** ** [src/utils/performance.ts] *)

Module Performance.

(** *** [MemoryMonitor] *)

Record Measurement : Type := mkMeasurement {
  timestamp : Z;
  usage : Z
}.

Definition maxMeasurements : nat := 100.

(** [l.slice(-n)] *)
Definition sliceLast {A} (n : nat) (l : list A) : list A := skipn (length l - n) l.

(** [recordUsage()], with [process.memoryUsage().heapUsed] when the
    process object has it, and the clock reading. *)
Definition recordUsage (heapUsed : option Z) (now : Z) (measurements : list Measurement)
  : list Measurement :=
  match heapUsed with
  | None => measurements
  | Some used =>
      let measurements := measurements ++ [mkMeasurement now used] in
      if (maxMeasurements <? length measurements)%nat
      then sliceLast maxMeasurements measurements
      else measurements
  end.

(** [Math.max(...l)] of a list that is not empty *)
Definition maximum (l : list Z) (first : Z) : Z := fold_left Z.max l first.

(** [getPeakUsage(windowMs)] at clock reading [now] *)
Definition getPeakUsage (windowMs now : Z) (measurements : list Measurement) : Z :=
  let recentMeasurements :=
    List.filter (fun m => (now - timestamp m <=? windowMs)%Z) measurements in
  match List.map usage recentMeasurements with
  | [] => 0%Z
  | u :: us => maximum us u
  end.

(** *** [BatchProcessor] *)

Section Batch.
Variable T : Type.

Inductive BatchEffect : Type :=
| Processed (items : list T)      (* processFn(itemsToProcess) *)
| TimerSet (delay : Z)            (* setTimeout(() => this.flush(), flushDelay) *)
| TimerCleared.                   (* clearTimeout(this.timeoutId) *)

(** The fields; [timeoutId] is [true] when it is not [null]. *)
Record BatchProcessor : Type := mkBatch {
  batch : list T;
  batchSize : Z;
  flushDelay : Z;
  timeoutId : bool
}.

(** [new BatchProcessor(batchSize, processFn, flushDelay)] *)
Definition newBatchProcessor (batchSize flushDelay : Z) : BatchProcessor :=
  mkBatch [] batchSize flushDelay false.

(** [flush()] up to its [await]: what it does and the processor after.
    A failure of [processFn] is caught and changes nothing here. *)
Definition flush (b : BatchProcessor) : list BatchEffect * BatchProcessor :=
  let cleared := if timeoutId b then [TimerCleared] else [] in
  match batch b with
  | [] => (cleared, mkBatch [] (batchSize b) (flushDelay b) false)
  | _ :: _ =>
      (cleared ++ [Processed (batch b)],
       mkBatch [] (batchSize b) (flushDelay b) false)
  end.

(** [add(item)] *)
Definition add (item : T) (b : BatchProcessor) : list BatchEffect * BatchProcessor :=
  let b := mkBatch (batch b ++ [item]) (batchSize b) (flushDelay b) (timeoutId b) in
  if (batchSize b <=? Z.of_nat (length (batch b)))%Z then flush b
  else
    ((if timeoutId b then [TimerCleared] else []) ++ [TimerSet (flushDelay b)],
     mkBatch (batch b) (batchSize b) (flushDelay b) true).

(** [destroy()] *)
Definition destroy (b : BatchProcessor) : list BatchEffect * BatchProcessor :=
  (if timeoutId b then [TimerCleared] else [],
   mkBatch [] (batchSize b) (flushDelay b) false).

(** What is done to a processor: the three methods, and the timer that
    runs [flush]. *)
Inductive BatchOp : Type :=
| Add (item : T)
| Flush
| TimerFires
| Destroy.

Definition batchStep (op : BatchOp) (b : BatchProcessor)
  : list BatchEffect * BatchProcessor :=
  match op with
  | Add item => add item b
  | Flush => flush b
  | TimerFires => flush b
  | Destroy => destroy b
  end.

Fixpoint batchRun (ops : list BatchOp) (b : BatchProcessor)
  : list BatchEffect * BatchProcessor :=
  match ops with
  | [] => ([], b)
  | op :: ops' =>
      let '(e1, b1) := batchStep op b in
      let '(e2, b2) := batchRun ops' b1 in
      (e1 ++ e2, b2)
  end.

End Batch.

Arguments Processed {T}.
Arguments TimerSet {T}.
Arguments TimerCleared {T}.
Arguments batch {T}.
Arguments batchSize {T}.
Arguments flushDelay {T}.
Arguments timeoutId {T}.
Arguments mkBatch {T}.
Arguments newBatchProcessor {T}.
Arguments flush {T}.
Arguments add {T}.
Arguments destroy {T}.
Arguments Add {T}.
Arguments Flush {T}.
Arguments TimerFires {T}.
Arguments Destroy {T}.
Arguments batchStep {T}.
Arguments batchRun {T}.

(** *** [ProcessManager] *)

(** What the manager looks at in a process object: whether it has a
    [kill] or a [cancel] method, whether calling it throws, and whether
    the object has a [then] method. *)
Record ProcessObject : Type := mkProcess {
  pid : nat;
  hasKill : bool;
  hasCancel : bool;
  stopThrows : bool;
  thenable : bool
}.

Inductive ProcessEffect : Type :=
| Killed (pid : nat)              (* process.kill("SIGTERM") *)
| Cancelled (pid : nat)           (* process.cancel() *)
| OnSettled (id : JS.jsstring).   (* process.finally(() => this.processes.delete(id)) *)

(** The [Map]: keys in insertion order, each once.  A value that is
    falsy is [None]. *)
Definition ProcessMap := list (JS.jsstring * option ProcessObject).

Fixpoint mapGet (id : JS.jsstring) (m : ProcessMap) : option (option ProcessObject) :=
  match m with
  | [] => None
  | (k, v) :: m' => if JS.str_eqb k id then Some v else mapGet id m'
  end.

Definition mapDelete (id : JS.jsstring) (m : ProcessMap) : ProcessMap :=
  List.filter (fun kv => negb (JS.str_eqb (fst kv) id)) m.

(** [Map.prototype.set]: a key that is there keeps its place. *)
Fixpoint mapSet (id : JS.jsstring) (v : option ProcessObject) (m : ProcessMap)
  : ProcessMap :=
  match m with
  | [] => [(id, v)]
  | (k, v') :: m' => if JS.str_eqb k id then (k, v) :: m' else (k, v') :: mapSet id v m'
  end.

(** [killProcess(id)]: the answer, the calls made, the map after. *)
Definition killProcess (id : JS.jsstring) (m : ProcessMap)
  : bool * list ProcessEffect * ProcessMap :=
  match mapGet id m with
  | Some (Some process) =>
      if hasKill process then
        (negb (stopThrows process), [Killed (pid process)], mapDelete id m)
      else if hasCancel process then
        (negb (stopThrows process), [Cancelled (pid process)], mapDelete id m)
      else (true, [], mapDelete id m)
  | _ => (false, [], m)
  end.

(** [addProcess(id, process)] *)
Definition addProcess (id : JS.jsstring) (process : option ProcessObject) (m : ProcessMap)
  : list ProcessEffect * ProcessMap :=
  let '(_, killed, m) := killProcess id m in
  let m := mapSet id process m in
  match process with
  | Some p => if thenable p then (killed ++ [OnSettled id], m) else (killed, m)
  | None => (killed, m)
  end.

(** The callback given to [finally], when the promise settles. *)
Definition settled (id : JS.jsstring) (m : ProcessMap) : ProcessMap := mapDelete id m.

(** [killAllProcesses()]: [forEach] visits the entries in order; the
    one it is at may be deleted. *)
Definition killAllProcesses (m : ProcessMap) : list ProcessEffect * ProcessMap :=
  fold_left (fun acc kv =>
               let '(_, e, m') := killProcess (fst kv) (snd acc) in
               (fst acc ++ e, m'))
            m ([], m).

Definition getProcessCount (m : ProcessMap) : nat := length m.

Definition isProcessRunning (id : JS.jsstring) (m : ProcessMap) : bool :=
  match mapGet id m with Some _ => true | None => false end.

End Performance.

(** ** The rest of [src/utils/security.ts] *)

Module SecurityRest.
Import Security.

(** The replacement text of [escapeShellArg]: a quote that closes, a
    quote between double quotes, a quote that opens. *)
Definition quoteEscape : jsstring := js "'" ++ [34%N] ++ js "'" ++ [34%N] ++ js "'".

(** [arg.replace(/'/g, ...)] *)
Definition escapeQuotes (arg : jsstring) : jsstring :=
  flat_map (fun c => if char_eqb c (ch "'") then quoteEscape else [c]) arg.

Definition escapeShellArg (arg : jsstring) : jsstring :=
  js "'" ++ escapeQuotes arg ++ js "'".

(** [RateLimiter]: the time stamps of the requests let through, oldest
    first, and the two constructor arguments.  Times are the integers
    of [Date.now()]. *)
Record RateLimiter : Type := mkRateLimiter {
  requests : list Z;
  maxRequests : Z;
  windowMs : Z
}.

(** [new RateLimiter(maxRequests, windowMs)] *)
Definition newRateLimiter (maxRequests windowMs : Z) : RateLimiter :=
  mkRateLimiter [] maxRequests windowMs.

(** [canMakeRequest()] at clock reading [now]: the answer and the
    limiter after the call. *)
Definition canMakeRequest (now : Z) (r : RateLimiter) : bool * RateLimiter :=
  let recent := List.filter (fun timestamp => (now - timestamp <? windowMs r)%Z)
                            (requests r) in
  if (Z.of_nat (length recent) <? maxRequests r)%Z
  then (true, mkRateLimiter (recent ++ [now]) (maxRequests r) (windowMs r))
  else (false, mkRateLimiter recent (maxRequests r) (windowMs r)).

(** A time that [getTimeUntilNextRequest] returns; [Math.min()] of no
    argument is [Infinity], and so is what is computed from it. *)
Inductive Delay : Type :=
| Ms (z : Z)
| Infinity.

(** [Math.min(...l)] *)
Definition minimum (l : list Z) : option Z :=
  match l with
  | [] => None
  | x :: l' => Some (fold_left Z.min l' x)
  end.

(** [getTimeUntilNextRequest()] at clock reading [now] *)
Definition getTimeUntilNextRequest (now : Z) (r : RateLimiter) : Delay :=
  if (Z.of_nat (length (requests r)) <? maxRequests r)%Z then Ms 0
  else
    match minimum (requests r) with
    | Some oldestRequest => Ms (Z.max 0 (windowMs r - (now - oldestRequest)))
    | None => Infinity
    end.

End SecurityRest.

(** * More vocabulary of the statements *)

Module MoreTerms.
Import Regex Security SecurityRest Downloader Terms.

(** Nothing to trim: the string is empty, or its first and its last
    character are not white space. *)
Definition trimmed (s : jsstring) : bool :=
  match s with
  | [] => true
  | x :: _ => negb (isWhiteSpace x) && negb (isWhiteSpace (List.last s x))
  end.

(** The value of the first entry with the key. *)
Fixpoint assoc (key : jsstring) (l : list (jsstring * jsstring)) : option jsstring :=
  match l with
  | [] => None
  | (k, v) :: l' => if str_eqb k key then Some v else assoc key l'
  end.

(** The types that [detectSoundCloudUrlType] marks as valid. *)
Definition downloadable : list UrlType := [shortened; playlist; album; track].

(** How a POSIX shell reads a word made of quoted parts: between single
    quotes every character stands for itself; between double quotes a
    character other than the dollar sign, the backtick, the backslash
    and the double quote does.  [None] for a word with anything else in
    it. *)
Inductive Quoting : Type := Unquoted | SingleQuoted | DoubleQuoted.

Fixpoint shellRead (q : Quoting) (word : jsstring) : option jsstring :=
  match word with
  | [] => match q with Unquoted => Some [] | _ => None end
  | c :: rest =>
      match q with
      | Unquoted =>
          if char_eqb c (ch "'") then shellRead SingleQuoted rest
          else if char_eqb c 34%N then shellRead DoubleQuoted rest
          else None
      | SingleQuoted =>
          if char_eqb c (ch "'") then shellRead Unquoted rest
          else option_map (cons c) (shellRead SingleQuoted rest)
      | DoubleQuoted =>
          if char_eqb c 34%N then shellRead Unquoted rest
          else if char_eqb c (ch "$") || char_eqb c (ch "`") || char_eqb c (ch "\")
          then None
          else option_map (cons c) (shellRead DoubleQuoted rest)
      end
  end.

(** The calls of [canMakeRequest] at the clock readings [times], in
    order: the readings that were let through, and the limiter at the
    end. *)
Fixpoint requestAll (times : list Z) (r : RateLimiter) : list Z * RateLimiter :=
  match times with
  | [] => ([], r)
  | now :: later =>
      let '(ok, r') := canMakeRequest now r in
      let '(granted, r'') := requestAll later r' in
      (if ok then now :: granted else granted, r'')
  end.

(** The two digits of a number below 100. *)
Definition twoDigits (n : Z) : jsstring :=
  [Z.to_N (48 + n / 10); Z.to_N (48 + n mod 10)].

End MoreTerms.

(** * Vocabulary for the store and the engine *)

Module EngineTerms.
Import Regex Security Downloader Terms.

Definition isCallTo (cb : callback) (e : Effect) : bool :=
  match e with
  | Called c _ => Nat.eqb c cb
  | _ => false
  end.

(** How many times the callback was called. *)
Definition callsTo (cb : callback) (l : list Effect) : nat :=
  length (List.filter (isCallTo cb) l).

(** The subscriber sets that the store holds are not empty and have no
    callback twice. *)
Definition tidy (w : World) : Prop :=
  forall (operationId : jsstring) (listeners : list callback),
    globalListeners w !! operationId = Some listeners ->
    listeners <> [] /\ NoDup listeners.

(** The three operations of the store. *)
Inductive StoreOp : Type :=
| Subscribe (operationId : jsstring) (cb : callback)
| Unsubscribe (operationId : jsstring) (cb : callback)
| Update (operationId : jsstring) (updates : PartialState).

Definition applyOp (w : World) (op : StoreOp) : World :=
  match op with
  | Subscribe operationId cb => subscribeToOperation operationId cb w
  | Unsubscribe operationId cb => unsubscribe operationId cb w
  | Update operationId updates => updateOperationState operationId updates w
  end.

(** The effect is a call of one of the callbacks. *)
Definition isCallOf (listeners : list callback) (e : Effect) : Prop :=
  match e with
  | Called cb _ => In cb listeners
  | _ => False
  end.

(** From [w] to [w'] nothing happened but updates of the operation:
    the subscribers are the same, the other operations are as they
    were, and the only effects are calls of the subscribers of the
    operation. *)
Definition onlyUpdates (operationId : jsstring) (w w' : World) : Prop :=
  globalListeners w' = globalListeners w
  /\ (forall other, other <> operationId ->
        globalOperations w' !! other = globalOperations w !! other)
  /\ exists new,
       effects w' = effects w ++ new
       /\ Forall (isCallOf (default [] (globalListeners w !! operationId))) new.

(** The stored state shows what the handlers hold. *)
Definition inStep (r : Running) (w : World) : Prop :=
  progress (stateOf w (run_operationId r)) = run_currentProgress r
  /\ downloadedFiles (stateOf w (run_operationId r)) = run_downloadedFiles r
  /\ trackInfo (stateOf w (run_operationId r)) = run_trackInfo r.

(** The candidates of [getYtDlpPath]. *)
Definition possiblePaths : list jsstring :=
  [js "/opt/homebrew/bin/yt-dlp"; js "/usr/local/bin/yt-dlp";
   js "/usr/bin/yt-dlp"; js "yt-dlp"].

Definition isToast (e : Effect) : bool :=
  match e with
  | ShowToast _ _ _ => true
  | _ => false
  end.


(** The elapsed time that the progress shows after the events: that of
    the latest tick, or the one it had. *)
Definition shownElapsed (startTime : Z) (events : list ProcessEvent)
    (shown : option jsstring) : option jsstring :=
  fold_left (fun acc e =>
               match e with
               | Tick now => Some (calculateElapsedTime startTime now)
               | _ => acc
               end) events shown.

End EngineTerms.

(** * Vocabulary for [performance.ts] *)

Module PerformanceTerms.
Import Performance.

(** The samples that [recordUsage] was called with and took. *)
Definition taken (samples : list (option Z * Z)) : list Measurement :=
  omap (fun s => match fst s with
                 | Some used => Some (mkMeasurement (snd s) used)
                 | None => None
                 end) samples.

Definition recordAll (samples : list (option Z * Z)) (measurements : list Measurement)
  : list Measurement :=
  fold_left (fun ms s => recordUsage (fst s) (snd s) ms) samples measurements.

Definition isRecent (windowMs now : Z) (m : Measurement) : bool :=
  (now - timestamp m <=? windowMs)%Z.

(** The items handed to [processFn], batch after batch. *)
Fixpoint batches {T} (effects : list (BatchEffect T)) : list (list T) :=
  match effects with
  | [] => []
  | Processed items :: rest => items :: batches rest
  | _ :: rest => batches rest
  end.

(** The items given to [add], in order. *)
Fixpoint added {T} (ops : list (BatchOp T)) : list T :=
  match ops with
  | [] => []
  | Add item :: rest => item :: added rest
  | _ :: rest => added rest
  end.

Definition isDestroy {T} (op : BatchOp T) : bool :=
  match op with Destroy => true | _ => false end.

(** What holds of a processor between calls: the waiting batch is
    shorter than the batch size, and a timer is set when it is not
    empty. *)
Definition settledBatch {T} (b : BatchProcessor T) : Prop :=
  (Z.of_nat (length (batch b)) < batchSize b)%Z
  /\ (batch b <> [] -> timeoutId b = true).

(** What [killProcess] calls on a value of the map. *)
Definition stopCalls (v : option ProcessObject) : list ProcessEffect :=
  match v with
  | Some process =>
      if hasKill process then [Killed (pid process)]
      else if hasCancel process then [Cancelled (pid process)]
      else []
  | None => []
  end.

Definition isFalsy (v : option ProcessObject) : bool :=
  match v with Some _ => false | None => true end.

End PerformanceTerms.

(** * What the literal patterns match *)

Module RegexProps.
Import Regex Security Terms.

Lemma js_chars (s : string) : js s = chars (list_ascii_of_string s).
Proof. reflexivity. Qed.

Lemma run_lit1 (a : ascii) (s : jsstring) (c : captures) (k : cont) :
  run (lit1 a) s c k =
    match s with
    | x :: s' => if char_eqb x (ch a) then k s' c else None
    | [] => None
    end.
Proof. reflexivity. Qed.

(** A literal matches where the input starts with it, and takes it off. *)
Lemma run_litl (l : list ascii) (s : jsstring) (c : captures) (k : cont) :
  run (litl l) s c k =
    if startsWith s (chars l) then k (skipn (length l) s) c else None.
Proof.
  revert s. induction l as [|a l IH]; intros s.
  - simpl. destruct s; reflexivity.
  - assert (Hcat : run (litl (a :: l)) s c k
                   = run (lit1 a) s c (fun s' c' => run (litl l) s' c' k)).
    { destruct l as [|b l]; [|reflexivity].
      simpl. destruct s as [|x s]; [reflexivity|]. destruct (char_eqb x (ch a)); reflexivity. }
    rewrite Hcat, run_lit1. destruct s as [|x s]; [reflexivity|].
    simpl startsWith. destruct (char_eqb x (ch a)); simpl; [apply IH|reflexivity].
Qed.

(** [r.test(s)] for a literal pattern is [s.includes(literal)]. *)
Lemma test_lit (str : string) (s : jsstring) : test (lit str) s = includes s (js str).
Proof.
  unfold test, lit. rewrite js_chars. generalize (list_ascii_of_string str) as l. intros l.
  induction s as [|x s IH].
  - cbn [exec]. unfold matchHere. rewrite run_litl.
    change (includes [] (chars l)) with (startsWith [] (chars l) || false).
    destruct (startsWith [] (chars l)); reflexivity.
  - cbn [exec]. unfold matchHere. rewrite run_litl.
    change (includes (x :: s) (chars l))
      with (startsWith (x :: s) (chars l) || includes s (chars l)).
    destruct (startsWith (x :: s) (chars l)); [reflexivity|]. simpl. exact IH.
Qed.

(** A greedy run of characters other than [a], then [a]: the match ends
    at the first [a]. *)
Lemma iterate_until (a : ascii) (k : cont) (fuel : nat) (s : jsstring) (c : captures) :
  (length s <= fuel)%nat ->
  iterate true (run (notChar a)) (fun s' c' => run (lit1 a) s' c' k) fuel s c =
    match afterFirst (ch a) s with
    | Some rest => k rest c
    | None => None
    end.
Proof.
  revert fuel. induction s as [|x s IH]; intros fuel Hlen.
  - destruct fuel; reflexivity.
  - destruct fuel as [|fuel]; [simpl in Hlen; lia|].
    simpl in Hlen. cbn [iterate]. unfold notChar at 1. cbn [run].
    cbn [afterFirst]. destruct (char_eqb x (ch a)) eqn:E; cbn [negb orElse].
    + rewrite run_lit1, E. reflexivity.
    + replace (length s <? length (x :: s))%nat with true
        by (symmetry; apply Nat.ltb_lt; simpl; lia).
      rewrite IH by lia.
      destruct (afterFirst (ch a) s) as [rest|].
      * destruct (k rest c); [reflexivity|]. cbn. rewrite E. reflexivity.
      * cbn. rewrite E. reflexivity.
Qed.

Lemma afterFirst_None (a : char) (s : jsstring) :
  afterFirst a s = None -> existsb (fun x => char_eqb x a) s = false.
Proof.
  induction s as [|x s IH]; simpl; [reflexivity|].
  destruct (char_eqb x a); [discriminate|]. exact IH.
Qed.

Lemma afterFirst_Some (a : char) (s rest : jsstring) :
  afterFirst a s = Some rest -> existsb (fun x => char_eqb x a) s = true.
Proof.
  induction s as [|x s IH]; simpl; [discriminate|].
  destruct (char_eqb x a); [reflexivity|]. exact IH.
Qed.

Lemma matchHere_backticks (s : jsstring) :
  matchHere backticks s =
    match s with
    | x :: s' =>
        if char_eqb x (ch "`")
        then match afterFirst (ch "`") s' with Some _ => Some [] | None => None end
        else None
    | [] => None
    end.
Proof.
  unfold matchHere, backticks, seq, star. cbn [run]. rewrite run_lit1.
  destruct s as [|x s]; [reflexivity|].
  destruct (char_eqb x (ch "`")); [|reflexivity].
  rewrite iterate_until by lia.
  destruct (afterFirst (ch "`") s); reflexivity.
Qed.

(** The backtick pattern matches where there are two backticks. *)
Lemma test_backticks (s : jsstring) : test backticks s = hasTwo (ch "`") s.
Proof.
  unfold test, hasTwo. induction s as [|x s IH]; [reflexivity|].
  cbn [exec afterFirst]. rewrite matchHere_backticks.
  destruct (char_eqb x (ch "`")) eqn:E; [|exact IH].
  destruct (afterFirst (ch "`") s) as [rest|] eqn:Ea.
  - rewrite (afterFirst_Some _ _ _ Ea). reflexivity.
  - rewrite (afterFirst_None _ _ Ea). exact IH.
Qed.

Lemma hasDangerousPattern_dangerous (arg : jsstring) :
  hasDangerousPattern arg = dangerous arg.
Proof.
  unfold hasDangerousPattern, dangerousPatterns, dangerous. cbn [existsb].
  fold backticks. rewrite !test_lit, test_backticks, orb_false_r, !orb_assoc.
  reflexivity.
Qed.

End RegexProps.

(** * Properties of [src/utils/security.ts] *)

Module SecurityProps.
Import Regex Security Terms RegexProps.

Lemma filter_twice {A} (f : A -> bool) (l : list A) :
  List.filter f (List.filter f l) = List.filter f l.
Proof.
  induction l as [|x l IH]; simpl; [reflexivity|].
  destruct (f x) eqn:E; simpl; [rewrite E, IH|]; auto.
Qed.

Lemma sanitizeUrl_idempotent (s : jsstring) :
  sanitizeUrl (sanitizeUrl s) = sanitizeUrl s.
Proof. apply filter_twice. Qed.

Lemma includes_cons_first (x : char) (p s : jsstring) :
  includes s (x :: p) = true -> In x s.
Proof.
  induction s as [|y s IH]; simpl.
  - discriminate.
  - intros H. apply orb_true_iff in H as [H|H].
    + apply andb_true_iff in H as [H _]. apply N.eqb_eq in H. left; exact H.
    + right; auto.
Qed.

(** No output of [sanitizeUrl] has a parenthesis, so none has a
    placeholder that opens with one. *)
Lemma sanitizeUrl_no_paren (s : jsstring) : ~ In (ch "(") (sanitizeUrl s).
Proof.
  unfold sanitizeUrl. intros H. apply filter_In in H as [_ H].
  vm_compute in H. discriminate.
Qed.

(** C2: [sanitizeUrl] is idempotent, but it does not keep a
    percent-parenthesis placeholder: the parentheses are in the class
    that it strips, so ["%(title)s.%(ext)s"] comes out as
    ["%titles.%exts"], and no output contains ["%("] at all. *)
Theorem sanitizeUrl_idempotent_strips_placeholder :
  (forall s, sanitizeUrl (sanitizeUrl s) = sanitizeUrl s)
  /\ sanitizeUrl (js "%(title)s") = js "%titles"
  /\ sanitizeUrl (js "/Users/me/Music/%(title)s.%(ext)s") = js "/Users/me/Music/%titles.%exts"
  /\ (forall s name, includes (sanitizeUrl s) (js "%(" ++ name) = false).
Proof.
  split; [exact sanitizeUrl_idempotent|].
  split; [vm_compute; reflexivity|].
  split; [vm_compute; reflexivity|].
  intros s name. destruct (includes _ _) eqn:E; [|reflexivity].
  exfalso. change (js "%(" ++ name) with (ch "%" :: ch "(" :: name) in E.
  revert E. generalize (sanitizeUrl_no_paren s).
  induction (sanitizeUrl s) as [|y t IH]; simpl; intros Hno E.
  - discriminate.
  - apply orb_true_iff in E as [E|E].
    + apply andb_true_iff in E as [_ E]. destruct t as [|z t]; [discriminate|].
      simpl in E. apply andb_true_iff in E as [E _]. apply N.eqb_eq in E.
      apply Hno. right; left. exact E.
    + apply IH; [|exact E]. intros H; apply Hno; right; exact H.
Qed.

(** *** [validateCommandArgs] *)

Lemma checkArg_rejects (arg : jsstring) :
  match checkArg arg with
  | inl _ => rejects arg = true
  | inr s => rejects arg = false /\ s = sanitizeArg arg
  end.
Proof.
  unfold checkArg, rejects. rewrite <- hasDangerousPattern_dangerous.
  fold (sanitizeArg arg).
  destruct (2000 <? length arg)%nat; simpl; [reflexivity|].
  destruct (hasDangerousPattern arg); simpl; [reflexivity|].
  destruct ((length (sanitizeArg arg) =? 0)%nat && (0 <? length arg)%nat); simpl; auto.
Qed.

Lemma validateLoop_spec (args errs sane : list jsstring) :
  validateLoop args errs sane = (errs ++ messages args, sane ++ accepted args).
Proof.
  revert errs sane. induction args as [|a args IH]; intros errs sane; simpl.
  - rewrite !app_nil_r. reflexivity.
  - unfold messages, accepted. simpl. destruct (checkArg a) as [e|s]; rewrite IH.
    + rewrite <- app_assoc. reflexivity.
    + rewrite <- app_assoc. reflexivity.
Qed.

Lemma messages_nil_iff (args : list jsstring) :
  messages args = [] <-> existsb rejects args = false.
Proof.
  induction args as [|a args IH]; simpl; [tauto|].
  unfold messages in *. simpl. pose proof (checkArg_rejects a) as H.
  destruct (checkArg a) as [e|s].
  - rewrite H. simpl. split; discriminate.
  - destruct H as [H _]. rewrite H. simpl. exact IH.
Qed.

Lemma accepted_all (args : list jsstring) :
  existsb rejects args = false -> accepted args = List.map sanitizeArg args.
Proof.
  induction args as [|a args IH]; simpl; [reflexivity|].
  intros H. apply orb_false_iff in H as [Ha Hr].
  unfold accepted in *. simpl. pose proof (checkArg_rejects a) as H.
  destruct (checkArg a) as [e|s].
  - congruence.
  - destruct H as [_ ->]. simpl. f_equal. auto.
Qed.

Lemma validateCommandArgs_spec (args : list jsstring) :
  validateCommandArgs args =
    if existsb rejects args
    then mkArgsResult false (Some (messages args)) None
    else mkArgsResult true None (Some (List.map sanitizeArg args)).
Proof.
  unfold validateCommandArgs. rewrite validateLoop_spec. simpl.
  destruct (existsb rejects args) eqn:E.
  - destruct (messages args) as [|m ms] eqn:Em.
    + apply messages_nil_iff in Em. congruence.
    + reflexivity.
  - pose proof E as Em. apply messages_nil_iff in Em. rewrite Em. simpl.
    rewrite accepted_all by exact E. reflexivity.
Qed.

(** C4, as the code has it: [validateCommandArgs] answers all or
    nothing.  When some argument is longer than 2000 characters, has one
    of the dangerous patterns, or is not empty and becomes empty once
    the control characters are stripped and the rest is trimmed, the
    result has [isValid = false], the messages and no [sanitizedArgs];
    otherwise it has [isValid = true] and the list of every argument
    stripped and trimmed. *)
Theorem validateCommandArgs_all_or_nothing (args : list jsstring) :
  let r := validateCommandArgs args in
  if existsb rejects args
  then Security.isValid r = false /\ sanitizedArgs r = None
       /\ errors r = Some (messages args) /\ messages args <> []
  else Security.isValid r = true /\ errors r = None
       /\ sanitizedArgs r = Some (List.map (fun arg => trim (stripControl arg)) args).
Proof.
  cbv zeta. rewrite validateCommandArgs_spec.
  destruct (existsb rejects args) eqn:E; simpl.
  - repeat split; auto. intros Hm. apply messages_nil_iff in Hm. congruence.
  - repeat split; auto.
Qed.

(** C4, as it is worded, fails on an argument of one space: it is short,
    has no dangerous pattern and is not empty once the control
    characters are stripped, and the batch is turned down all the same,
    because the argument is trimmed before it is measured. *)
Lemma blank_argument_rejected :
  let args := [js " "] in
  existsb rejectsUntrimmed args = false
  /\ Security.isValid (validateCommandArgs args) = false
  /\ sanitizedArgs (validateCommandArgs args) = None.
Proof. vm_compute. repeat split; reflexivity. Qed.

(** *** What stripping and trimming leave *)

Lemma isControl_controlCharacter (c : char) :
  isControl c = true <-> controlCharacter c.
Proof.
  unfold isControl, controlCharacter.
  rewrite orb_true_iff, andb_true_iff, !N.leb_le. lia.
Qed.

Lemma stripControl_withoutControl (s : jsstring) : withoutControl s (stripControl s).
Proof.
  unfold stripControl. induction s as [|c s IH]; [constructor|].
  cbn [List.filter]. destruct (isControl c) eqn:E; cbn [negb].
  - apply withoutControl_drop; [|exact IH]. apply isControl_controlCharacter. exact E.
  - apply withoutControl_keep; [|exact IH]. intros H.
    apply isControl_controlCharacter in H. congruence.
Qed.

Lemma withoutControl_clean (s t : jsstring) :
  withoutControl s t -> forall c, In c t -> ~ controlCharacter c.
Proof.
  induction 1 as [|c s t Hc _ IH|c s t Hc _ IH]; intros x Hx.
  - destruct Hx.
  - apply IH. exact Hx.
  - destruct Hx as [<-|Hx]; [exact Hc|apply IH; exact Hx].
Qed.

Lemma trimStart_lead (s : jsstring) :
  exists lead : jsstring,
    s = lead ++ trimStart s
    /\ Forall (fun c => isWhiteSpace c = true) lead
    /\ noSpaceAhead (trimStart s).
Proof.
  induction s as [|x s IH].
  - exists []. repeat split. constructor.
  - cbn [trimStart]. destruct (isWhiteSpace x) eqn:E.
    + destruct IH as (lead & Hs & Hl & Hh). exists (x :: lead).
      split; [cbn [app]; f_equal; exact Hs|]. split; [|exact Hh].
      constructor; assumption.
    + exists []. split; [reflexivity|]. split; [constructor|exact E].
Qed.

Lemma trim_withoutSurroundingSpace (s : jsstring) : withoutSurroundingSpace s (trim s).
Proof.
  unfold withoutSurroundingSpace, trim, trimEnd.
  destruct (trimStart_lead s) as (lead & Hs & Hl & Hh).
  destruct (trimStart_lead (rev (trimStart s))) as (back & Hr & Hb & Hv).
  set (u := trimStart s) in *. set (v := trimStart (rev u)) in *.
  assert (Hu : u = rev v ++ rev back).
  { rewrite <- rev_app_distr, <- Hr, rev_involutive. reflexivity. }
  exists lead, (rev back). split; [rewrite <- Hu; exact Hs|].
  split; [exact Hl|]. split.
  { apply List.Forall_forall. intros c Hc. apply List.in_rev in Hc.
    revert c Hc. apply List.Forall_forall. exact Hb. }
  split; [|rewrite rev_involutive; exact Hv].
  destruct (rev v) as [|x t] eqn:Et; [exact I|].
  rewrite Hu in Hh. exact Hh.
Qed.

(** *** Host names and URL types *)

Lemma str_eqb_eq (a b : jsstring) : str_eqb a b = true <-> a = b.
Proof.
  revert b. induction a as [|x a IH]; intros [|y b]; simpl; split; try discriminate; auto.
  - intros H. apply andb_true_iff in H as [H1 H2]. apply N.eqb_eq in H1.
    apply IH in H2. congruence.
  - intros H. injection H as -> ->. apply andb_true_iff. split.
    + apply N.eqb_refl.
    + apply IH. reflexivity.
Qed.

Lemma str_eqb_neq (a b : jsstring) : a <> b -> str_eqb a b = false.
Proof.
  intros H. destruct (str_eqb a b) eqn:E; [|reflexivity].
  apply str_eqb_eq in E. contradiction.
Qed.

Lemma arrayIncludes_In (l : list jsstring) (x : jsstring) :
  arrayIncludes l x = true <-> In x l.
Proof.
  unfold arrayIncludes. rewrite existsb_exists. split.
  - intros (y & Hy & E). apply str_eqb_eq in E. subst. exact Hy.
  - intros H. exists x. split; [exact H|]. apply str_eqb_eq. reflexivity.
Qed.

Section WithPlatform.
Context {P : Platform}.

(** The schema of [security.ts] takes the five hosts and no other. *)
Lemma isSoundCloudHost_iff (url : jsstring) (u : URL) :
  URL_parse url = Some u ->
  (isSoundCloudHost url = true <-> In (hostname u) validDomains).
Proof. intros H. unfold isSoundCloudHost. rewrite H. apply arrayIncludes_In. Qed.

(** [validateAndSanitizePath] throws on a path that resolves to a
    string with none of the safe directories as a prefix. *)
Lemma validateAndSanitizePath_rejects (inputPath : jsstring) :
  isSafePath inputPath = false ->
  exists issues, validateAndSanitizePath inputPath = inl (SchemaIssues issues).
Proof.
  intros H. unfold validateAndSanitizePath, OutputPathSchema. rewrite H.
  destruct (1 <=? length inputPath)%nat; simpl; eauto.
Qed.

(** It gives the resolved path when the home directory is a prefix of
    it. *)
Lemma validateAndSanitizePath_accepts (inputPath : jsstring) :
  inputPath <> [] ->
  startsWith (path_resolve inputPath) homedir = true ->
  validateAndSanitizePath inputPath = inr (path_resolve inputPath).
Proof.
  intros Hne Hp. unfold validateAndSanitizePath, OutputPathSchema, isSafePath, safePaths.
  cbn [existsb]. rewrite Hp. cbn [orb].
  destruct inputPath as [|c t]; [contradiction|]. cbn. rewrite Hp. reflexivity.
Qed.

(** With one path segment, and none of the earlier cases of
    [detectSoundCloudUrlType] taken, the URL is a user profile: C8 as
    the code has it.  The short-link host, the paths that start with
    [/discover], [/explore] or [/search] and those that contain
    [/sets/] or [/albums/] are decided first and otherwise. *)
Theorem single_segment_is_user (url : jsstring) (u : URL) :
  URL_parse url = Some u ->
  hostname u <> js "on.soundcloud.com" ->
  startsWith (pathname u) (js "/discover") = false ->
  startsWith (pathname u) (js "/explore") = false ->
  startsWith (pathname u) (js "/search") = false ->
  includes (pathname u) (js "/sets/") = false ->
  includes (pathname u) (js "/albums/") = false ->
  length (pathSegmentsOf (pathname u)) = 1%nat ->
  detectSoundCloudUrlType url = (user, false).
Proof.
  intros Hp Hh Hd He Hs Hsets Halb Hlen. unfold detectSoundCloudUrlType.
  rewrite Hp, (str_eqb_neq _ _ Hh), Hd, He, Hs, Hsets, Halb, Hlen. reflexivity.
Qed.

(** The same through [validateSoundCloudUrl], on an allow-listed host. *)
Lemma single_segment_not_downloadable (url : jsstring) (u : URL) :
  URL_parse url = Some u ->
  In (hostname u) validDomains ->
  detectSoundCloudUrlType url = (user, false) ->
  urlIsValid (validateSoundCloudUrl url) = false
  /\ urlType (validateSoundCloudUrl url) = Some user.
Proof.
  intros Hp Hin Hd. unfold validateSoundCloudUrl, SoundCloudUrlSchema.
  rewrite Hp. apply (isSoundCloudHost_iff url u Hp) in Hin. rewrite Hin. simpl.
  rewrite Hd. simpl. split; reflexivity.
Qed.

End WithPlatform.

Lemma single_segment_is_user_witness :
  let url := js "https://soundcloud.com/artist" in
  @detectSoundCloudUrlType Sample.platform url = (user, false).
Proof.
  apply (@single_segment_is_user Sample.platform (js "https://soundcloud.com/artist")
           (mkURL (js "soundcloud.com") (js "/artist") []));
    try (vm_compute; reflexivity).
  vm_compute. discriminate.
Defined.

(** C8, as it is worded, fails on a short link: the host is on the allow
    list and the path has one segment, and the type is [shortened] with
    [isValid = true].  It fails too, with another type, on [/discover],
    [/search] and [/sets/]. *)
Lemma short_link_is_not_user :
  let url := js "https://on.soundcloud.com/AbC12" in
  exists u,
    @URL_parse Sample.platform url = Some u
    /\ In (hostname u) validDomains
    /\ length (pathSegmentsOf (pathname u)) = 1%nat
    /\ @detectSoundCloudUrlType Sample.platform url = (shortened, true).
Proof.
  eexists. split; [vm_compute; reflexivity|]. split.
  - apply arrayIncludes_In. vm_compute. reflexivity.
  - split; vm_compute; reflexivity.
Qed.

(** The test of [validateAndSanitizePath] is on prefixes of strings: a
    sibling of the home directory whose name starts with the name of
    the home directory passes. *)
Example validateAndSanitizePath_sibling_of_home :
  @validateAndSanitizePath Sample.platform (js "/Users/meow/x") = inr (js "/Users/meow/x")
  /\ @outsideSafeDirectories Sample.platform (js "/Users/meow/x") = true.
Proof. vm_compute. split; reflexivity. Qed.

Example discover_search_sets_are_not_users :
  @detectSoundCloudUrlType Sample.platform (js "https://soundcloud.com/discover")
    = (discover, false)
  /\ @detectSoundCloudUrlType Sample.platform (js "https://soundcloud.com/search")
    = (search, false)
  /\ @detectSoundCloudUrlType Sample.platform (js "https://soundcloud.com/sets/")
    = (playlist, true)
  /\ pathSegmentsOf (js "/sets/") = [js "sets"].
Proof. vm_compute. repeat split; reflexivity. Qed.

End SecurityProps.

(** * Properties of the operation state store *)

Module StoreProps.
Import Security Downloader Terms.

Lemma updateOperationState_operations (operationId : jsstring) (p : PartialState)
    (w : World) :
  globalOperations (updateOperationState operationId p w)
  = <[operationId := spreadState (stateOf w operationId) p]> (globalOperations w).
Proof.
  unfold updateOperationState, stateOf. simpl.
  destruct (globalListeners w !! operationId); reflexivity.
Qed.

Lemma updateOperationState_stateOf (operationId : jsstring) (p : PartialState)
    (w : World) :
  stateOf (updateOperationState operationId p w) operationId
  = spreadState (stateOf w operationId) p.
Proof.
  unfold stateOf at 1. rewrite updateOperationState_operations, lookup_insert_eq.
  reflexivity.
Qed.

Lemma updateOperationState_lookup (operationId : jsstring) (p : PartialState)
    (w : World) :
  globalOperations (updateOperationState operationId p w) !! operationId
  = Some (spreadState (stateOf w operationId) p).
Proof. rewrite updateOperationState_operations. apply lookup_insert_eq. Qed.

Lemma updateOperationState_other (operationId other : jsstring) (p : PartialState)
    (w : World) :
  operationId <> other ->
  stateOf (updateOperationState operationId p w) other = stateOf w other.
Proof.
  intros H. unfold stateOf. rewrite updateOperationState_operations.
  rewrite lookup_insert_ne by exact H. reflexivity.
Qed.

Lemma updateOperationState_listeners (operationId : jsstring) (p : PartialState)
    (w : World) :
  globalListeners (updateOperationState operationId p w) = globalListeners w.
Proof.
  unfold updateOperationState. simpl.
  destruct (globalListeners w !! operationId); reflexivity.
Qed.

(** An update calls every subscriber of the id, in the order they
    subscribed, with the new state, and does nothing else outside. *)
Lemma updateOperationState_effects (operationId : jsstring) (p : PartialState)
    (w : World) :
  effects (updateOperationState operationId p w)
  = effects w
    ++ List.map (fun cb => Called cb (spreadState (stateOf w operationId) p))
         (default [] (globalListeners w !! operationId)).
Proof.
  unfold updateOperationState, stateOf. simpl.
  destruct (globalListeners w !! operationId); simpl; [reflexivity|].
  rewrite app_nil_r. reflexivity.
Qed.

Lemma spreadState_spreadPartial (st : OperationState) (p1 p2 : PartialState) :
  spreadState (spreadState st p1) p2 = spreadState st (spreadPartial p1 p2).
Proof.
  destruct p1 as [a1 b1 c1 d1 e1 f1], p2 as [a2 b2 c2 d2 e2 f2].
  unfold spreadState, spreadPartial. simpl.
  destruct a2, b2, c2, d2, e2, f2; reflexivity.
Qed.

Lemma overOpt_disjoint {A} (x y : option A) :
  negb (present x && present y) = true -> overOpt y x = overOpt x y.
Proof. destruct x, y; simpl; intros H; try reflexivity; discriminate. Qed.

Lemma spreadPartial_comm (p1 p2 : PartialState) :
  disjointKeys p1 p2 = true -> spreadPartial p1 p2 = spreadPartial p2 p1.
Proof.
  unfold disjointKeys. intros H.
  repeat (apply andb_true_iff in H as [H ?]).
  unfold spreadPartial. f_equal; apply overOpt_disjoint; assumption.
Qed.

Lemma updateAll_stateOf (operationId : jsstring) (updates : list PartialState)
    (w : World) :
  stateOf (updateAll operationId updates w) operationId
  = fold_left spreadState updates (stateOf w operationId).
Proof.
  revert w. induction updates as [|p ps IH]; intros w; [reflexivity|].
  unfold updateAll in *. simpl. rewrite IH, updateOperationState_stateOf. reflexivity.
Qed.

Lemma updateAll_stored (operationId : jsstring) (updates : list PartialState)
    (w : World) :
  updates <> [] \/ is_Some (globalOperations w !! operationId) ->
  is_Some (globalOperations (updateAll operationId updates w) !! operationId).
Proof.
  revert w. induction updates as [|p ps IH]; intros w H.
  - destruct H as [H|H]; [contradiction|exact H].
  - unfold updateAll in *. simpl. apply IH. right.
    rewrite updateOperationState_lookup. eauto.
Qed.

(** C6: [subscribeToOperation] calls the callback with the stored state
    before it returns; so a subscriber that comes after a run of updates
    to the id is called at once with the state that the updates, applied
    in order, leave. *)
Theorem late_subscriber_gets_replayed_state (operationId : jsstring) (cb : callback)
    (updates : list PartialState) (w : World) :
  updates <> [] \/ is_Some (globalOperations w !! operationId) ->
  let w' := updateAll operationId updates w in
  let current := fold_left spreadState updates (stateOf w operationId) in
  globalOperations w' !! operationId = Some current
  /\ effects (subscribeToOperation operationId cb w') = effects w' ++ [Called cb current]
  /\ globalOperations (subscribeToOperation operationId cb w') = globalOperations w'.
Proof.
  intros H w' current.
  assert (Hs : globalOperations w' !! operationId = Some current).
  { destruct (updateAll_stored operationId updates w H) as [st Hst].
    unfold w', current. rewrite <- updateAll_stateOf.
    unfold stateOf at 1. rewrite Hst. reflexivity. }
  split; [exact Hs|]. unfold subscribeToOperation. simpl. rewrite Hs. simpl.
  split; reflexivity.
Qed.

Lemma late_subscriber_gets_replayed_state_witness :
  let updates :=
    [ mkPartial (Some true) None None None None None;
      mkPartial None None None (Some (Some (js "Download error: x..."))) None None ] in
  let w' := updateAll (js "download_1") updates emptyWorld in
  effects (subscribeToOperation (js "download_1") 7%nat w')
  = effects w'
    ++ [Called 7%nat
          (mkState true noProgress None (Some (js "Download error: x...")) false [])].
Proof.
  apply (late_subscriber_gets_replayed_state (js "download_1") 7%nat
           [ mkPartial (Some true) None None None None None;
             mkPartial None None None (Some (Some (js "Download error: x..."))) None None ]
           emptyWorld).
  left. discriminate.
Defined.

Lemma spreadState_shallowMerge (old : OperationState) (p : PartialState) :
  shallowMerge old p (spreadState old p).
Proof.
  destruct p as [a b c d e f]. unfold shallowMerge, spreadState. cbn.
  destruct a, b, c, d, e, f; cbn; repeat split.
Qed.

Lemma spreadState_mergedBoth (old : OperationState) (p1 p2 : PartialState) :
  mergedBoth old p1 p2 (spreadState (spreadState old p1) p2).
Proof.
  destruct p1 as [a1 b1 c1 d1 e1 f1], p2 as [a2 b2 c2 d2 e2 f2].
  unfold mergedBoth, spreadState. cbn.
  destruct a1, b1, c1, d1, e1, f1, a2, b2, c2, d2, e2, f2; cbn; repeat split.
Qed.

(** C9: two updates, one after the other, with no key in common, store
    what one update with the two objects merged by the caller stores,
    in whichever order the caller merges them.  An update is a shallow
    merge onto the stored state, or onto the default state when the id
    has none: what it stores has, for each key of the partial object,
    the value of the partial object, whole (a [progress] object takes
    the place of the stored one, whose own keys are not kept), and for
    each other key the value that was there.  So the state after the
    two updates has each key from the second object, else from the
    first, else as it was. *)
Theorem sequential_updates_merge (operationId : jsstring) (p1 p2 : PartialState)
    (w : World) :
  disjointKeys p1 p2 = true ->
  let existing := default defaultState (globalOperations w !! operationId) in
  let once := updateOperationState operationId p1 w in
  let twice := updateOperationState operationId p2 once in
  globalOperations twice
  = globalOperations (updateOperationState operationId (spreadPartial p1 p2) w)
  /\ spreadPartial p2 p1 = spreadPartial p1 p2
  /\ globalOperations once !! operationId = Some (spreadState existing p1)
  /\ exists first final : OperationState,
       globalOperations once !! operationId = Some first
       /\ shallowMerge existing p1 first
       /\ globalOperations twice !! operationId = Some final
       /\ shallowMerge first p2 final
       /\ shallowMerge existing (spreadPartial p1 p2) final
       /\ mergedBoth existing p1 p2 final.
Proof.
  intros H existing once twice. split; [|split; [|split]].
  - unfold twice, once.
    rewrite !updateOperationState_operations, updateOperationState_stateOf.
    rewrite insert_insert_eq, spreadState_spreadPartial. reflexivity.
  - symmetry. apply spreadPartial_comm. exact H.
  - apply updateOperationState_lookup.
  - exists (spreadState existing p1), (spreadState (spreadState existing p1) p2).
    split; [apply updateOperationState_lookup|].
    split; [apply spreadState_shallowMerge|].
    split.
    { unfold twice. rewrite updateOperationState_lookup.
      unfold once. rewrite updateOperationState_stateOf. reflexivity. }
    split; [apply spreadState_shallowMerge|].
    split; [|apply spreadState_mergedBoth].
    rewrite spreadState_spreadPartial. apply spreadState_shallowMerge.
Qed.

(** A stored state with a percentage and a speed in its progress; the
    first update brings a progress with the elapsed time alone, the
    second the [isActive] key.  The progress that is stored after them
    is the one of the first update: percentage and speed are gone. *)
Lemma sequential_updates_merge_witness :
  let stored :=
    mkState true
      (mkProgress (Some (mkNumber 500 1)) (Some (js "1.2MiB/s")) None None None None None
                  None None)
      None None false [js "/Users/me/Music/a.mp3"] in
  let w := mkWorld (<[js "download_1" := stored]> ∅) ∅ [] in
  let p1 := mkPartial None (Some (elapsedOnly (js "0:05"))) None None None None in
  let p2 := mkPartial (Some false) None None None None None in
  disjointKeys p1 p2 = true
  /\ globalOperations
       (updateOperationState (js "download_1") p2
          (updateOperationState (js "download_1") p1 w)) !! js "download_1"
     = Some (mkState false (elapsedOnly (js "0:05")) None None false
                     [js "/Users/me/Music/a.mp3"])
  /\ globalOperations
       (updateOperationState (js "download_1") p2
          (updateOperationState (js "download_1") p1 w))
     = globalOperations
         (updateOperationState (js "download_1") (spreadPartial p1 p2) w).
Proof.
  cbv zeta. split; [reflexivity|]. split; [vm_compute; reflexivity|].
  apply (sequential_updates_merge (js "download_1")
           (mkPartial None (Some (elapsedOnly (js "0:05"))) None None None None)
           (mkPartial (Some false) None None None None None)
           (mkWorld
              (<[js "download_1" :=
                   mkState true
                     (mkProgress (Some (mkNumber 500 1)) (Some (js "1.2MiB/s")) None None
                                 None None None None None)
                     None None false [js "/Users/me/Music/a.mp3"]]> ∅) ∅ [])).
  reflexivity.
Defined.

End StoreProps.

(** * Properties of the download engine *)

Module DownloaderProps.
Import Regex Security Downloader Terms RegexProps SecurityProps StoreProps.

(** C5: the pattern for the position in a playlist takes [video] or
    nothing between [Downloading] and the number, and not [item]: the
    line of the claim gives the empty update, and the same line with
    [video], or without a word, gives 5 of 67. *)
Theorem parseProgress_item_line_is_not_matched :
  parseProgress (js "[download] Downloading item 5 of 67") = noProgress
  /\ hasKeys (parseProgress (js "[download] Downloading item 5 of 67")) = false
  /\ parseProgress (js "[download] Downloading video 5 of 67")
     = mkProgress None None None None None (Some 5%Z) (Some 67%Z) None None
  /\ parseProgress (js "[download] Downloading 5 of 67")
     = mkProgress None None None None None (Some 5%Z) (Some 67%Z) None None.
Proof. vm_compute. repeat split; reflexivity. Qed.

Example parseProgress_download_line :
  parseProgress (js "[download]  45.5% of 5.67MiB at 1.23MiB/s ETA 00:03")
  = mkProgress (Some (mkNumber 455 1)) (Some (js "1.23MiB/s")) (Some (js "00:03")) None
               (Some (js "5.67MiB")) None None None None.
Proof. vm_compute. reflexivity. Qed.

Section WithPlatform.
Context {P : Platform}.

(** The check of [handleDownload] takes two hosts and no other. *)
Lemma isValidSoundCloudUrl_iff (url : jsstring) (u : URL) :
  URL_parse url = Some u ->
  (isValidSoundCloudUrl url = true
   <-> hostname u = js "soundcloud.com" \/ hostname u = js "www.soundcloud.com").
Proof.
  intros H. unfold isValidSoundCloudUrl. rewrite H, orb_true_iff, !str_eqb_eq.
  reflexivity.
Qed.

(** *** No update of a handler touches [isCompleted] *)

Lemma update_keeps_completed (operationId other : jsstring) (p : PartialState)
    (w : World) :
  keepsCompleted p ->
  isCompleted (stateOf (updateOperationState operationId p w) other)
  = isCompleted (stateOf w other).
Proof.
  intros Hp. destruct (decide (operationId = other)) as [->|Hne].
  - rewrite updateOperationState_stateOf. unfold spreadState. simpl.
    rewrite Hp. reflexivity.
  - rewrite updateOperationState_other by exact Hne. reflexivity.
Qed.

Lemma onTick_keeps (now : Z) (r : Running) (w : World) (other : jsstring) :
  run_operationId (fst (onTick now r w)) = run_operationId r
  /\ run_startTime (fst (onTick now r w)) = run_startTime r
  /\ isCompleted (stateOf (snd (onTick now r w)) other) = isCompleted (stateOf w other).
Proof.
  unfold onTick. simpl. repeat split. apply update_keeps_completed. reflexivity.
Qed.

Lemma onLine_keeps (line : jsstring) (st : Running * World) (other : jsstring) :
  run_operationId (fst (onLine st line)) = run_operationId (fst st)
  /\ run_startTime (fst (onLine st line)) = run_startTime (fst st)
  /\ isCompleted (stateOf (snd (onLine st line)) other)
     = isCompleted (stateOf (snd st) other).
Proof.
  destruct st as [r w]. unfold onLine.
  set (progressUpdate := parseProgress line).
  destruct (hasKeys progressUpdate);
    destruct (includes line (dq ++ js "title" ++ dq)
              && includes line (dq ++ js "uploader" ++ dq));
    destruct (exec jsonPattern line) as [jsonMatch|];
    try destruct (JSON_parse (groupText 0 jsonMatch)) as [info|];
    destruct (includes line (js "[download] 100%")
              || includes line (js "has already been downloaded"));
    destruct (orElse (exec alreadyPattern line) (fun _ => exec destinationPattern line))
      as [fileMatch|];
    cbn [fst snd withProgress withTrackInfo withFiles run_operationId run_startTime
         run_downloadedFiles];
    try match goal with
        | |- context [arrayIncludes ?l ?x] => destruct (arrayIncludes l x)
        end;
    cbn [negb fst snd withProgress withTrackInfo withFiles run_operationId
         run_startTime];
    repeat split;
    rewrite ?update_keeps_completed by reflexivity; reflexivity.
Qed.

Lemma onLines_keep (lines : list jsstring) (st : Running * World) (other : jsstring) :
  run_operationId (fst (fold_left onLine lines st)) = run_operationId (fst st)
  /\ run_startTime (fst (fold_left onLine lines st)) = run_startTime (fst st)
  /\ isCompleted (stateOf (snd (fold_left onLine lines st)) other)
     = isCompleted (stateOf (snd st) other).
Proof.
  revert st. induction lines as [|line lines IH]; intros st; simpl; [auto|].
  destruct (IH (onLine st line)) as (H1 & H2 & H3).
  destruct (onLine_keeps line st other) as (K1 & K2 & K3).
  rewrite H1, H2, H3, K1, K2, K3. auto.
Qed.

Lemma onStderr_keeps (errorText : jsstring) (r : Running) (w : World)
    (other : jsstring) :
  fst (onStderr errorText r w) = r
  /\ isCompleted (stateOf (snd (onStderr errorText r w)) other)
     = isCompleted (stateOf w other).
Proof.
  unfold onStderr.
  destruct (includes errorText (js "ERROR:") && negb (includes errorText (js "WARNING:")));
    cbn [fst snd]; split; try reflexivity.
  apply update_keeps_completed. reflexivity.
Qed.

Lemma handle_keeps (e : ProcessEvent) (st : Running * World) (other : jsstring) :
  run_operationId (fst (handle st e)) = run_operationId (fst st)
  /\ run_startTime (fst (handle st e)) = run_startTime (fst st)
  /\ isCompleted (stateOf (snd (handle st e)) other)
     = isCompleted (stateOf (snd st) other).
Proof.
  destruct e as [now|data|data]; unfold handle.
  - apply onTick_keeps.
  - unfold onStdout. apply (onLines_keep _ (fst st, snd st)).
  - destruct (onStderr_keeps data (fst st) (snd st) other) as [-> H]. auto.
Qed.

Lemma handleAll_keeps (events : list ProcessEvent) (st : Running * World)
    (other : jsstring) :
  run_operationId (fst (handleAll events st)) = run_operationId (fst st)
  /\ run_startTime (fst (handleAll events st)) = run_startTime (fst st)
  /\ isCompleted (stateOf (snd (handleAll events st)) other)
     = isCompleted (stateOf (snd st) other).
Proof.
  unfold handleAll. revert st.
  induction events as [|e events IH]; intros st; simpl; [auto|].
  destruct (IH (handle st e)) as (H1 & H2 & H3).
  destruct (handle_keeps e st other) as (K1 & K2 & K3).
  rewrite H1, H2, H3, K1, K2, K3. auto.
Qed.

(** *** The end of the process *)

Lemma stateOf_emit (e : list Effect) (w : World) (operationId : jsstring) :
  stateOf (emit e w) operationId = stateOf w operationId.
Proof. reflexivity. Qed.

Lemma openMusic_operations (settings : Settings) (files : list jsstring) (w : World) :
  globalOperations (openMusic settings files w) = globalOperations w.
Proof.
  unfold openMusic.
  destruct (negb (openInAppleMusic settings) || (length files =? 0)%nat); reflexivity.
Qed.

Lemma onClose_stored (code : option Z) (now : Z) (r : Running) (w : World) :
  globalOperations (onClose code now r w) !! run_operationId r
  = Some
      (if exitedWithZero code || (0 <? length (run_downloadedFiles r))%nat
       then mkState false
              (spreadProgress (run_currentProgress r)
                 (mkProgress (Some (mkNumber 100 0)) None None None None None None None
                    (Some (calculateElapsedTime (run_startTime r) now))))
              (trackInfo (stateOf w (run_operationId r)))
              (error (stateOf w (run_operationId r)))
              true (run_downloadedFiles r)
       else mkState false
              (progress (stateOf w (run_operationId r)))
              (trackInfo (stateOf w (run_operationId r)))
              (Some (js "Download failed with exit code " ++ codeText code))
              (isCompleted (stateOf w (run_operationId r)))
              (downloadedFiles (stateOf w (run_operationId r)))).
Proof.
  unfold onClose.
  destruct (exitedWithZero code || (0 <? length (run_downloadedFiles r))%nat).
  - cbv zeta.
    destruct (openInAppleMusic (run_settings r)
              && (0 <? length (run_downloadedFiles r))%nat);
      rewrite ?openMusic_operations; cbn [emit globalOperations];
      rewrite updateOperationState_lookup; reflexivity.
  - cbv zeta. cbn [emit globalOperations].
    rewrite updateOperationState_lookup. reflexivity.
Qed.

(** C3: when the process ends after any run of timer ticks and output,
    the stored state of the operation is inactive; with exit code 0, or
    with a file detected during the run, it is completed, with the
    elapsed time of the moment and the files of the run; otherwise it
    carries the error that names the exit code and [isCompleted] is
    false as before. *)
Theorem close_outcome (r : Running) (w : World) (events : list ProcessEvent)
    (code : option Z) (now : Z) :
  isCompleted (stateOf w (run_operationId r)) = false ->
  let running := handleAll events (r, w) in
  let w' := onClose code now (fst running) (snd running) in
  exists st,
    globalOperations w' !! run_operationId r = Some st
    /\ isActive st = false
    /\ if exitedWithZero code || (0 <? length (run_downloadedFiles (fst running)))%nat
       then isCompleted st = true
            /\ elapsedTime (progress st) = Some (calculateElapsedTime (run_startTime r) now)
            /\ downloadedFiles st = run_downloadedFiles (fst running)
       else isCompleted st = false
            /\ error st = Some (js "Download failed with exit code " ++ codeText code).
Proof.
  intros Hc running w'.
  destruct (handleAll_keeps events (r, w) (run_operationId r)) as (Hid & Hstart & Hkeep).
  fold running in Hid, Hstart, Hkeep. cbn [fst snd] in Hid, Hstart, Hkeep.
  pose proof (onClose_stored code now (fst running) (snd running)) as Hs.
  fold w' in Hs. rewrite Hid in Hs. eexists. split; [exact Hs|].
  destruct (exitedWithZero code || (0 <? length (run_downloadedFiles (fst running)))%nat).
  - cbn [isActive isCompleted progress downloadedFiles spreadProgress elapsedTime overOpt].
    rewrite Hstart. repeat split.
  - cbn [isActive isCompleted error]. rewrite Hkeep, Hc. repeat split.
Qed.

(** *** The start of a download *)

Lemma filter_called (f : Effect -> bool) (st : OperationState) (l : list callback) :
  (forall cb, f (Called cb st) = false) ->
  List.filter f (List.map (fun cb => Called cb st) l) = [].
Proof.
  intros H. induction l as [|cb l IH]; simpl; [reflexivity|]. rewrite H. exact IH.
Qed.

Lemma spawned_emit (e : list Effect) (w : World) :
  spawned (emit e w) = spawned w ++ List.filter isSpawn e.
Proof. unfold spawned. simpl. apply List.filter_app. Qed.

Lemma failuresShown_emit (e : list Effect) (w : World) :
  failuresShown (emit e w) = failuresShown w ++ List.filter isFailureToast e.
Proof. unfold failuresShown. simpl. apply List.filter_app. Qed.

Lemma spawned_update (operationId : jsstring) (p : PartialState) (w : World) :
  spawned (updateOperationState operationId p w) = spawned w.
Proof.
  unfold spawned. rewrite updateOperationState_effects, List.filter_app.
  rewrite filter_called by reflexivity. apply app_nil_r.
Qed.

Lemma failuresShown_update (operationId : jsstring) (p : PartialState) (w : World) :
  failuresShown (updateOperationState operationId p w) = failuresShown w.
Proof.
  unfold failuresShown. rewrite updateOperationState_effects, List.filter_app.
  rewrite filter_called by reflexivity. apply app_nil_r.
Qed.

(** Every quality preset has a format selector with [<] in it, which is
    one of the dangerous patterns. *)
Lemma quality_args_rejected (q : Quality) :
  existsb rejects (QUALITY_PRESETS_args q) = true.
Proof. destruct q; vm_compute; reflexivity. Qed.

Lemma downloadArgs_rejected (settings : Settings) (sanitizedUrl safePath : jsstring)
    (isPlaylist : bool) :
  existsb rejects (downloadArgs settings sanitizedUrl safePath isPlaylist) = true.
Proof.
  unfold downloadArgs. rewrite !existsb_app, quality_args_rejected.
  rewrite orb_true_l, !orb_true_r. reflexivity.
Qed.

(** So the final validation of [executeBackgroundDownload] always
    throws, and the [catch] block records the error: no process is
    started. *)
Lemma executeBackgroundDownload_rejected (settings : Settings) (now : Z)
    (operationId sanitizedUrl safePath : jsstring) (isPlaylist : bool) (w : World) :
  let message :=
    invalidArgsMessage (downloadArgs settings sanitizedUrl safePath isPlaylist) in
  executeBackgroundDownload settings now operationId sanitizedUrl safePath isPlaylist w
  = (inr None,
     emit [ShowToast Failure (js "Download Error") message]
       (updateOperationState operationId (failUpdate message)
          (updateOperationState operationId startUpdate w))).
Proof.
  unfold executeBackgroundDownload, tryCatch, bind, act, perform, throw, ret.
  cbv zeta. rewrite validateCommandArgs_spec, downloadArgs_rejected.
  reflexivity.
Qed.

Lemma refused_emit (operationId : jsstring) (e : list Effect) (w w' : World) :
  List.filter isSpawn e = [] ->
  List.filter isFailureToast e = [] ->
  refused operationId w w' -> refused operationId w (emit e w').
Proof.
  intros He Hf (Hs & Hl & Hst). unfold refused.
  rewrite spawned_emit, failuresShown_emit, He, Hf, !app_nil_r. auto.
Qed.

Lemma refused_toast (operationId title message : jsstring) (w w' : World) :
  spawned w' = spawned w -> failuresShown w' = failuresShown w ->
  (globalOperations w' = globalOperations w
   \/ isActive (stateOf w' operationId) = false
      /\ isCompleted (stateOf w' operationId) = isCompleted (stateOf w operationId)
      /\ exists m, error (stateOf w' operationId) = Some m) ->
  refused operationId w (emit [ShowToast Failure title message] w').
Proof.
  intros Hs Hf Hst. unfold refused.
  rewrite spawned_emit, failuresShown_emit, Hs, Hf, length_app. cbn.
  rewrite app_nil_r. split; [reflexivity|]. split; [lia|]. exact Hst.
Qed.

Lemma handleDownload_never_spawns (url : jsstring) (settings : Settings) (now : Z)
    (newOperationId : jsstring) (w : World) :
  exists w',
    handleDownload url settings now newOperationId w = (inr None, w')
    /\ refused newOperationId w w'.
Proof.
  unfold handleDownload.
  destruct (length (trim url) =? 0)%nat.
  { eexists. split; [reflexivity|]. apply refused_toast; auto. }
  destruct (negb (isValidSoundCloudUrl url)).
  { eexists. split; [reflexivity|]. apply refused_toast; auto. }
  unfold tryFinally, tryCatch, bind, perform, act, ret, throw. cbn beta iota.
  remember (optimizePerformance (emit [SetIsLoading true] w)) as w1 eqn:Ew1.
  assert (Hs1 : spawned w1 = spawned w).
  { rewrite Ew1. unfold optimizePerformance. rewrite !spawned_emit. cbn.
    rewrite !app_nil_r. reflexivity. }
  assert (Hf1 : failuresShown w1 = failuresShown w).
  { rewrite Ew1. unfold optimizePerformance. rewrite !failuresShown_emit. cbn.
    rewrite !app_nil_r. reflexivity. }
  assert (Hg1 : globalOperations w1 = globalOperations w) by (rewrite Ew1; reflexivity).
  assert (Hst1 : forall i, stateOf w1 i = stateOf w i) by (rewrite Ew1; reflexivity).
  clear Ew1.
  assert (Hthrow : forall message : jsstring,
    refused newOperationId w
      (emit [SetIsLoading false]
         (emit [ShowToast Failure (js "Download Error") message] w1))).
  { intros message. apply refused_emit; [reflexivity..|]. apply refused_toast; auto. }
  destruct (Security.isValid (validateCommandArgs [url]));
    [|eexists; split; [reflexivity|apply Hthrow]].
  destruct (sanitizedArgs (validateCommandArgs [url])) as [[|[|c u] rest]|];
    try (eexists; split; [reflexivity|apply Hthrow]).
  destruct (Security.isValid (validateCommandArgs [downloadPath settings]));
    [|eexists; split; [reflexivity|apply Hthrow]].
  destruct (sanitizedArgs (validateCommandArgs [downloadPath settings]))
    as [[|[|c' p] rest']|];
    try (eexists; split; [reflexivity|apply Hthrow]).
  clear Hthrow. rewrite executeBackgroundDownload_rejected.
  eexists. split; [reflexivity|].
  apply refused_emit; [reflexivity..|]. apply refused_emit; [reflexivity..|].
  apply refused_toast.
  - rewrite !spawned_update, !spawned_emit, Hs1. cbn. rewrite !app_nil_r. reflexivity.
  - rewrite !failuresShown_update, !failuresShown_emit, Hf1. cbn.
    rewrite !app_nil_r. reflexivity.
  - right. rewrite !updateOperationState_stateOf, !stateOf_emit, Hst1.
    cbn [spreadState failUpdate startUpdate setIsActive setIsCompleted setError over
         isActive isCompleted error].
    repeat split. eexists. reflexivity.
Qed.

(** C1: when the download path of the settings resolves outside the
    home directory and the allow-listed directories, [handleDownload]
    starts no process, now or from a timer, and reports a failure: it
    shows one failure toast, and where an operation was created its
    stored state is inactive with an error.  The refusal comes from the
    final validation of the arguments, which every request meets. *)
Theorem unsafe_path_starts_no_process (url : jsstring) (settings : Settings) (now : Z)
    (newOperationId : jsstring) (w : World) :
  outsideSafeDirectories (downloadPath settings) = true ->
  exists w',
    handleDownload url settings now newOperationId w = (inr None, w')
    /\ spawned w' = spawned w
    /\ length (failuresShown w') = S (length (failuresShown w))
    /\ (globalOperations w' = globalOperations w
        \/ isActive (stateOf w' newOperationId) = false
           /\ isCompleted (stateOf w' newOperationId)
              = isCompleted (stateOf w newOperationId)
           /\ exists message, error (stateOf w' newOperationId) = Some message).
Proof. intros _. apply handleDownload_never_spawns. Qed.

(** C10: when [validateCommandArgs] answers [isValid = true], the
    sanitized list is as long as the input and in its order: the
    argument at each index is the input at that index with the control
    characters U+0000..U+001F and U+007F..U+009F removed, and then the
    white space around it trimmed, so that it has no control character
    left.  That list, whole and in that order, is the vector that the
    final validation of [executeBackgroundDownload] hands to [spawn]:
    the function is its first update, then the validation and the
    [spawn] on the array that it built, then the timer. *)
Theorem sanitizedArgs_same_length_and_order (args : list jsstring) :
  Security.isValid (validateCommandArgs args) = true ->
  exists sane : list jsstring,
    sanitizedArgs (validateCommandArgs args) = Some sane
    /\ length sane = length args
    /\ (forall (i : nat) (arg : jsstring),
          args !! i = Some arg ->
          exists stripped sanitized : jsstring,
            sane !! i = Some sanitized
            /\ withoutControl arg stripped
            /\ withoutSurroundingSpace stripped sanitized
            /\ (forall c, In c sanitized -> ~ controlCharacter c))
    /\ (forall (ytDlpPath : jsstring) (w : World),
          spawnValidated ytDlpPath args w = (inr tt, emit [Spawn ytDlpPath sane] w))
    /\ (forall (settings : Settings) (now : Z)
               (operationId sanitizedUrl safePath : jsstring) (isPlaylist : bool)
               (w : World),
          executeBackgroundDownload settings now operationId sanitizedUrl safePath
            isPlaylist w
          = tryCatch
              (act (updateOperationState operationId startUpdate) ;;;
               spawnValidated getYtDlpPath
                 (downloadArgs settings sanitizedUrl safePath isPlaylist) ;;;
               perform (SetInterval (js "timeInterval") 1000) ;;;
               ret (Some (mkRunning operationId isPlaylist settings now None []
                                    (elapsedOnly (js "0:00")))))
              (fun errorMessage =>
                 act (updateOperationState operationId (failUpdate errorMessage)) ;;;
                 perform (ShowToast Failure (js "Download Error") errorMessage) ;;;
                 ret None) w).
Proof.
  intros Hv. pose proof (validateCommandArgs_spec args) as Hspec.
  destruct (existsb rejects args) eqn:E.
  { rewrite Hspec in Hv. discriminate. }
  exists (List.map sanitizeArg args).
  split; [rewrite Hspec; reflexivity|].
  split; [apply length_map|]. split; [|split].
  - intros i arg Hi. exists (stripControl arg), (sanitizeArg arg).
    split.
    { change (List.map sanitizeArg args) with (sanitizeArg <$> args).
      rewrite list_lookup_fmap, Hi. reflexivity. }
    split; [apply stripControl_withoutControl|].
    split; [apply trim_withoutSurroundingSpace|].
    intros c Hc. apply (withoutControl_clean arg (stripControl arg)).
    + apply stripControl_withoutControl.
    + destruct (trim_withoutSurroundingSpace (stripControl arg))
        as (lead & trail & Hs & _).
      rewrite Hs. apply in_or_app. right. apply in_or_app. left. exact Hc.
  - intros ytDlpPath w. unfold spawnValidated. rewrite Hspec. reflexivity.
  - intros settings now operationId sanitizedUrl safePath isPlaylist w.
    unfold executeBackgroundDownload, spawnValidated, tryCatch, bind, startUpdate,
      failUpdate.
    destruct (act _ w) as [[e|[]] w1]; [reflexivity|].
    destruct (validateCommandArgs (downloadArgs settings sanitizedUrl safePath isPlaylist))
      as [[|] errs [sane|]]; reflexivity.
Qed.

End WithPlatform.

Lemma close_outcome_witness :
  let r := mkRunning (js "download_1") true
             (mkSettings high (js "/Users/me/Music") true true true)
             1000 None [] (elapsedOnly (js "0:00")) in
  let w := @updateOperationState (js "download_1") startUpdate emptyWorld in
  let events := [Tick 2000; StderrData (js "ERROR: unable to download")] in
  exists st,
    globalOperations (@onClose Sample.platform (Some 1%Z) 63000
                        (fst (@handleAll Sample.platform events (r, w)))
                        (snd (@handleAll Sample.platform events (r, w))))
      !! js "download_1" = Some st
    /\ isActive st = false
    /\ isCompleted st = false
    /\ error st = Some (js "Download failed with exit code 1").
Proof.
  destruct (@close_outcome Sample.platform
              (mkRunning (js "download_1") true
                 (mkSettings high (js "/Users/me/Music") true true true)
                 1000 None [] (elapsedOnly (js "0:00")))
              (@updateOperationState (js "download_1") startUpdate emptyWorld)
              [Tick 2000; StderrData (js "ERROR: unable to download")]
              (Some 1%Z) 63000) as (st & Hst & Ha & Hrest).
  - vm_compute. reflexivity.
  - exists st. split; [exact Hst|]. split; [exact Ha|]. exact Hrest.
Defined.

Lemma unsafe_path_starts_no_process_witness :
  let settings := mkSettings high (js "/etc/cron.d") true true true in
  @outsideSafeDirectories Sample.platform (js "/etc/cron.d") = true
  /\ exists w',
       @handleDownload Sample.platform (js "https://soundcloud.com/artist/track")
         settings 1000 (js "download_1") emptyWorld = (inr None, w')
       /\ spawned w' = [].
Proof.
  split; [vm_compute; reflexivity|].
  destruct (@unsafe_path_starts_no_process Sample.platform
              (js "https://soundcloud.com/artist/track")
              (mkSettings high (js "/etc/cron.d") true true true)
              1000 (js "download_1") emptyWorld) as (w' & Hr & Hs & _).
  - vm_compute. reflexivity.
  - exists w'. split; [exact Hr | exact Hs].
Defined.

(** Three arguments, the second with a space, U+0000, a tab, U+0007,
    U+0085 and U+009F around and between its two letters. *)
Lemma sanitizedArgs_same_length_and_order_witness :
  let args := [js "--newline"; [32; 0; 9; 97; 7; 98; 133; 32; 159]%N; js ""] in
  Security.isValid (validateCommandArgs args) = true
  /\ sanitizedArgs (validateCommandArgs args) = Some [js "--newline"; js "ab"; js ""]
  /\ exists sane : list jsstring,
       sanitizedArgs (validateCommandArgs args) = Some sane
       /\ length sane = length args
       /\ spawnValidated (js "/usr/bin/yt-dlp") args emptyWorld
          = (inr tt, emit [Spawn (js "/usr/bin/yt-dlp") sane] emptyWorld).
Proof.
  cbv zeta. split; [vm_compute; reflexivity|]. split; [vm_compute; reflexivity|].
  destruct (@sanitizedArgs_same_length_and_order Sample.platform
              [js "--newline"; [32; 0; 9; 97; 7; 98; 133; 32; 159]%N; js ""])
    as (sane & Hs & Hl & _ & Hspawn & _).
  - vm_compute. reflexivity.
  - exists sane. split; [exact Hs|]. split; [exact Hl|]. apply Hspawn.
Defined.

(** A playlist of which two items fail on standard error and three
    files are announced on standard output, ending with exit code 0:
    the operation is completed, with the three files and the text of
    the last error. *)
Example partial_success :
  let r := mkRunning (js "download_1") true
             (mkSettings high (js "/Users/me/Music") false true true)
             1000 None [] (elapsedOnly (js "0:00")) in
  let w := updateOperationState (js "download_1") startUpdate emptyWorld in
  let events :=
    [ StdoutData (js "[download] /Users/me/Music/a.mp3 has already been downloaded");
      StderrData (js "ERROR: item 2 is not available");
      StdoutData (js "[download] /Users/me/Music/c.mp3 has already been downloaded");
      StderrData (js "ERROR: item 4 is not available");
      StdoutData (js "[download] /Users/me/Music/e.mp3 has already been downloaded") ] in
  let running := @handleAll Sample.platform events (r, w) in
  let final := stateOf (@onClose Sample.platform (Some 0%Z) 63000 (fst running)
                          (snd running)) (js "download_1") in
  isActive final = false
  /\ isCompleted final = true
  /\ error final = Some (js "Download error: ERROR: item 4 is not available...")
  /\ length (downloadedFiles final) = 3%nat.
Proof. vm_compute. repeat split; reflexivity. Qed.

(** What the start leaves in the store for a path outside the home
    directory: the operation is there, inactive, with the error of the
    final validation. *)
Example unsafe_path_recorded_error :
  let settings := mkSettings high (js "/etc/cron.d") true true true in
  let result :=
    @handleDownload Sample.platform (js "https://soundcloud.com/artist/track") settings
      1000 (js "download_1") emptyWorld in
  stateOf (snd result) (js "download_1")
  = mkState false (elapsedOnly (js "0:00")) None
      (Some (js "Invalid command arguments: Potentially dangerous pattern in argument: best[abr<=192]/best"))
      false [].
Proof. vm_compute. reflexivity. Qed.

(** The same for a path inside the home directory: the path plays no
    part in the refusal. *)
Example safe_path_recorded_error :
  let settings := mkSettings high (js "/Users/me/Music") true true true in
  let result :=
    @handleDownload Sample.platform (js "https://soundcloud.com/artist/track") settings
      1000 (js "download_1") emptyWorld in
  @isSafePath Sample.platform (js "/Users/me/Music") = true
  /\ spawned (snd result) = []
  /\ error (stateOf (snd result) (js "download_1"))
     = Some (js "Invalid command arguments: Potentially dangerous pattern in argument: best[abr<=192]/best").
Proof. vm_compute. repeat split; reflexivity. Qed.

(** C7: the check that [handleDownload] makes takes [soundcloud.com]
    and [www.soundcloud.com] only.  The mobile and the short-link host,
    which the schema of [security.ts] takes, are turned down at
    submission with the toast for an invalid URL. *)
Theorem submission_rejects_mobile_and_short_hosts :
  let mobile := js "https://m.soundcloud.com/artist/track" in
  let short := js "https://on.soundcloud.com/AbC12" in
  let settings := mkSettings high (js "/Users/me/Music") true true true in
  @isSoundCloudHost Sample.platform mobile = true
  /\ @isValidSoundCloudUrl Sample.platform mobile = false
  /\ @isSoundCloudHost Sample.platform short = true
  /\ @isValidSoundCloudUrl Sample.platform short = false
  /\ effects (snd (@handleDownload Sample.platform mobile settings 1000
                     (js "download_1") emptyWorld))
     = [ShowToast Failure (js "Invalid URL") (js "Please enter a valid SoundCloud URL")].
Proof. vm_compute. repeat split; reflexivity. Qed.

End DownloaderProps.

(** * More properties of [src/utils/security.ts] *)

Module SecurityExtra.
Import Regex Security SecurityRest Terms MoreTerms RegexProps SecurityProps.

(** *** [sanitizeUrl] *)

Lemma filter_length_le {A} (f : A -> bool) (l : list A) :
  (length (List.filter f l) <= length l)%nat.
Proof. induction l as [|x l IH]; simpl; [lia|]. destruct (f x); simpl; lia. Qed.

Lemma filter_all {A} (f : A -> bool) (l : list A) :
  forallb f l = true -> List.filter f l = l.
Proof.
  induction l as [|x l IH]; simpl; [reflexivity|]. intros H.
  apply andb_true_iff in H as [Hx Hl]. rewrite Hx, IH by exact Hl. reflexivity.
Qed.

Lemma forallb_filter {A} (f : A -> bool) (l : list A) :
  forallb f (List.filter f l) = true.
Proof.
  induction l as [|x l IH]; simpl; [reflexivity|].
  destruct (f x) eqn:E; simpl; [rewrite E|]; exact IH.
Qed.

(** X1: the output of [sanitizeUrl] has none of the characters
    [; & | ` $ ( ) { } [ ] \], it is no longer than the input, and a
    string without these characters comes out as it went in. *)
Theorem sanitizeUrl_strips_exactly_the_metacharacters (url : jsstring) :
  forallb (fun c => negb (isShellMeta c)) (sanitizeUrl url) = true
  /\ (length (sanitizeUrl url) <= length url)%nat
  /\ (sanitizeUrl url = url <-> forallb (fun c => negb (isShellMeta c)) url = true).
Proof.
  unfold sanitizeUrl. split; [apply forallb_filter|]. split; [apply filter_length_le|].
  split.
  - intros H. rewrite <- H. apply forallb_filter.
  - apply filter_all.
Qed.

(** *** [escapeShellArg] *)

Lemma shellRead_single (arg : jsstring) :
  shellRead SingleQuoted (escapeQuotes arg ++ js "'") = Some arg.
Proof.
  induction arg as [|c arg IH]; [reflexivity|].
  unfold escapeQuotes in *. cbn [flat_map].
  destruct (char_eqb c (ch "'")) eqn:E.
  - apply N.eqb_eq in E. subst c. rewrite <- app_assoc.
    change (shellRead SingleQuoted (flat_map
              (fun c => if char_eqb c (ch "'") then quoteEscape else [c]) arg ++ js "'")
            = Some arg) in IH.
    cbn. cbn in IH. rewrite IH. reflexivity.
  - rewrite <- app_assoc. cbn [app shellRead]. rewrite E, IH. reflexivity.
Qed.

(** X2: a POSIX shell reads the word that [escapeShellArg] makes back
    as the argument, whatever characters it has; and the word starts
    and ends with a single quote. *)
Theorem escapeShellArg_read_back (arg : jsstring) :
  shellRead Unquoted (escapeShellArg arg) = Some arg
  /\ (exists body, escapeShellArg arg = ch "'" :: body ++ [ch "'"]).
Proof.
  split.
  - unfold escapeShellArg. change (js "'" ++ ?x) with (ch "'" :: x).
    cbn [shellRead]. rewrite N.eqb_refl. fold (ch "'"). apply shellRead_single.
  - exists (escapeQuotes arg). reflexivity.
Qed.

(** *** What [validateCommandArgs] hands back *)

Lemma trimStart_app (a b : jsstring) :
  trimStart (a ++ b) = if forallb isWhiteSpace a then trimStart b else trimStart a ++ b.
Proof.
  induction a as [|x a IH]; simpl; [reflexivity|].
  destruct (isWhiteSpace x); simpl; [exact IH|reflexivity].
Qed.

Lemma trimStart_In (s : jsstring) (c : char) : In c (trimStart s) -> In c s.
Proof.
  induction s as [|x s IH]; simpl; [auto|].
  destruct (isWhiteSpace x); [right; auto|auto].
Qed.

Lemma trimStart_head (s : jsstring) :
  match trimStart s with
  | [] => True
  | x :: _ => isWhiteSpace x = false
  end.
Proof.
  induction s as [|x s IH]; simpl; [exact I|].
  destruct (isWhiteSpace x) eqn:E; [exact IH|exact E].
Qed.

Lemma trimStart_fixed (s : jsstring) :
  match s with [] => True | x :: _ => isWhiteSpace x = false end -> trimStart s = s.
Proof. destruct s as [|x s]; simpl; [reflexivity|]. intros ->. reflexivity. Qed.

Lemma trim_In (s : jsstring) (c : char) : In c (trim s) -> In c s.
Proof.
  unfold trim, trimEnd. intros H. apply in_rev in H. apply trimStart_In in H.
  apply in_rev in H. apply trimStart_In in H. exact H.
Qed.

(** What [trim] gives is empty, or starts and ends with a character that
    is not white space. *)
Lemma trim_ends (s : jsstring) :
  match trim s with [] => True | x :: _ => isWhiteSpace x = false end
  /\ match rev (trim s) with [] => True | x :: _ => isWhiteSpace x = false end.
Proof.
  unfold trim, trimEnd. rewrite rev_involutive.
  pose proof (trimStart_head s) as Hh.
  destruct (trimStart s) as [|x u] eqn:Eu; [simpl; auto|].
  split; [|apply trimStart_head].
  cbn [rev]. rewrite trimStart_app. cbn [trimStart]. rewrite Hh.
  destruct (forallb isWhiteSpace (rev u)).
  - cbn. exact Hh.
  - rewrite rev_app_distr. cbn. exact Hh.
Qed.

Lemma trim_idempotent (s : jsstring) : trim (trim s) = trim s.
Proof.
  destruct (trim_ends s) as [Hh Hl]. unfold trim at 1, trimEnd.
  rewrite (trimStart_fixed (trim s) Hh), (trimStart_fixed (rev (trim s)) Hl).
  apply rev_involutive.
Qed.

Lemma last_rev_head {A} (l : list A) (x d : A) (t : list A) :
  rev l = x :: t -> List.last l d = x.
Proof.
  intros H. rewrite <- (rev_involutive l), H. cbn [rev]. apply last_last.
Qed.

Lemma trim_trimmed (s : jsstring) : trimmed (trim s) = true.
Proof.
  destruct (trim_ends s) as [Hh Hl]. unfold trimmed.
  destruct (trim s) as [|x t] eqn:E; [reflexivity|].
  rewrite Hh. destruct (rev (x :: t)) as [|y r] eqn:Er.
  - apply (f_equal (@length _)) in Er. rewrite length_rev in Er. discriminate.
  - rewrite (last_rev_head (x :: t) y x r Er), Hl. reflexivity.
Qed.

(** X3: what [validateCommandArgs] pushes for an argument has no
    control character and no white space at either end, and sanitizing
    it again changes nothing. *)
Theorem sanitizeArg_is_clean_and_stable (stringArg : jsstring) :
  forallb (fun c => negb (isControl c)) (sanitizeArg stringArg) = true
  /\ trimmed (sanitizeArg stringArg) = true
  /\ sanitizeArg (sanitizeArg stringArg) = sanitizeArg stringArg.
Proof.
  assert (Hc : forallb (fun c => negb (isControl c)) (sanitizeArg stringArg) = true).
  { apply forallb_forall. intros c Hin. unfold sanitizeArg in Hin.
    apply trim_In in Hin. unfold stripControl in Hin. apply filter_In in Hin.
    tauto. }
  split; [exact Hc|]. split; [apply trim_trimmed|].
  unfold sanitizeArg at 1. unfold stripControl. rewrite (filter_all _ _ Hc).
  unfold sanitizeArg. apply trim_idempotent.
Qed.

(** *** URL types and validation *)

Section WithPlatform.
Context {P : Platform}.

Lemma detect_valid_type (url : jsstring) :
  snd (detectSoundCloudUrlType url) = true
  <-> In (fst (detectSoundCloudUrlType url)) downloadable.
Proof.
  unfold detectSoundCloudUrlType, downloadable.
  destruct (URL_parse url) as [u|];
    [|simpl; split; [discriminate|intros [H|[H|[H|[H|[]]]]]; discriminate]].
  repeat match goal with
         | |- context [if ?b then _ else _] => destruct b
         end; simpl; split; intros H; try discriminate; try reflexivity; try tauto;
    repeat (destruct H as [H|H]; try discriminate); contradiction.
Qed.

(** X4: [detectSoundCloudUrlType] marks a URL as valid exactly when its
    type is one of shortened, playlist, album and track; the type is
    [invalid] exactly when the URL does not parse; and a track has at
    least two path segments. *)
Theorem detectSoundCloudUrlType_valid_types (url : jsstring) :
  (snd (detectSoundCloudUrlType url) = true
   <-> In (fst (detectSoundCloudUrlType url)) downloadable)
  /\ (fst (detectSoundCloudUrlType url) = invalid <-> URL_parse url = None)
  /\ (fst (detectSoundCloudUrlType url) = track ->
      exists u, URL_parse url = Some u
                /\ (2 <= length (pathSegmentsOf (pathname u)))%nat).
Proof.
  split; [apply detect_valid_type|]. unfold detectSoundCloudUrlType.
  destruct (URL_parse url) as [u|]; [|split; [tauto|discriminate]].
  split.
  - split; [|discriminate].
    repeat match goal with
           | |- context [if ?b then _ else _] => destruct b
           end; simpl; discriminate.
  - intros H. exists u. split; [reflexivity|].
    destruct (2 <=? length (pathSegmentsOf (pathname u)))%nat eqn:E.
    + apply Nat.leb_le. exact E.
    + exfalso. revert H.
      repeat match goal with
             | |- context [if ?b then _ else _] => destruct b
             end; simpl; discriminate.
Qed.

(** X5: a result of [validateSoundCloudUrl] with [isValid] set has a
    type among shortened, playlist, album and track, no error, and a
    sanitized URL without shell metacharacters, and its host is on the
    allow list; a result without it has an error message and no
    sanitized URL. *)
Theorem validateSoundCloudUrl_result (url : jsstring) :
  let v := validateSoundCloudUrl url in
  if urlIsValid v
  then isSoundCloudHost url = true
       /\ urlError v = None
       /\ (exists t, urlType v = Some t /\ In t downloadable)
       /\ (exists s, sanitizedUrl v = Some s
                     /\ forallb (fun c => negb (isShellMeta c)) s = true)
  else sanitizedUrl v = None /\ exists message, urlError v = Some message.
Proof.
  cbv zeta. unfold validateSoundCloudUrl, SoundCloudUrlSchema.
  destruct (URL_parse url) as [u|] eqn:Ep.
  - destruct (isSoundCloudHost url) eqn:Eh; cbn [app].
    + pose proof (detect_valid_type url) as Hd.
      destruct (detectSoundCloudUrlType url) as [t valid]. cbn [fst snd] in Hd.
      destruct valid; cbn.
      * repeat split; eauto.
        -- exists t. split; [reflexivity|]. apply Hd. reflexivity.
        -- eexists. split; [reflexivity|]. apply forallb_filter.
      * split; eauto.
    + cbn. split; eauto.
  - assert (Eh : isSoundCloudHost url = false) by (unfold isSoundCloudHost; rewrite Ep; reflexivity).
    rewrite Eh. cbn. split; eauto.
Qed.

(** X6: [validateSoundCloudUrl] turns down a string that does not parse
    with "Invalid URL format", and a URL on a host off the allow list
    with "Must be a valid SoundCloud URL"; in both cases before the
    type is looked at.  On an allow-listed host the result has a type. *)
Theorem validateSoundCloudUrl_schema_errors (url : jsstring) :
  match URL_parse url with
  | None =>
      validateSoundCloudUrl url
      = mkUrlValidation false (Some (js "Invalid URL format")) None None
  | Some u =>
      if arrayIncludes validDomains (hostname u)
      then urlType (validateSoundCloudUrl url)
           = Some (fst (detectSoundCloudUrlType url))
      else validateSoundCloudUrl url
           = mkUrlValidation false (Some (js "Must be a valid SoundCloud URL")) None None
  end.
Proof.
  unfold validateSoundCloudUrl, SoundCloudUrlSchema, isSoundCloudHost.
  destruct (URL_parse url) as [u|] eqn:Ep; [|reflexivity].
  destruct (arrayIncludes validDomains (hostname u)); [|reflexivity].
  cbn [app]. destruct (detectSoundCloudUrlType url) as [t valid].
  destruct valid; reflexivity.
Qed.

(** [validateAndSanitizePath] gives a path only for a non-empty
    input whose resolved form has one of the safe directories, and the
    home directory, as a prefix; what it gives is the resolved form. *)
Lemma validateAndSanitizePath_gives_resolved (inputPath resolved : jsstring) :
  validateAndSanitizePath inputPath = inr resolved
  <-> inputPath <> []
      /\ isSafePath inputPath = true
      /\ startsWith (path_resolve inputPath) homedir = true
      /\ resolved = path_resolve inputPath.
Proof.
  unfold validateAndSanitizePath, OutputPathSchema.
  destruct inputPath as [|c p].
  - cbn. destruct (isSafePath []); cbn; split; try discriminate; intros [H _]; contradiction.
  - cbn [length Nat.leb app].
    destruct (isSafePath (c :: p)); cbn [app].
    + destruct (startsWith (path_resolve (c :: p)) homedir); cbn [negb]; split.
      * intros H. injection H as <-. repeat split. discriminate.
      * intros (_ & _ & _ & ->). reflexivity.
      * discriminate.
      * intros (_ & _ & H & _). discriminate.
    + split; [discriminate|]. intros (_ & H & _). discriminate.
Qed.

End WithPlatform.

(** *** The query parameters that [normalizeSoundCloudUrl] keeps *)

Lemma assoc_filter_other (key other : jsstring) (l : list (jsstring * jsstring)) :
  other <> key ->
  assoc other (List.filter (fun kv => negb (str_eqb (fst kv) key)) l) = assoc other l.
Proof.
  intros Hne. induction l as [|[k v] l IH]; [reflexivity|]. cbn [List.filter fst].
  destruct (str_eqb k key) eqn:E; cbn [negb assoc].
  - apply str_eqb_eq in E. subst k. rewrite (str_eqb_neq key other) by congruence.
    exact IH.
  - destruct (str_eqb k other); [reflexivity|exact IH].
Qed.

Lemma assoc_paramsSet (key value other : jsstring) (l : list (jsstring * jsstring)) :
  assoc other (paramsSet key value l)
  = if str_eqb key other then Some value else assoc other l.
Proof.
  induction l as [|[k v] l IH]; cbn [paramsSet assoc].
  - destruct (str_eqb key other); reflexivity.
  - destruct (str_eqb k key) eqn:E.
    + apply str_eqb_eq in E. subst k. cbn [assoc].
      destruct (str_eqb key other) eqn:E2; [reflexivity|].
      apply assoc_filter_other. intros ->.
      rewrite (proj2 (str_eqb_eq key key) eq_refl) in E2. discriminate.
    + cbn [assoc]. destruct (str_eqb k other) eqn:E2.
      * apply str_eqb_eq in E2. subst k.
        destruct (str_eqb key other) eqn:E3; [|reflexivity].
        apply str_eqb_eq in E3. subst key.
        rewrite (proj2 (str_eqb_eq other other) eq_refl) in E. discriminate.
      * exact IH.
Qed.

Lemma keys_filter_NoDup (key : jsstring) (l : list (jsstring * jsstring)) :
  NoDup (List.map fst l) ->
  NoDup (List.map fst (List.filter (fun kv => negb (str_eqb (fst kv) key)) l))
  /\ forall k, In k (List.map fst (List.filter (fun kv => negb (str_eqb (fst kv) key)) l))
               -> In k (List.map fst l) /\ k <> key.
Proof.
  induction l as [|[k v] l IH]; cbn [List.map List.filter fst]; intros Hnd.
  - split; [constructor|]. intros k [].
  - apply NoDup_cons in Hnd as [Hk Hnd]. destruct (IH Hnd) as [IH1 IH2].
    destruct (str_eqb k key) eqn:E; cbn [negb List.map fst].
    + split; [exact IH1|]. intros k' Hin. destruct (IH2 k' Hin). split; [right|]; auto.
    + split.
      * apply NoDup_cons. split; [|exact IH1]. intros Hin.
        apply list_elem_of_In in Hin. destruct (IH2 k Hin) as [Hin' _].
        apply Hk. apply list_elem_of_In. exact Hin'.
      * intros k' [<-|Hin].
        -- split; [left; reflexivity|]. intros ->.
           rewrite (proj2 (str_eqb_eq key key) eq_refl) in E. discriminate.
        -- destruct (IH2 k' Hin). split; [right|]; auto.
Qed.

Lemma paramsSet_NoDup (key value : jsstring) (l : list (jsstring * jsstring)) :
  NoDup (List.map fst l) ->
  NoDup (List.map fst (paramsSet key value l))
  /\ forall k, In k (List.map fst (paramsSet key value l))
               -> k = key \/ In k (List.map fst l).
Proof.
  induction l as [|[k v] l IH]; cbn [paramsSet List.map fst]; intros Hnd.
  - split; [apply NoDup_cons; split; [apply not_elem_of_nil|constructor]|].
    intros k [<-|[]]. left; reflexivity.
  - apply NoDup_cons in Hnd as [Hk Hnd]. destruct (str_eqb k key) eqn:E.
    + apply str_eqb_eq in E. subst k. cbn [List.map fst].
      destruct (keys_filter_NoDup key l Hnd) as [F1 F2]. split.
      * apply NoDup_cons. split; [|exact F1]. intros Hin. apply list_elem_of_In in Hin.
        destruct (F2 key Hin) as [_ Hne]. congruence.
      * intros k' [<-|Hin]; [left; reflexivity|].
        destruct (F2 k' Hin) as [Hin' _]. right. right. exact Hin'.
    + destruct (IH Hnd) as [IH1 IH2]. cbn [List.map fst]. split.
      * apply NoDup_cons. split; [|exact IH1]. intros Hin. apply list_elem_of_In in Hin.
        destruct (IH2 k Hin) as [->|Hin'].
        -- rewrite (proj2 (str_eqb_eq key key) eq_refl) in E. discriminate.
        -- apply Hk. apply list_elem_of_In. exact Hin'.
      * intros k' [<-|Hin]; [right; left; reflexivity|].
        destruct (IH2 k' Hin) as [->|Hin']; [left; reflexivity|right; right; exact Hin'].
Qed.

Lemma keepAllowed_fold (entries acc : list (jsstring * jsstring)) (key : jsstring) :
  assoc key
    (fold_left (fun acc kv =>
                  if arrayIncludes allowedParams (fst kv)
                  then paramsSet (fst kv) (snd kv) acc else acc) entries acc)
  = if arrayIncludes allowedParams key
    then match assoc key (rev entries) with
         | Some v => Some v
         | None => assoc key acc
         end
    else assoc key acc.
Proof.
  revert acc. induction entries as [|[k v] entries IH]; intros acc.
  - cbn [fold_left rev assoc]. destruct (arrayIncludes allowedParams key); reflexivity.
  - cbn [fold_left fst snd rev]. rewrite IH.
    assert (Hrev : forall l, assoc key (l ++ [(k, v)])
                   = match assoc key l with
                     | Some x => Some x
                     | None => if str_eqb k key then Some v else None
                     end).
    { induction l as [|[k' v'] l IHl]; cbn [app assoc]; [reflexivity|].
      destruct (str_eqb k' key); [reflexivity|exact IHl]. }
    rewrite Hrev. destruct (arrayIncludes allowedParams key) eqn:Ea.
    + destruct (assoc key (rev entries)); [reflexivity|].
      destruct (arrayIncludes allowedParams k) eqn:Ek.
      * rewrite assoc_paramsSet. destruct (str_eqb k key); reflexivity.
      * destruct (str_eqb k key) eqn:E; [|reflexivity].
        apply str_eqb_eq in E. subst k. congruence.
    + destruct (arrayIncludes allowedParams k) eqn:Ek; [|reflexivity].
      rewrite assoc_paramsSet. destruct (str_eqb k key) eqn:E; [|reflexivity].
      apply str_eqb_eq in E. subst k. congruence.
Qed.

Lemma keepAllowed_keys (entries acc : list (jsstring * jsstring)) :
  NoDup (List.map fst acc) ->
  NoDup (List.map fst
           (fold_left (fun acc kv =>
                         if arrayIncludes allowedParams (fst kv)
                         then paramsSet (fst kv) (snd kv) acc else acc) entries acc)).
Proof.
  revert acc. induction entries as [|[k v] entries IH]; intros acc Hnd; [exact Hnd|].
  cbn [fold_left fst snd]. apply IH.
  destruct (arrayIncludes allowedParams k); [|exact Hnd].
  apply paramsSet_NoDup. exact Hnd.
Qed.

(** The filter of [normalizeSoundCloudUrl] keeps each allowed key once,
    with the value of its last occurrence, and no other key. *)
Lemma keepAllowed_last_value (entries : list (jsstring * jsstring)) :
  NoDup (List.map fst (keepAllowed entries))
  /\ forall key,
       assoc key (keepAllowed entries)
       = if arrayIncludes allowedParams key then assoc key (rev entries) else None.
Proof.
  unfold keepAllowed. split.
  - apply keepAllowed_keys. constructor.
  - intros key. rewrite keepAllowed_fold. cbn [assoc].
    destruct (arrayIncludes allowedParams key); [|reflexivity].
    destruct (assoc key (rev entries)); reflexivity.
Qed.

(** X7: [normalizeSoundCloudUrl] gives a string that does not parse
    back as it is, and a URL of the host on.soundcloud.com written out
    with every one of its query parameters.  Any other URL is written
    out with its path, with soundcloud.com for the hosts
    m.soundcloud.com and mobile.soundcloud.com and its own host
    otherwise, and with these query parameters: the keys among t, in,
    si, utm_source, utm_medium and utm_campaign that the query has, each
    once, with the value of its last occurrence, and no other key. *)
Theorem normalizeSoundCloudUrl_keeps_allowed_parameters {P : Platform} (url : jsstring) :
  match URL_parse url with
  | None => normalizeSoundCloudUrl url = url
  | Some parsed =>
      if str_eqb (hostname parsed) (js "on.soundcloud.com")
      then normalizeSoundCloudUrl url = URL_toString parsed
      else
        exists kept : list (jsstring * jsstring),
          normalizeSoundCloudUrl url
          = URL_toString
              (mkURL (if arrayIncludes [js "m.soundcloud.com"; js "mobile.soundcloud.com"]
                                       (hostname parsed)
                      then js "soundcloud.com" else hostname parsed)
                     (pathname parsed) kept)
          /\ NoDup (List.map fst kept)
          /\ forall key,
               assoc key kept
               = if arrayIncludes allowedParams key
                 then assoc key (rev (searchParams parsed))
                 else None
  end.
Proof.
  unfold normalizeSoundCloudUrl. destruct (URL_parse url) as [parsed|]; [|reflexivity].
  destruct (str_eqb (hostname parsed) (js "on.soundcloud.com")) eqn:Eon.
  - apply str_eqb_eq in Eon.
    destruct (str_eqb (hostname parsed) (js "m.soundcloud.com")
              || str_eqb (hostname parsed) (js "mobile.soundcloud.com")) eqn:Em.
    + rewrite Eon in Em. vm_compute in Em. discriminate.
    + rewrite Eon. rewrite (proj2 (str_eqb_eq _ _) eq_refl). reflexivity.
  - exists (keepAllowed (searchParams parsed)).
    split; [|apply keepAllowed_last_value].
    unfold arrayIncludes. cbn [existsb]. rewrite orb_false_r.
    destruct (str_eqb (hostname parsed) (js "m.soundcloud.com")
              || str_eqb (hostname parsed) (js "mobile.soundcloud.com")) eqn:Em.
    + cbn [hostname pathname searchParams].
      replace (str_eqb (js "soundcloud.com") (js "on.soundcloud.com")) with false
        by (vm_compute; reflexivity).
      reflexivity.
    + rewrite Eon. reflexivity.
Qed.

(** *** [RateLimiter] *)

Lemma canMakeRequest_bounded (now : Z) (r : RateLimiter) :
  (Z.of_nat (length (requests r)) <= Z.max 0 (maxRequests r))%Z ->
  (Z.of_nat (length (requests (snd (canMakeRequest now r)))) <= Z.max 0 (maxRequests r))%Z
  /\ maxRequests (snd (canMakeRequest now r)) = maxRequests r
  /\ windowMs (snd (canMakeRequest now r)) = windowMs r.
Proof.
  intros H. unfold canMakeRequest.
  pose proof (filter_length_le (fun timestamp => (now - timestamp <? windowMs r)%Z)
                (requests r)) as Hf.
  destruct (Z.of_nat _ <? maxRequests r)%Z eqn:E; cbn [snd requests maxRequests windowMs].
  - apply Z.ltb_lt in E. rewrite length_app. cbn [length]. repeat split. lia.
  - repeat split. lia.
Qed.

Lemma requestAll_bounded (times : list Z) (r : RateLimiter) :
  (Z.of_nat (length (requests r)) <= Z.max 0 (maxRequests r))%Z ->
  (Z.of_nat (length (requests (snd (requestAll times r)))) <= Z.max 0 (maxRequests r))%Z
  /\ maxRequests (snd (requestAll times r)) = maxRequests r
  /\ windowMs (snd (requestAll times r)) = windowMs r.
Proof.
  revert r. induction times as [|now later IH]; intros r H; [auto|].
  cbn [requestAll]. destruct (canMakeRequest_bounded now r H) as (B1 & B2 & B3).
  destruct (canMakeRequest now r) as [ok r1]. cbn [snd] in B1, B2, B3.
  rewrite <- B2 in B1. destruct (IH r1 B1) as (C1 & C2 & C3).
  destruct (requestAll later r1) as [granted r2]. cbn [snd] in *.
  rewrite C2, C3, B2 in *. auto.
Qed.

Lemma filter_filter_window (w now later : Z) (l : list Z) :
  (now <= later)%Z ->
  List.filter (fun t => (later - t <? w)%Z) (List.filter (fun t => (now - t <? w)%Z) l)
  = List.filter (fun t => (later - t <? w)%Z) l.
Proof.
  intros Hle. induction l as [|t l IH]; [reflexivity|]. cbn [List.filter].
  destruct (now - t <? w)%Z eqn:E1; cbn [List.filter].
  - rewrite IH. reflexivity.
  - destruct (later - t <? w)%Z eqn:E2; [|exact IH].
    apply Z.ltb_lt in E2. apply Z.ltb_ge in E1. lia.
Qed.

(** Seen from a later moment, the stored stamps are the stamps let
    through, with those that the limiter had. *)
Lemma requestAll_window (times : list Z) (r : RateLimiter) (now : Z) :
  Forall (fun t => (t <= now)%Z) times ->
  List.filter (fun t => (now - t <? windowMs r)%Z) (requests (snd (requestAll times r)))
  = List.filter (fun t => (now - t <? windowMs r)%Z)
      (requests r ++ fst (requestAll times r)).
Proof.
  revert r. induction times as [|t later IH]; intros r Hle.
  - cbn. rewrite app_nil_r. reflexivity.
  - apply Forall_cons in Hle as [Ht Hle]. cbn [requestAll].
    pose proof (IH (snd (canMakeRequest t r)) Hle) as IH'.
    unfold canMakeRequest in *.
    destruct (Z.of_nat _ <? maxRequests r)%Z; cbn [snd fst requests windowMs] in *;
      destruct (requestAll later _) as [granted r2]; cbn [snd fst] in *;
      rewrite IH', !List.filter_app, ?filter_filter_window by exact Ht;
      cbn [List.filter app]; destruct (now - t <? windowMs r)%Z;
      rewrite <- ?app_assoc, ?app_nil_r; reflexivity.
Qed.

Lemma requestAll_app (a b : list Z) (r : RateLimiter) :
  requestAll (a ++ b) r
  = (fst (requestAll a r) ++ fst (requestAll b (snd (requestAll a r))),
     snd (requestAll b (snd (requestAll a r)))).
Proof.
  revert r. induction a as [|t a IH]; intros r.
  - cbn. destruct (requestAll b r); reflexivity.
  - cbn [app requestAll]. destruct (canMakeRequest t r) as [ok r1]. rewrite IH.
    destruct (requestAll a r1) as [g1 r2]. cbn [fst snd].
    destruct (requestAll b r2) as [g2 r3]. cbn [fst snd]. destruct ok; reflexivity.
Qed.

(** X8: when no earlier call was made at a later clock reading than
    the latest call, a new [RateLimiter] has let through no more than
    [maxRequests] requests in the window that ends at the latest
    call. *)
Theorem rate_limiter_window_bound (maxRequests windowMs : Z) (times : list Z) (now : Z) :
  Forall (fun t => (t <= now)%Z) times ->
  let granted :=
    fst (requestAll (times ++ [now]) (newRateLimiter maxRequests windowMs)) in
  (Z.of_nat (length (List.filter (fun t => (now - t <? windowMs)%Z) granted))
   <= Z.max 0 maxRequests)%Z.
Proof.
  intros Hle granted. unfold granted. rewrite requestAll_app. cbn [fst].
  set (r0 := newRateLimiter maxRequests windowMs).
  assert (H0 : (Z.of_nat (length (requests r0)) <= Z.max 0 (SecurityRest.maxRequests r0))%Z)
    by (cbn; lia).
  destruct (requestAll_bounded times r0 H0) as (B1 & B2 & B3).
  pose proof (requestAll_window times r0 now Hle) as Hw.
  cbn [requests r0 newRateLimiter app SecurityRest.windowMs] in Hw.
  cbn [SecurityRest.maxRequests SecurityRest.windowMs r0 newRateLimiter] in B1, B2, B3.
  destruct (requestAll times r0) as [g r1]. cbn [fst snd] in *.
  cbn [requestAll]. unfold canMakeRequest. rewrite B2, B3, Hw.
  pose proof (filter_length_le (fun t => (now - t <? windowMs)%Z) g) as Hf.
  rewrite List.filter_app, length_app.
  destruct (Z.of_nat (length (List.filter _ g)) <? maxRequests)%Z eqn:E; cbn [fst].
  - apply Z.ltb_lt in E. cbn [List.filter].
    destruct (now - now <? windowMs)%Z; cbn [length]; lia.
  - assert (Hr : (Z.of_nat (length (List.filter (fun t => (now - t <? windowMs)%Z)
                                       (requests r1)))
                  <= Z.max 0 maxRequests)%Z).
    { pose proof (filter_length_le (fun t => (now - t <? windowMs)%Z) (requests r1)). lia. }
    rewrite Hw in Hr. cbn [List.filter length]. lia.
Qed.

Lemma rate_limiter_window_bound_witness :
  let granted := fst (requestAll ([0; 10; 20] ++ [30])%Z (newRateLimiter 2 100)) in
  (Z.of_nat (length (List.filter (fun t => (30 - t <? 100)%Z) granted)) <= Z.max 0 2)%Z.
Proof.
  apply (rate_limiter_window_bound 2 100 [0; 10; 20]%Z 30%Z).
  repeat constructor; lia.
Defined.

Lemma fold_min_le (l : list Z) (x : Z) :
  (fold_left Z.min l x <= x)%Z
  /\ Forall (fun y => (fold_left Z.min l x <= y)%Z) l
  /\ (fold_left Z.min l x = x \/ In (fold_left Z.min l x) l).
Proof.
  revert x. induction l as [|y l IH]; intros x; cbn [fold_left].
  - split; [lia|]. split; [constructor|left; reflexivity].
  - destruct (IH (Z.min x y)) as (H1 & H2 & H3). split; [lia|]. split.
    + constructor; [lia|exact H2].
    + destruct H3 as [H3|H3]; [|right; right; exact H3].
      destruct (Z.min_spec x y) as [[_ E]|[_ E]].
      * left. rewrite H3. exact E.
      * right. left. rewrite H3, E. reflexivity.
Qed.

Lemma minimum_spec (l : list Z) (m : Z) :
  minimum l = Some m -> In m l /\ Forall (fun y => (m <= y)%Z) l.
Proof.
  destruct l as [|x l]; cbn [minimum]; [discriminate|]. intros H. injection H as <-.
  destruct (fold_min_le l x) as (H1 & H2 & H3). split.
  - destruct H3 as [->|H3]; [left; reflexivity|right; exact H3].
  - constructor; assumption.
Qed.

Lemma filter_drops {A} (f : A -> bool) (l : list A) (x : A) :
  In x l -> f x = false -> (length (List.filter f l) < length l)%nat.
Proof.
  induction l as [|y l IH]; cbn [In List.filter length]; [contradiction|].
  intros [->|Hin] Hf.
  - rewrite Hf. pose proof (filter_length_le f l). lia.
  - specialize (IH Hin Hf). destruct (f y); cbn [length]; lia.
Qed.

(** X9: when a [RateLimiter] that holds no more than [maxRequests]
    stamps, with [maxRequests] at least 1, turns a request down, the
    time it then reports until the next request is positive, and a
    request made after that time is let through. *)
Theorem rate_limiter_wait_is_enough (now : Z) (r r' : RateLimiter) :
  (1 <= maxRequests r)%Z ->
  (Z.of_nat (length (requests r)) <= maxRequests r)%Z ->
  canMakeRequest now r = (false, r') ->
  exists wait,
    getTimeUntilNextRequest now r' = Ms wait
    /\ (0 < wait)%Z
    /\ fst (canMakeRequest (now + wait) r') = true.
Proof.
  intros HM Hlen Hc. unfold canMakeRequest in Hc.
  set (recent := List.filter (fun timestamp => (now - timestamp <? windowMs r)%Z)
                             (requests r)) in *.
  destruct (Z.of_nat (length recent) <? maxRequests r)%Z eqn:E; [discriminate|].
  injection Hc as <-. apply Z.ltb_ge in E.
  pose proof (filter_length_le (fun timestamp => (now - timestamp <? windowMs r)%Z)
                (requests r)) as Hf. fold recent in Hf.
  unfold getTimeUntilNextRequest. cbn [requests maxRequests windowMs].
  replace (Z.of_nat (length recent) <? maxRequests r)%Z with false
    by (symmetry; apply Z.ltb_ge; exact E).
  destruct (minimum recent) as [oldest|] eqn:Em.
  - destruct (minimum_spec recent oldest Em) as [Hin Hmin].
    assert (Hw : (now - oldest < windowMs r)%Z).
    { unfold recent in Hin. apply filter_In in Hin as [_ Hin].
      apply Z.ltb_lt. exact Hin. }
    exists (windowMs r - (now - oldest))%Z. split; [f_equal; lia|]. split; [lia|].
    unfold canMakeRequest. cbn [requests maxRequests windowMs].
    assert (Hd : (length (List.filter
                   (fun timestamp =>
                      (now + (windowMs r - (now - oldest)) - timestamp <? windowMs r)%Z)
                   recent) < length recent)%nat).
    { apply (filter_drops _ recent oldest Hin). apply Z.ltb_ge. lia. }
    destruct (Z.of_nat _ <? maxRequests r)%Z eqn:E2; [reflexivity|].
    apply Z.ltb_ge in E2. lia.
  - destruct recent as [|x l]; [cbn [length] in E; lia|discriminate].
Qed.

Lemma rate_limiter_wait_is_enough_witness :
  exists wait,
    getTimeUntilNextRequest 50 (mkRateLimiter [10; 20]%Z 2 100) = Ms wait
    /\ (0 < wait)%Z
    /\ fst (canMakeRequest (50 + wait) (mkRateLimiter [10; 20]%Z 2 100)) = true.
Proof.
  apply (rate_limiter_wait_is_enough 50 (mkRateLimiter [10; 20]%Z 2 100)
           (mkRateLimiter [10; 20]%Z 2 100)).
  - simpl. lia.
  - simpl. lia.
  - reflexivity.
Defined.

End SecurityExtra.

(** * More properties of the operation state store *)

Module StoreExtra.
Import Security Downloader Terms EngineTerms SecurityProps StoreProps.

Lemma setAdd_spec (cb : callback) (l : list callback) :
  NoDup l ->
  NoDup (setAdd cb l) /\ In cb (setAdd cb l) /\ setAdd cb l <> []
  /\ (~ In cb l -> setAdd cb l = l ++ [cb])
  /\ (In cb l -> setAdd cb l = l).
Proof.
  intros Hnd. unfold setAdd. destruct (existsb (Nat.eqb cb) l) eqn:E.
  - apply existsb_exists in E as (x & Hx & E). apply Nat.eqb_eq in E. subst x.
    repeat split; auto.
    + intros ->. contradiction.
    + intros H. contradiction.
  - assert (Hn : ~ In cb l).
    { intros Hin. assert (existsb (Nat.eqb cb) l = true); [|congruence].
      apply existsb_exists. exists cb. split; [exact Hin|apply Nat.eqb_refl]. }
    repeat split; auto.
    + apply NoDup_app. repeat split; [exact Hnd| |apply NoDup_singleton].
      intros x Hx Hx'. apply list_elem_of_In in Hx, Hx'. destruct Hx' as [<-|[]].
      contradiction.
    + apply in_or_app. right. left. reflexivity.
    + intros H. apply (f_equal (@length _)) in H. rewrite length_app in H.
      cbn in H. lia.
    + intros H. contradiction.
Qed.

Lemma setDelete_spec (cb : callback) (l : list callback) :
  ~ In cb (setDelete cb l)
  /\ (NoDup l -> NoDup (setDelete cb l))
  /\ (~ In cb l -> setDelete cb l = l)
  /\ (forall x, In x (setDelete cb l) -> In x l).
Proof.
  unfold setDelete. repeat split.
  - intros H. apply filter_In in H as [_ H]. rewrite Nat.eqb_refl in H. discriminate.
  - intros Hnd. induction Hnd as [|x l Hx Hnd IH]; cbn [List.filter]; [constructor|].
    destruct (negb (cb =? x)%nat); [|exact IH].
    constructor; [|exact IH]. intros Hin. apply Hx. apply list_elem_of_In in Hin.
    apply filter_In in Hin as [Hin _]. apply list_elem_of_In. exact Hin.
  - intros Hn. apply SecurityExtra.filter_all. apply forallb_forall. intros x Hx.
    destruct (cb =? x)%nat eqn:E; [|reflexivity]. apply Nat.eqb_eq in E. subst x.
    contradiction.
  - intros x Hx. apply filter_In in Hx as [Hx _]. exact Hx.
Qed.

Lemma setDelete_added (cb : callback) (l : list callback) :
  ~ In cb l -> setDelete cb (l ++ [cb]) = l.
Proof.
  intros Hn. unfold setDelete. rewrite List.filter_app. cbn [List.filter].
  rewrite Nat.eqb_refl. cbn [negb]. rewrite app_nil_r.
  apply (proj1 (proj2 (proj2 (setDelete_spec cb l)))). exact Hn.
Qed.

(** X10: subscribing a callback and unsubscribing it again leaves the
    subscribers of the store as they were, when the store is tidy and
    the callback was not subscribed; so the last unsubscribe of an id
    leaves no entry for it. *)
Theorem unsubscribe_undoes_subscribe (operationId : jsstring) (cb : callback)
    (w : World) :
  tidy w ->
  ~ In cb (default [] (globalListeners w !! operationId)) ->
  globalListeners (unsubscribe operationId cb (subscribeToOperation operationId cb w))
  = globalListeners w
  /\ globalOperations (unsubscribe operationId cb
                         (subscribeToOperation operationId cb w))
     = globalOperations w.
Proof.
  intros Ht Hn.
  assert (Hl : globalListeners (subscribeToOperation operationId cb w)
               = <[operationId := setAdd cb (default [] (globalListeners w !! operationId))]>
                   (globalListeners w)).
  { unfold subscribeToOperation. cbn.
    destruct (globalOperations w !! operationId); reflexivity. }
  assert (Ho : globalOperations (subscribeToOperation operationId cb w)
               = globalOperations w).
  { unfold subscribeToOperation. cbn.
    destruct (globalOperations w !! operationId); reflexivity. }
  unfold unsubscribe. rewrite Hl, lookup_insert_eq.
  destruct (globalListeners w !! operationId) as [l|] eqn:El;
    cbn [default from_option] in *; unfold id in *.
  - destruct (Ht operationId l El) as [Hne Hnd].
    rewrite (proj1 (proj2 (proj2 (proj2 (setAdd_spec cb l Hnd)))) Hn).
    rewrite setDelete_added by exact Hn.
    destruct l as [|x l]; [contradiction|]. cbn [length Nat.eqb globalListeners
      globalOperations]. split; [|exact Ho].
    rewrite insert_insert_eq. apply insert_id. exact El.
  - cbn [setAdd existsb app setDelete List.filter]. rewrite Nat.eqb_refl.
    cbn [negb length Nat.eqb globalListeners globalOperations]. split; [|exact Ho].
    rewrite delete_insert_eq. apply delete_id. exact El.
Qed.

Lemma unsubscribe_undoes_subscribe_witness :
  globalListeners (unsubscribe (js "download_1") 7%nat
                     (subscribeToOperation (js "download_1") 7%nat emptyWorld))
  = globalListeners emptyWorld.
Proof.
  apply (unsubscribe_undoes_subscribe (js "download_1") 7%nat emptyWorld).
  - intros i l H. cbn in H. rewrite lookup_empty in H. discriminate.
  - cbn. rewrite lookup_empty. cbn. tauto.
Defined.

Lemma subscribe_listeners (operationId : jsstring) (cb : callback) (w : World) :
  globalListeners (subscribeToOperation operationId cb w)
  = <[operationId := setAdd cb (default [] (globalListeners w !! operationId))]>
      (globalListeners w)
  /\ globalOperations (subscribeToOperation operationId cb w) = globalOperations w.
Proof.
  unfold subscribeToOperation. cbn.
  destruct (globalOperations w !! operationId); split; reflexivity.
Qed.

Lemma tidy_default (w : World) (operationId : jsstring) :
  tidy w -> NoDup (default [] (globalListeners w !! operationId)).
Proof.
  intros Ht. destruct (globalListeners w !! operationId) as [l|] eqn:E; cbn.
  - apply (Ht operationId l E).
  - constructor.
Qed.

Lemma applyOp_tidy (w : World) (op : StoreOp) : tidy w -> tidy (applyOp w op).
Proof.
  intros Ht. destruct op as [i cb|i cb|i p]; cbn [applyOp].
  - intros j l. rewrite (proj1 (subscribe_listeners i cb w)).
    destruct (decide (i = j)) as [->|Hne].
    + rewrite lookup_insert_eq. intros H. injection H as <-.
      destruct (setAdd_spec cb _ (tidy_default w j Ht)) as (H1 & _ & H3 & _). auto.
    + rewrite lookup_insert_ne by exact Hne. apply Ht.
  - unfold unsubscribe. destruct (globalListeners w !! i) as [l0|] eqn:E; [|exact Ht].
    destruct (Ht i l0 E) as [_ Hnd]. intros j l. cbn [globalListeners].
    destruct (length (setDelete cb l0) =? 0)%nat eqn:El.
    + destruct (decide (i = j)) as [->|Hne].
      * rewrite lookup_delete_eq. discriminate.
      * rewrite lookup_delete_ne by exact Hne. apply Ht.
    + destruct (decide (i = j)) as [->|Hne].
      * rewrite lookup_insert_eq. intros H. injection H as <-. split.
        -- intros H. rewrite H in El. discriminate.
        -- apply setDelete_spec. exact Hnd.
      * rewrite lookup_insert_ne by exact Hne. apply Ht.
  - intros j l. rewrite updateOperationState_listeners. apply Ht.
Qed.

(** X11: whatever is subscribed, unsubscribed and updated, in whatever
    order, from the empty store, every subscriber set that the store
    holds is non-empty and has no callback twice: an id whose last
    subscriber left has no entry. *)
Theorem store_stays_tidy (ops : list StoreOp) : tidy (fold_left applyOp ops emptyWorld).
Proof.
  assert (H : forall w, tidy w -> tidy (fold_left applyOp ops w)).
  { induction ops as [|op ops IH]; intros w Hw; [exact Hw|].
    cbn [fold_left]. apply IH. apply applyOp_tidy. exact Hw. }
  apply H. intros i l E. cbn in E. rewrite lookup_empty in E. discriminate.
Qed.

Lemma callsTo_app (cb : callback) (a b : list Effect) :
  callsTo cb (a ++ b) = (callsTo cb a + callsTo cb b)%nat.
Proof. unfold callsTo. rewrite List.filter_app, length_app. reflexivity. Qed.

Lemma callsTo_calls (cb : callback) (st : OperationState) (l : list callback) :
  callsTo cb (List.map (fun c => Called c st) l)
  = length (List.filter (fun c => Nat.eqb c cb) l).
Proof.
  unfold callsTo. induction l as [|c l IH]; [reflexivity|].
  cbn [List.map List.filter isCallTo]. destruct (c =? cb)%nat; cbn [length]; lia.
Qed.

Lemma count_absent (cb : callback) (l : list callback) :
  ~ In cb l -> length (List.filter (fun c => Nat.eqb c cb) l) = 0%nat.
Proof.
  induction l as [|c l IH]; [reflexivity|]. intros Hn. cbn [List.filter].
  destruct (c =? cb)%nat eqn:E.
  - apply Nat.eqb_eq in E. subst c. exfalso. apply Hn. left. reflexivity.
  - apply IH. intros H. apply Hn. right. exact H.
Qed.

Lemma count_once (cb : callback) (l : list callback) :
  NoDup l -> In cb l -> length (List.filter (fun c => Nat.eqb c cb) l) = 1%nat.
Proof.
  intros Hnd. induction Hnd as [|c l Hc Hnd IH]; [contradiction|].
  cbn [List.filter]. intros [->|Hin].
  - rewrite Nat.eqb_refl. cbn [length]. rewrite count_absent; [reflexivity|].
    intros H. apply Hc. apply list_elem_of_In. exact H.
  - destruct (c =? cb)%nat eqn:E; [|exact (IH Hin)].
    apply Nat.eqb_eq in E. subst c. exfalso. apply Hc. apply list_elem_of_In. exact Hin.
Qed.

(** X12: after [unsubscribe], an update of the id does not call the
    callback. *)
Theorem unsubscribed_is_not_called (operationId : jsstring) (cb : callback)
    (updates : PartialState) (w : World) :
  callsTo cb (effects (updateOperationState operationId updates
                         (unsubscribe operationId cb w)))
  = callsTo cb (effects w).
Proof.
  rewrite updateOperationState_effects, callsTo_app, callsTo_calls.
  assert (He : effects (unsubscribe operationId cb w) = effects w).
  { unfold unsubscribe. destruct (globalListeners w !! operationId); reflexivity. }
  rewrite He, count_absent; [lia|].
  unfold unsubscribe. destruct (globalListeners w !! operationId) as [l|] eqn:E.
  - cbn [globalListeners]. destruct (length (setDelete cb l) =? 0)%nat.
    + rewrite lookup_delete_eq. cbn. tauto.
    + rewrite lookup_insert_eq. cbn. apply setDelete_spec.
  - rewrite E. cbn. tauto.
Qed.

(** X13: in a tidy store, an update of an id calls a callback
    subscribed to the id once, with the new state, also when the
    callback was subscribed more than once. *)
Theorem subscribed_is_called_once (operationId : jsstring) (cb : callback)
    (updates : PartialState) (w : World) :
  tidy w ->
  let w1 := subscribeToOperation operationId cb (subscribeToOperation operationId cb w) in
  let w2 := updateOperationState operationId updates w1 in
  callsTo cb (effects w2) = S (callsTo cb (effects w1))
  /\ In (Called cb (spreadState (stateOf w operationId) updates)) (effects w2).
Proof.
  intros Ht w1 w2.
  pose proof (applyOp_tidy w (Subscribe operationId cb) Ht) as Ht1.
  pose proof (applyOp_tidy _ (Subscribe operationId cb) Ht1) as Ht2.
  cbn [applyOp] in Ht1, Ht2. fold w1 in Ht2.
  assert (Hs : stateOf w1 operationId = stateOf w operationId).
  { unfold stateOf, w1. rewrite !(proj2 (subscribe_listeners _ _ _)). reflexivity. }
  assert (Hin : exists l, globalListeners w1 !! operationId = Some l /\ In cb l /\ NoDup l).
  { unfold w1. rewrite (proj1 (subscribe_listeners _ _ _)), lookup_insert_eq.
    eexists. split; [reflexivity|].
    destruct (setAdd_spec cb _ (tidy_default _ operationId Ht1)) as (H1 & H2 & _).
    split; assumption. }
  destruct Hin as (l & Hl & Hin & Hnd).
  unfold w2. rewrite updateOperationState_effects, Hl, Hs. cbn [default from_option].
  unfold id. split.
  - rewrite callsTo_app, callsTo_calls, (count_once cb l Hnd Hin). lia.
  - apply in_or_app. right. apply in_map_iff. exists cb. split; [reflexivity|exact Hin].
Qed.

Lemma subscribed_is_called_once_witness :
  let w1 := subscribeToOperation (js "download_1") 7%nat
              (subscribeToOperation (js "download_1") 7%nat emptyWorld) in
  let w2 := updateOperationState (js "download_1") startUpdate w1 in
  callsTo 7%nat (effects w2) = S (callsTo 7%nat (effects w1)).
Proof.
  apply (subscribed_is_called_once (js "download_1") 7%nat startUpdate emptyWorld).
  intros i l H. cbn in H. rewrite lookup_empty in H. discriminate.
Defined.

End StoreExtra.

(** * More properties of the download engine *)

Module DownloaderExtra.
Import Regex Security Downloader Terms MoreTerms EngineTerms RegexProps SecurityProps
       StoreProps DownloaderProps.

Section WithPlatform.
Context {P : Platform}.

(** *** Induction over the handlers of a running download

    A property of the variables of the handlers and the world that the
    four kinds of update keep is kept by every run of ticks and
    output. *)

Section Handlers.
Variable Q : Running -> World -> Prop.

Hypothesis Qprogress : forall r w progressUpdate,
  elapsedTime progressUpdate = None ->
  Q r w ->
  Q (withProgress r (spreadProgress (run_currentProgress r) progressUpdate))
    (updateOperationState (run_operationId r)
       (progressUpdateOf (spreadProgress (run_currentProgress r) progressUpdate)) w).

Hypothesis QtrackInfo : forall r w info,
  Q r w ->
  Q (withTrackInfo r (Some info))
    (updateOperationState (run_operationId r)
       (mkPartial None None (Some (Some info)) None None None) w).

Hypothesis Qfile : forall r w filePath,
  arrayIncludes (run_downloadedFiles r) filePath = false ->
  Q r w ->
  Q (withFiles r (run_downloadedFiles r ++ [filePath]))
    (updateOperationState (run_operationId r)
       (mkPartial None None None None None (Some (run_downloadedFiles r ++ [filePath])))
       w).

Hypothesis Qerror : forall r w message,
  Q r w ->
  Q r (updateOperationState (run_operationId r)
         (mkPartial None None None (Some (Some message)) None None) w).

Hypothesis Qtick : forall r w now,
  Q r w ->
  Q (withProgress r
       (spreadProgress (run_currentProgress r)
          (elapsedOnly (calculateElapsedTime (run_startTime r) now))))
    (updateOperationState (run_operationId r)
       (progressUpdateOf
          (spreadProgress (run_currentProgress r)
             (elapsedOnly (calculateElapsedTime (run_startTime r) now)))) w).

Lemma parseProgress_no_elapsedTime (line : jsstring) :
  elapsedTime (parseProgress line) = None.
Proof.
  unfold parseProgress.
  destruct (exec downloadPattern line); [reflexivity|].
  destruct (exec playlistPattern line); [reflexivity|].
  destruct (exec titlePattern line); reflexivity.
Qed.

Lemma onLine_kept (st : Running * World) (line : jsstring) :
  Q (fst st) (snd st) -> Q (fst (onLine st line)) (snd (onLine st line)).
Proof.
  destruct st as [r w]. cbn [fst snd]. intros H0. unfold onLine.
  assert (H1 : Q (fst (if hasKeys (parseProgress line)
                       then (withProgress r (spreadProgress (run_currentProgress r)
                                               (parseProgress line)),
                             updateOperationState (run_operationId r)
                               (progressUpdateOf
                                  (spreadProgress (run_currentProgress r)
                                     (parseProgress line))) w)
                       else (r, w)))
                 (snd (if hasKeys (parseProgress line)
                       then (withProgress r (spreadProgress (run_currentProgress r)
                                               (parseProgress line)),
                             updateOperationState (run_operationId r)
                               (progressUpdateOf
                                  (spreadProgress (run_currentProgress r)
                                     (parseProgress line))) w)
                       else (r, w)))).
  { destruct (hasKeys (parseProgress line)); cbn [fst snd]; [|exact H0].
    apply Qprogress; [apply parseProgress_no_elapsedTime|exact H0]. }
  destruct (if hasKeys (parseProgress line) then _ else _) as [r1 w1].
  cbn [fst snd] in H1.
  assert (H2 : forall st2 : Running * World,
             st2 = (if includes line (dq ++ js "title" ++ dq)
                       && includes line (dq ++ js "uploader" ++ dq)
                    then match exec jsonPattern line with
                         | Some jsonMatch =>
                             match JSON_parse (groupText 0 jsonMatch) with
                             | Some info =>
                                 (withTrackInfo r1 (Some info),
                                  updateOperationState (run_operationId r1)
                                    (mkPartial None None (Some (Some info)) None None None)
                                    w1)
                             | None => (r1, w1)
                             end
                         | None => (r1, w1)
                         end
                    else (r1, w1)) ->
             Q (fst st2) (snd st2)).
  { intros st2 ->.
    destruct (includes line (dq ++ js "title" ++ dq)
              && includes line (dq ++ js "uploader" ++ dq)); [|exact H1].
    destruct (exec jsonPattern line) as [jsonMatch|]; [|exact H1].
    destruct (JSON_parse (groupText 0 jsonMatch)) as [info|]; [|exact H1].
    cbn [fst snd]. apply QtrackInfo. exact H1. }
  specialize (H2 _ eq_refl).
  destruct (if includes line (dq ++ js "title" ++ dq)
               && includes line (dq ++ js "uploader" ++ dq) then _ else _) as [r2 w2].
  cbn [fst snd] in H2.
  destruct (includes line (js "[download] 100%")
            || includes line (js "has already been downloaded")); [|exact H2].
  destruct (orElse (exec alreadyPattern line) (fun _ => exec destinationPattern line))
    as [fileMatch|]; [|exact H2].
  destruct (arrayIncludes (run_downloadedFiles r2) (trim (groupText 1 fileMatch))) eqn:E;
    cbn [negb fst snd]; [exact H2|].
  apply Qfile; assumption.
Qed.

Lemma onStdout_kept (data : jsstring) (r : Running) (w : World) :
  Q r w -> Q (fst (onStdout data r w)) (snd (onStdout data r w)).
Proof.
  unfold onStdout.
  generalize (List.filter (fun line => (0 <? length (trim line))%nat) (split 10%N data)).
  intros lines.
  assert (G : forall st0 : Running * World,
             Q (fst st0) (snd st0) ->
             Q (fst (fold_left onLine lines st0)) (snd (fold_left onLine lines st0))).
  { induction lines as [|line lines IH]; intros st0 H; [exact H|].
    cbn [fold_left]. apply IH. apply onLine_kept. exact H. }
  intros H0. apply (G (r, w)). exact H0.
Qed.

Lemma handle_kept (st : Running * World) (e : ProcessEvent) :
  Q (fst st) (snd st) -> Q (fst (handle st e)) (snd (handle st e)).
Proof.
  intros H0. destruct e as [now|data|data]; unfold handle.
  - unfold onTick. cbn [fst snd]. apply Qtick. exact H0.
  - apply onStdout_kept. exact H0.
  - unfold onStderr.
    destruct (includes data (js "ERROR:") && negb (includes data (js "WARNING:")));
      cbn [fst snd]; [|exact H0].
    apply Qerror. exact H0.
Qed.

Lemma handleAll_kept (events : list ProcessEvent) (st : Running * World) :
  Q (fst st) (snd st) ->
  Q (fst (handleAll events st)) (snd (handleAll events st)).
Proof.
  unfold handleAll. revert st.
  induction events as [|e events IH]; intros st H; [exact H|].
  cbn [fold_left]. apply IH. apply handle_kept. exact H.
Qed.

End Handlers.

(** *** What the handlers leave alone *)

Lemma onlyUpdates_refl (operationId : jsstring) (w : World) :
  onlyUpdates operationId w w.
Proof.
  split; [reflexivity|]. split; [reflexivity|]. exists []. split; [|constructor].
  symmetry. apply app_nil_r.
Qed.

Lemma onlyUpdates_update (operationId : jsstring) (p : PartialState) (w w1 : World) :
  onlyUpdates operationId w w1 ->
  onlyUpdates operationId w (updateOperationState operationId p w1).
Proof.
  intros (Hl & Ho & new & He & Hnew). split; [|split].
  - rewrite updateOperationState_listeners. exact Hl.
  - intros other Hne. rewrite updateOperationState_operations.
    rewrite lookup_insert_ne by congruence. apply Ho. exact Hne.
  - rewrite updateOperationState_effects, He, Hl, <- app_assoc. eexists.
    split; [reflexivity|]. apply Forall_app. split; [exact Hnew|].
    apply Forall_forall. intros e Hin. apply list_elem_of_In in Hin.
    apply in_map_iff in Hin as (cb & <- & Hcb). exact Hcb.
Qed.

(** X14: the handlers of a running download, over any run of ticks and
    output, do nothing but update their own operation: the other
    operations and all the subscriptions are as they were, and the only
    effects are calls of the subscribers of the operation.  No process
    is started and no toast is shown before the process ends. *)
Theorem handlers_only_update_their_operation (events : list ProcessEvent)
    (r : Running) (w : World) :
  let running := handleAll events (r, w) in
  run_operationId (fst running) = run_operationId r
  /\ onlyUpdates (run_operationId r) w (snd running)
  /\ spawned (snd running) = spawned w
  /\ failuresShown (snd running) = failuresShown w.
Proof.
  cbv zeta.
  pose proof (handleAll_kept
    (fun r' w' => run_operationId r' = run_operationId r
                  /\ onlyUpdates (run_operationId r) w w')) as H.
  cbv beta in H.
  assert (G : run_operationId (fst (handleAll events (r, w))) = run_operationId r
              /\ onlyUpdates (run_operationId r) w (snd (handleAll events (r, w)))).
  { apply H.
    - intros r0 w0 pu _ [E H0]. cbn [run_operationId withProgress]. rewrite E.
      split; [reflexivity|]. apply onlyUpdates_update. exact H0.
    - intros r0 w0 info [E H0]. cbn [run_operationId withTrackInfo]. rewrite E.
      split; [reflexivity|]. apply onlyUpdates_update. exact H0.
    - intros r0 w0 filePath _ [E H0]. cbn [run_operationId withFiles]. rewrite E.
      split; [reflexivity|]. apply onlyUpdates_update. exact H0.
    - intros r0 w0 message [E H0]. rewrite E.
      split; [reflexivity|]. apply onlyUpdates_update. exact H0.
    - intros r0 w0 now [E H0]. cbn [run_operationId withProgress]. rewrite E.
      split; [reflexivity|]. apply onlyUpdates_update. exact H0.
    - cbn [fst snd]. split; [reflexivity|apply onlyUpdates_refl]. }
  destruct G as [G1 G2]. split; [exact G1|]. split; [exact G2|].
  destruct G2 as (_ & _ & new & He & Hnew). unfold spawned, failuresShown.
  rewrite He, !List.filter_app.
  assert (Hs : List.filter isSpawn new = [] /\ List.filter isFailureToast new = []).
  { clear He. induction Hnew as [|e new He Hnew IH]; [split; reflexivity|].
    destruct e; try contradiction. cbn [List.filter isSpawn isFailureToast]. exact IH. }
  destruct Hs as [-> ->]. rewrite !app_nil_r. split; reflexivity.
Qed.

(** *** The stored state and the variables of the handlers *)

Lemma inStep_kept (events : list ProcessEvent) (r : Running) (w : World) :
  inStep r w -> inStep (fst (handleAll events (r, w))) (snd (handleAll events (r, w))).
Proof.
  intros H0. apply (handleAll_kept inStep); [| | | | |exact H0]; unfold inStep.
  - intros r0 w0 pu _ (H1 & H2 & H3).
    cbn [run_operationId run_currentProgress run_downloadedFiles run_trackInfo
         withProgress].
    rewrite updateOperationState_stateOf. cbn. auto.
  - intros r0 w0 info (H1 & H2 & H3).
    cbn [run_operationId run_currentProgress run_downloadedFiles run_trackInfo
         withTrackInfo].
    rewrite updateOperationState_stateOf. cbn. auto.
  - intros r0 w0 filePath _ (H1 & H2 & H3).
    cbn [run_operationId run_currentProgress run_downloadedFiles run_trackInfo
         withFiles].
    rewrite updateOperationState_stateOf. cbn. auto.
  - intros r0 w0 message (H1 & H2 & H3).
    rewrite updateOperationState_stateOf. cbn. auto.
  - intros r0 w0 now (H1 & H2 & H3).
    cbn [run_operationId run_currentProgress run_downloadedFiles run_trackInfo
         withProgress].
    rewrite updateOperationState_stateOf. cbn. auto.
Qed.

(** X15: when the stored progress, files and track information of the
    operation are those that the handlers hold, they still are after
    any run of ticks and output: the store never lags behind the
    handlers. *)
Theorem store_follows_the_handlers (events : list ProcessEvent) (r : Running)
    (w : World) :
  inStep r w ->
  let running := handleAll events (r, w) in
  progress (stateOf (snd running) (run_operationId r)) = run_currentProgress (fst running)
  /\ downloadedFiles (stateOf (snd running) (run_operationId r))
     = run_downloadedFiles (fst running)
  /\ trackInfo (stateOf (snd running) (run_operationId r)) = run_trackInfo (fst running).
Proof.
  intros H0 running. pose proof (inStep_kept events r w H0) as H. fold running in H.
  unfold inStep in H.
  destruct (handleAll_keeps events (r, w) (run_operationId r)) as (Hid & _).
  fold running in Hid. cbn [fst] in Hid. rewrite Hid in H. exact H.
Qed.

Lemma arrayIncludes_false (l : list jsstring) (x : jsstring) :
  arrayIncludes l x = false -> ~ In x l.
Proof.
  intros H Hin. apply arrayIncludes_In in Hin. congruence.
Qed.

(** X16: the list of downloaded files only grows at its end and never
    has a path twice, over any run of ticks and output. *)
Theorem downloaded_files_append_only (events : list ProcessEvent) (r : Running)
    (w : World) :
  NoDup (run_downloadedFiles r) ->
  let running := handleAll events (r, w) in
  NoDup (run_downloadedFiles (fst running))
  /\ exists more, run_downloadedFiles (fst running) = run_downloadedFiles r ++ more.
Proof.
  intros H0. cbv zeta.
  apply (handleAll_kept
    (fun r' _ => NoDup (run_downloadedFiles r')
                 /\ exists more, run_downloadedFiles r' = run_downloadedFiles r ++ more)).
  - intros r0 w0 pu _ H. exact H.
  - intros r0 w0 info H. exact H.
  - intros r0 w0 filePath Hnew [Hnd [more Hm]]. cbn [run_downloadedFiles withFiles].
    split.
    + apply NoDup_app. repeat split; [exact Hnd| |apply NoDup_singleton].
      intros x Hx Hx'. apply list_elem_of_In in Hx, Hx'. destruct Hx' as [<-|[]].
      apply (arrayIncludes_false _ _ Hnew). exact Hx.
    + exists (more ++ [filePath]). rewrite Hm, app_assoc. reflexivity.
  - intros r0 w0 message H. exact H.
  - intros r0 w0 now H. exact H.
  - cbn [fst]. split; [exact H0|]. exists []. symmetry. apply app_nil_r.
Qed.

(** *** The clock *)

Lemma onStdout_elapsed (data : jsstring) (r : Running) (w : World) :
  elapsedTime (run_currentProgress (fst (onStdout data r w)))
  = elapsedTime (run_currentProgress r)
  /\ run_startTime (fst (onStdout data r w)) = run_startTime r.
Proof.
  apply (onStdout_kept
    (fun r' _ => elapsedTime (run_currentProgress r') = elapsedTime (run_currentProgress r)
                 /\ run_startTime r' = run_startTime r)).
  - intros r0 w0 pu Hpu [H1 H2]. cbn [run_currentProgress run_startTime withProgress
      spreadProgress elapsedTime]. rewrite Hpu. cbn [overOpt]. auto.
  - intros r0 w0 info H. exact H.
  - intros r0 w0 filePath _ H. exact H.
  - auto.
Qed.

(** X17: after any run of ticks and output, the elapsed time that the
    handlers hold is that of the latest tick, or the one they had when
    there was no tick: output never changes it. *)
Theorem elapsed_time_is_latest_tick (events : list ProcessEvent) (r : Running)
    (w : World) :
  elapsedTime (run_currentProgress (fst (handleAll events (r, w))))
  = shownElapsed (run_startTime r) events (elapsedTime (run_currentProgress r)).
Proof.
  unfold handleAll, shownElapsed. revert r w.
  induction events as [|e events IH]; intros r w; [reflexivity|].
  cbn [fold_left]. destruct (handle (r, w) e) as [r1 w1] eqn:E. rewrite IH.
  destruct e as [now|data|data]; unfold handle in E; cbn [fst snd] in E.
  - unfold onTick in E. injection E as <- <-. reflexivity.
  - destruct (onStdout_elapsed data r w) as [H1 H2]. rewrite E in H1, H2.
    cbn [fst] in H1, H2. rewrite H1, H2. reflexivity.
  - destruct (onStderr_keeps data r w (run_operationId r)) as [H1 _].
    rewrite E in H1. cbn [fst] in H1. subst r1. reflexivity.
Qed.

(** *** Errors on standard error *)


(** *** The end of the process *)

Lemma openMusic_effects (settings : Settings) (files : list jsstring) (w : World) :
  effects (openMusic settings files w)
  = effects w
    ++ (if openInAppleMusic settings && (0 <? length files)%nat
        then List.map (fun file => Spawn (js "open") [js "-a"; js "Music"; file])
                      (List.filter existsSync files)
             ++ [SetTimeout 2000 (Spawn (js "open") [js "-a"; js "Music"])]
        else []).
Proof.
  unfold openMusic. destruct (openInAppleMusic settings); cbn [negb orb andb].
  - destruct files as [|f files]; cbn [length Nat.eqb Nat.ltb Nat.leb].
    + symmetry. apply app_nil_r.
    + reflexivity.
  - symmetry. apply app_nil_r.
Qed.

Lemma filter_spawn_calls (st : OperationState) (l : list callback) :
  List.filter isSpawn (List.map (fun cb => Called cb st) l) = []
  /\ List.filter isToast (List.map (fun cb => Called cb st) l) = [].
Proof. split; apply filter_called; reflexivity. Qed.

Lemma filter_music (l : list jsstring) :
  List.filter isSpawn
    (List.map (fun file => Spawn (js "open") [js "-a"; js "Music"; file]) l)
  = List.map (fun file => Spawn (js "open") [js "-a"; js "Music"; file]) l
  /\ List.filter isToast
       (List.map (fun file => Spawn (js "open") [js "-a"; js "Music"; file]) l) = [].
Proof.
  induction l as [|f l [IH1 IH2]]; [split; reflexivity|].
  cbn [List.map List.filter isSpawn isToast]. rewrite IH1, IH2. split; reflexivity.
Qed.

(** X19: the [close] handler clears the timer first and shows one
    toast.  It starts a process only when the download counts as done,
    the import into Music is on and there are files: then one [open]
    for each file that exists, in the order of the list, and one more
    two seconds later.  An exit that counts as failed starts nothing. *)
Theorem close_effects (code : option Z) (now : Z) (r : Running) (w : World) :
  let w' := onClose code now r w in
  (exists rest,
     effects w' = effects w ++ ClearInterval (js "timeInterval") :: rest
     /\ length (List.filter isToast rest) = 1%nat)
  /\ spawned w'
     = spawned w
       ++ (if (exitedWithZero code || (0 <? length (run_downloadedFiles r))%nat)
              && openInAppleMusic (run_settings r)
              && (0 <? length (run_downloadedFiles r))%nat
           then List.map (fun file => Spawn (js "open") [js "-a"; js "Music"; file])
                         (List.filter existsSync (run_downloadedFiles r))
                ++ [SetTimeout 2000 (Spawn (js "open") [js "-a"; js "Music"])]
           else []).
Proof.
  cbv zeta. unfold onClose, spawned.
  destruct (exitedWithZero code || (0 <? length (run_downloadedFiles r))%nat);
    cbv zeta; cbn [andb].
  - destruct (openInAppleMusic (run_settings r)
              && (0 <? length (run_downloadedFiles r))%nat) eqn:E.
    + rewrite openMusic_effects, E. cbn [emit effects].
      rewrite updateOperationState_effects. cbn [emit effects]. split.
      * eexists. split; [rewrite <- !app_assoc; reflexivity|].
        rewrite !List.filter_app, !length_app.
        rewrite (proj2 (filter_spawn_calls _ _)), (proj2 (filter_music _)). reflexivity.
      * rewrite !List.filter_app. rewrite (proj1 (filter_spawn_calls _ _)),
          (proj1 (filter_music _)). cbn [List.filter isSpawn]. rewrite !app_nil_r.
        reflexivity.
    + cbn [emit effects]. rewrite updateOperationState_effects. cbn [emit effects].
      split.
      * eexists. split; [rewrite <- !app_assoc; reflexivity|].
        rewrite !List.filter_app, !length_app.
        rewrite (proj2 (filter_spawn_calls _ _)). reflexivity.
      * rewrite !List.filter_app. rewrite (proj1 (filter_spawn_calls _ _)).
        cbn [List.filter isSpawn]. rewrite !app_nil_r. reflexivity.
  - cbn [emit effects]. rewrite updateOperationState_effects. cbn [emit effects]. split.
    + eexists. split; [rewrite <- !app_assoc; reflexivity|].
      rewrite !List.filter_app, !length_app.
      rewrite (proj2 (filter_spawn_calls _ _)). reflexivity.
    + rewrite !List.filter_app. rewrite (proj1 (filter_spawn_calls _ _)).
      cbn [List.filter isSpawn]. rewrite !app_nil_r. reflexivity.
Qed.

(** X20: the [error] handler of the process clears the timer first,
    shows one failure toast, starts nothing, and leaves the operation
    inactive with "Process error: " and the message, [isCompleted]
    as it was. *)
Theorem process_error_outcome (message : jsstring) (r : Running) (w : World) :
  let w' := onError message r w in
  (exists rest,
     effects w' = effects w ++ ClearInterval (js "timeInterval") :: rest
     /\ length (List.filter isToast rest) = 1%nat)
  /\ spawned w' = spawned w
  /\ length (failuresShown w') = S (length (failuresShown w))
  /\ isActive (stateOf w' (run_operationId r)) = false
  /\ error (stateOf w' (run_operationId r)) = Some (js "Process error: " ++ message)
  /\ isCompleted (stateOf w' (run_operationId r))
     = isCompleted (stateOf w (run_operationId r)).
Proof.
  cbv zeta. unfold onError. cbv zeta. split; [|split; [|split]].
  - cbn [emit effects]. rewrite updateOperationState_effects. cbn [emit effects].
    eexists. split; [rewrite <- !app_assoc; reflexivity|].
    rewrite !List.filter_app, !length_app, (proj2 (filter_spawn_calls _ _)).
    reflexivity.
  - rewrite spawned_emit, spawned_update, spawned_emit. cbn. rewrite !app_nil_r.
    reflexivity.
  - rewrite failuresShown_emit, failuresShown_update, failuresShown_emit, !length_app.
    cbn. lia.
  - rewrite stateOf_emit, updateOperationState_stateOf, stateOf_emit. cbn. auto.
Qed.

(** *** The downloader executable *)

(** X21: [getYtDlpPath] gives the first of its four candidates that
    exists, and "yt-dlp", the last of them, when none of the first
    three does. *)
Theorem getYtDlpPath_first_existing :
  exists before after,
    possiblePaths = before ++ getYtDlpPath :: after
    /\ forallb (fun path => negb (existsSync path)) before = true
    /\ (existsSync getYtDlpPath = true \/ after = []).
Proof.
  unfold getYtDlpPath, possiblePaths. cbn [find].
  destruct (existsSync (js "/opt/homebrew/bin/yt-dlp")) eqn:E1.
  { exists [], [js "/usr/local/bin/yt-dlp"; js "/usr/bin/yt-dlp"; js "yt-dlp"].
    repeat split; auto. }
  destruct (existsSync (js "/usr/local/bin/yt-dlp")) eqn:E2.
  { exists [js "/opt/homebrew/bin/yt-dlp"], [js "/usr/bin/yt-dlp"; js "yt-dlp"].
    cbn [forallb]. rewrite E1. repeat split; auto. }
  destruct (existsSync (js "/usr/bin/yt-dlp")) eqn:E3.
  { exists [js "/opt/homebrew/bin/yt-dlp"; js "/usr/local/bin/yt-dlp"], [js "yt-dlp"].
    cbn [forallb]. rewrite E1, E2. repeat split; auto. }
  exists [js "/opt/homebrew/bin/yt-dlp"; js "/usr/local/bin/yt-dlp"; js "/usr/bin/yt-dlp"],
         [].
  cbn [forallb]. rewrite E1, E2, E3.
  destruct (existsSync (js "yt-dlp")); repeat split; auto.
Qed.

(** *** The start of a download *)

(** X22: [executeBackgroundDownload] starts no process, whatever it is
    given: the final validation turns the arguments down, so it gives
    back no handlers, shows one failure toast and leaves the operation
    inactive, not completed more than before, with the error that lists
    what the validation found. *)
Theorem executeBackgroundDownload_never_starts (settings : Settings) (now : Z)
    (operationId sanitizedUrl safePath : jsstring) (isPlaylist : bool) (w : World) :
  exists w',
    executeBackgroundDownload settings now operationId sanitizedUrl safePath isPlaylist w
    = (inr None, w')
    /\ spawned w' = spawned w
    /\ length (failuresShown w') = S (length (failuresShown w))
    /\ isActive (stateOf w' operationId) = false
    /\ isCompleted (stateOf w' operationId) = isCompleted (stateOf w operationId)
    /\ error (stateOf w' operationId)
       = Some (invalidArgsMessage
                 (downloadArgs settings sanitizedUrl safePath isPlaylist))
    /\ Terms.messages (downloadArgs settings sanitizedUrl safePath isPlaylist) <> [].
Proof.
  rewrite executeBackgroundDownload_rejected. eexists. split; [reflexivity|].
  rewrite spawned_emit, !spawned_update, failuresShown_emit, !failuresShown_update,
    length_app, stateOf_emit, !updateOperationState_stateOf.
  cbn [List.filter isSpawn isFailureToast length app]. rewrite app_nil_r.
  repeat split; [lia|].
  intros H. apply messages_nil_iff in H. rewrite downloadArgs_rejected in H.
  discriminate.
Qed.

Lemma loading_emit (e : list Effect) (w w1 : World) :
  (exists mid, effects w1 = effects w ++ SetIsLoading true :: mid) ->
  exists mid, effects (emit e w1) = effects w ++ SetIsLoading true :: mid.
Proof.
  intros [mid H]. exists (mid ++ e). cbn [emit effects]. rewrite H, <- app_assoc.
  reflexivity.
Qed.

Lemma loading_update (operationId : jsstring) (p : PartialState) (w w1 : World) :
  (exists mid, effects w1 = effects w ++ SetIsLoading true :: mid) ->
  exists mid,
    effects (updateOperationState operationId p w1)
    = effects w ++ SetIsLoading true :: mid.
Proof.
  intros [mid H]. rewrite updateOperationState_effects, H, <- app_assoc.
  eexists. reflexivity.
Qed.

(** X23: [handleDownload] either shows one failure toast and leaves
    the loading flag alone (an empty URL or a foreign host), or sets
    the flag first and clears it last, on every path through its
    [try], [catch] and [finally]. *)
Theorem loading_flag_is_cleared (url : jsstring) (settings : Settings) (now : Z)
    (newOperationId : jsstring) (w : World) :
  let w' := snd (handleDownload url settings now newOperationId w) in
  (exists title message, effects w' = effects w ++ [ShowToast Failure title message])
  \/ (exists mid,
        effects w' = effects w ++ SetIsLoading true :: mid ++ [SetIsLoading false]).
Proof.
  cbv zeta. unfold handleDownload.
  destruct (length (trim url) =? 0)%nat; [left; eexists; eexists; reflexivity|].
  destruct (negb (isValidSoundCloudUrl url)); [left; eexists; eexists; reflexivity|].
  right. unfold tryFinally, tryCatch, bind, perform, act, ret, throw. cbn beta iota.
  assert (H1 : exists mid,
             effects (optimizePerformance (emit [SetIsLoading true] w))
             = effects w ++ SetIsLoading true :: mid).
  { unfold optimizePerformance. apply loading_emit. exists []. reflexivity. }
  remember (optimizePerformance (emit [SetIsLoading true] w)) as w1 eqn:Ew1. clear Ew1.
  assert (Hfin : forall w2,
             (exists mid, effects w2 = effects w ++ SetIsLoading true :: mid) ->
             exists mid,
               effects (emit [SetIsLoading false] w2)
               = effects w ++ SetIsLoading true :: mid ++ [SetIsLoading false]).
  { intros w2 [mid H]. exists mid. cbn [emit effects]. rewrite H, <- app_assoc.
    reflexivity. }
  destruct (Security.isValid (validateCommandArgs [url]));
    [|cbn [snd]; apply Hfin, loading_emit, H1].
  destruct (sanitizedArgs (validateCommandArgs [url])) as [[|[|c u] rest]|];
    try (cbn [snd]; apply Hfin, loading_emit, H1).
  destruct (Security.isValid (validateCommandArgs [downloadPath settings]));
    [|cbn [snd]; apply Hfin, loading_emit, H1].
  destruct (sanitizedArgs (validateCommandArgs [downloadPath settings]))
    as [[|[|c' p] rest']|];
    try (cbn [snd]; apply Hfin, loading_emit, H1).
  rewrite executeBackgroundDownload_rejected. cbn [snd].
  apply Hfin, loading_emit, loading_emit, loading_update, loading_update, loading_emit,
    loading_emit, H1.
Qed.

(** X24: the argument vector of a download starts with the switch for
    full metadata and the output template under the download path, ends
    with the URL, and has, whatever the settings, the flags that keep
    the run going after an item fails and that suppress every side
    file; with thumbnails on it embeds the thumbnail and writes no
    image file. *)
Theorem downloadArgs_shape (settings : Settings) (sanitizedUrl safePath : jsstring)
    (isPlaylist : bool) :
  let args := downloadArgs settings sanitizedUrl safePath isPlaylist in
  firstn 4 args
  = [js "--extract-flat"; js "false"; js "-o"; safePath ++ js "/%(title)s.%(ext)s"]
  /\ List.last args [] = sanitizedUrl
  /\ Forall (fun flag => In flag args)
       [js "--ignore-errors"; js "--newline"; js "--add-metadata";
        js "--no-write-info-json"; js "--no-write-description";
        js "--no-write-annotations"; js "--no-write-comments"; js "--no-write-subs"]
  /\ (if embedThumbnail settings
      then In (js "--embed-thumbnail") args /\ In (js "--no-write-thumbnail") args
      else True)
  /\ In (if isPlaylist then js "playlist_title:%(album)s" else js "title:%(album)s") args.
Proof.
  cbv zeta. split; [reflexivity|]. split.
  { unfold downloadArgs. rewrite !app_assoc. apply last_last. }
  assert (Hin : forall flag,
             In flag ([js "--add-metadata"]
                      ++ (if isPlaylist
                          then [js "--parse-metadata"; js "playlist_title:%(album)s"]
                          else [js "--parse-metadata"; js "title:%(album)s"])
                      ++ [js "--postprocessor-args";
                          js "ffmpeg:-metadata genre=" ++ dq ++ js "Electronic" ++ dq]
                      ++ (if embedThumbnail settings
                          then [js "--embed-thumbnail"; js "--no-write-thumbnail"]
                          else [])
                      ++ [js "--no-write-info-json"; js "--no-write-description";
                          js "--no-write-annotations"; js "--no-write-comments"]
                      ++ [js "--embed-subs"; js "--no-write-subs"]
                      ++ [js "--newline"; js "--no-warnings"; js "--ignore-errors"]) ->
             In flag (downloadArgs settings sanitizedUrl safePath isPlaylist)).
  { intros flag H. unfold downloadArgs. apply in_or_app. right. apply in_or_app. right.
    apply in_or_app. right. rewrite !app_assoc. apply in_or_app. left.
    rewrite <- !app_assoc. exact H. }
  split; [|split].
  - repeat (constructor;
            [apply Hin; destruct isPlaylist, (embedThumbnail settings); cbn; tauto|]).
    constructor.
  - destruct (embedThumbnail settings) eqn:E; [|exact I].
    split; apply Hin; destruct isPlaylist; cbn; tauto.
  - apply Hin. destruct isPlaylist, (embedThumbnail settings); cbn; tauto.
Qed.

End WithPlatform.

Lemma store_follows_the_handlers_witness :
  let r := mkRunning (js "download_1") true
             (mkSettings high (js "/Users/me/Music") false true true)
             1000 None [] (elapsedOnly (js "0:00")) in
  let w := updateOperationState (js "download_1") startUpdate emptyWorld in
  let events :=
    [ Tick 2000;
      StdoutData (js "[download] /Users/me/Music/a.mp3 has already been downloaded") ] in
  let running := @handleAll Sample.platform events (r, w) in
  progress (stateOf (snd running) (js "download_1")) = run_currentProgress (fst running)
  /\ downloadedFiles (stateOf (snd running) (js "download_1"))
     = run_downloadedFiles (fst running)
  /\ trackInfo (stateOf (snd running) (js "download_1")) = run_trackInfo (fst running).
Proof.
  apply (@store_follows_the_handlers Sample.platform
           [ Tick 2000;
             StdoutData (js "[download] /Users/me/Music/a.mp3 has already been downloaded") ]
           (mkRunning (js "download_1") true
              (mkSettings high (js "/Users/me/Music") false true true)
              1000 None [] (elapsedOnly (js "0:00")))
           (updateOperationState (js "download_1") startUpdate emptyWorld)).
  vm_compute. repeat split; reflexivity.
Defined.

Lemma downloaded_files_append_only_witness :
  let r := mkRunning (js "download_1") true
             (mkSettings high (js "/Users/me/Music") false true true)
             1000 None [js "/Users/me/Music/a.mp3"] (elapsedOnly (js "0:00")) in
  let events :=
    [ StdoutData (js "[download] /Users/me/Music/a.mp3 has already been downloaded");
      StdoutData (js "[download] /Users/me/Music/b.mp3 has already been downloaded") ] in
  let running := @handleAll Sample.platform events (r, emptyWorld) in
  NoDup (run_downloadedFiles (fst running))
  /\ exists more,
       run_downloadedFiles (fst running) = [js "/Users/me/Music/a.mp3"] ++ more.
Proof.
  apply (@downloaded_files_append_only Sample.platform
           [ StdoutData (js "[download] /Users/me/Music/a.mp3 has already been downloaded");
             StdoutData (js "[download] /Users/me/Music/b.mp3 has already been downloaded") ]
           (mkRunning (js "download_1") true
              (mkSettings high (js "/Users/me/Music") false true true)
              1000 None [js "/Users/me/Music/a.mp3"] (elapsedOnly (js "0:00")))
           emptyWorld).
  simpl. apply NoDup_singleton.
Defined.

(** *** [calculateElapsedTime] *)

Lemma seconds_two_digits (s : Z) :
  (0 <= s < 60)%Z -> padStart 2 (ch "0") (of_Z s) = twoDigits s.
Proof.
  intros Hs.
  assert (H : forallb (fun n => str_eqb (padStart 2 (ch "0") (of_Z (Z.of_nat n)))
                                  (twoDigits (Z.of_nat n)))
                      (List.seq 0 60) = true) by (vm_compute; reflexivity).
  rewrite forallb_forall in H. specialize (H (Z.to_nat s)).
  rewrite Z2Nat.id in H by lia. apply str_eqb_eq. apply H. apply in_seq. lia.
Qed.

(** X25: for a clock reading not before the start, the elapsed time is
    written as the whole minutes, a colon and the seconds below 60 in
    two digits; the two add up to the whole seconds elapsed. *)
Theorem calculateElapsedTime_format (startTime now : Z) :
  (startTime <= now)%Z ->
  exists minutes seconds,
    (0 <= minutes)%Z /\ (0 <= seconds < 60)%Z
    /\ ((now - startTime) / 1000 = 60 * minutes + seconds)%Z
    /\ calculateElapsedTime startTime now
       = of_Z minutes ++ js ":" ++ twoDigits seconds.
Proof.
  intros Hle. set (elapsed := ((now - startTime) / 1000)%Z).
  assert (He : (0 <= elapsed)%Z) by (apply Z.div_pos; lia).
  exists (elapsed / 60)%Z, (elapsed mod 60)%Z.
  pose proof (Z.mod_pos_bound elapsed 60 ltac:(lia)) as Hm.
  split; [apply Z.div_pos; lia|]. split; [exact Hm|]. split.
  - apply Z.div_mod. lia.
  - unfold calculateElapsedTime. fold elapsed.
    rewrite Z.rem_mod_nonneg by lia. rewrite seconds_two_digits by exact Hm.
    reflexivity.
Qed.

Lemma calculateElapsedTime_format_witness :
  exists minutes seconds,
    (0 <= minutes)%Z /\ (0 <= seconds < 60)%Z
    /\ ((63000 - 1000) / 1000 = 60 * minutes + seconds)%Z
    /\ calculateElapsedTime 1000 63000 = of_Z minutes ++ js ":" ++ twoDigits seconds.
Proof. apply (calculateElapsedTime_format 1000 63000). lia. Defined.

End DownloaderExtra.

(** * Properties of [src/utils/performance.ts] *)

Module PerformanceProps.
Import JS Performance PerformanceTerms.

(** *** [BatchProcessor] *)

Section Batch.
Context {T : Type}.

Lemma batches_app (a b : list (BatchEffect T)) :
  batches (a ++ b) = batches a ++ batches b.
Proof.
  induction a as [|e a IH]; [reflexivity|]. destruct e; cbn [app batches]; rewrite IH;
    reflexivity.
Qed.

Lemma flush_spec (b : BatchProcessor T) :
  concat (batches (fst (flush b))) = batch b
  /\ batch (snd (flush b)) = []
  /\ batchSize (snd (flush b)) = batchSize b
  /\ timeoutId (snd (flush b)) = false
  /\ Forall (fun items => items = batch b /\ items <> []) (batches (fst (flush b))).
Proof.
  unfold flush. destruct (batch b) as [|x l] eqn:E; destruct (timeoutId b);
    cbn [fst snd app batches concat batch batchSize timeoutId];
    rewrite ?app_nil_r; repeat split; try constructor; try constructor; auto;
    discriminate.
Qed.

Lemma add_spec (item : T) (b : BatchProcessor T) :
  concat (batches (fst (add item b))) ++ batch (snd (add item b)) = batch b ++ [item]
  /\ batchSize (snd (add item b)) = batchSize b.
Proof.
  unfold add. cbn [batch batchSize flushDelay timeoutId].
  destruct (batchSize b <=? Z.of_nat (length (batch b ++ [item])))%Z.
  - destruct (flush_spec (mkBatch (batch b ++ [item]) (batchSize b) (flushDelay b)
                            (timeoutId b))) as (H1 & H2 & H3 & _).
    rewrite H1, H2, H3. cbn [batch batchSize]. rewrite app_nil_r. auto.
  - cbn [fst snd batch batchSize]. rewrite batches_app.
    destruct (timeoutId b); cbn [batches concat app]; auto.
Qed.

Lemma batchRun_items (ops : list (BatchOp T)) (b : BatchProcessor T) :
  forallb (fun op => negb (isDestroy op)) ops = true ->
  concat (batches (fst (batchRun ops b))) ++ batch (snd (batchRun ops b))
  = batch b ++ added ops.
Proof.
  revert b. induction ops as [|op ops IH]; intros b Hd.
  - cbn. rewrite app_nil_r. reflexivity.
  - cbn [forallb] in Hd. apply andb_true_iff in Hd as [Hop Hd]. cbn [batchRun].
    destruct (batchStep op b) as [e1 b1] eqn:E1. specialize (IH b1 Hd).
    destruct (batchRun ops b1) as [e2 b2]. cbn [fst snd] in *.
    rewrite batches_app, concat_app, <- app_assoc, IH.
    destruct op as [item| | |]; cbn [batchStep added] in *; try discriminate.
    + pose proof (add_spec item b) as [H _]. rewrite E1 in H. cbn [fst snd] in H.
      rewrite app_assoc, H, <- app_assoc. reflexivity.
    + destruct (flush_spec b) as (H1 & H2 & _). rewrite E1 in H1, H2.
      cbn [fst snd] in H1, H2. rewrite H1, H2. reflexivity.
    + destruct (flush_spec b) as (H1 & H2 & _). rewrite E1 in H1, H2.
      cbn [fst snd] in H1, H2. rewrite H1, H2. reflexivity.
Qed.

(** X26: as long as a [BatchProcessor] is not destroyed, no item is
    lost, doubled or reordered: the batches handed to [processFn], one
    after the other, and then the batch still waiting, are the items
    given to [add] in their order. *)
Theorem batch_processor_keeps_every_item (ops : list (BatchOp T))
    (batchSize flushDelay : Z) :
  forallb (fun op => negb (isDestroy op)) ops = true ->
  let run := batchRun ops (newBatchProcessor batchSize flushDelay) in
  concat (batches (fst run)) ++ batch (snd run) = added ops.
Proof.
  intros Hd run. unfold run. rewrite batchRun_items by exact Hd. reflexivity.
Qed.

Lemma batchStep_bounds (op : BatchOp T) (b : BatchProcessor T) :
  settledBatch b ->
  settledBatch (snd (batchStep op b))
  /\ batchSize (snd (batchStep op b)) = batchSize b
  /\ Forall (fun items => items <> [] /\ (Z.of_nat (length items) <= batchSize b)%Z)
            (batches (fst (batchStep op b))).
Proof.
  intros [Hlen Htimer]. unfold settledBatch.
  assert (Hflush : settledBatch (snd (flush b))
                   /\ batchSize (snd (flush b)) = batchSize b
                   /\ Forall (fun items => items <> []
                                           /\ (Z.of_nat (length items) <= batchSize b)%Z)
                             (batches (fst (flush b)))).
  { destruct (flush_spec b) as (_ & H2 & H3 & H4 & H5). unfold settledBatch.
    rewrite H2, H3, H4. cbn [length]. repeat split; try lia; try contradiction.
    eapply Forall_impl; [exact H5|]. cbn. intros items [-> Hne]. split; [exact Hne|lia]. }
  destruct op as [item| | |]; cbn [batchStep]; try exact Hflush.
  - unfold add. cbn [batch batchSize flushDelay timeoutId].
    destruct (batchSize b <=? Z.of_nat (length (batch b ++ [item])))%Z eqn:E.
    + apply Z.leb_le in E.
      destruct (flush_spec (mkBatch (batch b ++ [item]) (batchSize b) (flushDelay b)
                              (timeoutId b))) as (_ & H2 & H3 & H4 & H5).
      rewrite H2, H3, H4. cbn [length batch batchSize] in *. repeat split; try lia;
        try contradiction.
      eapply Forall_impl; [exact H5|]. cbn. intros items [-> Hne]. split; [exact Hne|].
      rewrite length_app. cbn [length]. lia.
    + apply Z.leb_gt in E. cbn [fst snd batch batchSize timeoutId].
      repeat split; try lia. rewrite batches_app.
      destruct (timeoutId b); cbn; constructor.
  - unfold destroy. cbn [fst snd batch batchSize timeoutId length].
    repeat split; try lia; try contradiction. destruct (timeoutId b); cbn; constructor.
Qed.

Lemma batchRun_bounds (ops : list (BatchOp T)) (b : BatchProcessor T) :
  settledBatch b ->
  settledBatch (snd (batchRun ops b))
  /\ batchSize (snd (batchRun ops b)) = batchSize b
  /\ Forall (fun items => items <> [] /\ (Z.of_nat (length items) <= batchSize b)%Z)
            (batches (fst (batchRun ops b))).
Proof.
  revert b. induction ops as [|op ops IH]; intros b Hb.
  - cbn. split; [exact Hb|]. split; [reflexivity|constructor].
  - cbn [batchRun]. destruct (batchStep_bounds op b Hb) as (H1 & H2 & H3).
    destruct (batchStep op b) as [e1 b1]. cbn [fst snd] in *.
    destruct (IH b1 H1) as (I1 & I2 & I3). destruct (batchRun ops b1) as [e2 b2].
    cbn [fst snd] in *. split; [exact I1|]. split; [congruence|].
    rewrite batches_app. apply Forall_app.
    split; [exact H3|]. rewrite H2 in I3. exact I3.
Qed.

(** X27: with a batch size of at least 1, whatever is done to a new
    [BatchProcessor], every batch handed to [processFn] has at least
    one item and at most [batchSize]; the batch that waits is shorter
    than [batchSize], and while it is not empty a timer is set to flush
    it. *)
Theorem batch_processor_bounds (ops : list (BatchOp T)) (batchSize flushDelay : Z) :
  (1 <= batchSize)%Z ->
  let run := batchRun ops (newBatchProcessor batchSize flushDelay) in
  Forall (fun items => items <> [] /\ (Z.of_nat (length items) <= batchSize)%Z)
         (batches (fst run))
  /\ (Z.of_nat (length (batch (snd run))) < batchSize)%Z
  /\ (batch (snd run) <> [] -> timeoutId (snd run) = true).
Proof.
  intros Hb run.
  destruct (batchRun_bounds ops (newBatchProcessor batchSize flushDelay))
    as ([H1 H2] & H3 & H4).
  { split; cbn; [lia|contradiction]. }
  fold run in H1, H2, H3, H4. cbn [Performance.batchSize newBatchProcessor] in H3, H4.
  rewrite H3 in H1. auto.
Qed.

End Batch.

Lemma batch_processor_keeps_every_item_witness :
  let run := batchRun [Add 1%nat; Add 2%nat; TimerFires; Add 3%nat]
                      (newBatchProcessor 5 1000) in
  concat (batches (fst run)) ++ batch (snd run) = [1; 2; 3]%nat.
Proof.
  apply (batch_processor_keeps_every_item
           [Add 1%nat; Add 2%nat; TimerFires; Add 3%nat] 5 1000).
  reflexivity.
Defined.

Lemma batch_processor_bounds_witness :
  let run := batchRun [Add 1%nat; Add 2%nat; Add 3%nat; Destroy; Add 4%nat]
                      (newBatchProcessor 2 1000) in
  Forall (fun items => items <> [] /\ (Z.of_nat (length items) <= 2)%Z)
         (batches (fst run))
  /\ (Z.of_nat (length (batch (snd run))) < 2)%Z
  /\ (batch (snd run) <> [] -> timeoutId (snd run) = true).
Proof.
  apply (batch_processor_bounds
           [Add 1%nat; Add 2%nat; Add 3%nat; Destroy; Add 4%nat] 2 1000).
  lia.
Defined.

(** *** [MemoryMonitor] *)

Lemma sliceLast_short {A} (n : nat) (l : list A) :
  (length l <= n)%nat -> sliceLast n l = l.
Proof.
  intros H. unfold sliceLast. replace (length l - n)%nat with 0%nat by lia. reflexivity.
Qed.

Lemma sliceLast_length {A} (n : nat) (l : list A) : (length (sliceLast n l) <= n)%nat.
Proof. unfold sliceLast. rewrite length_skipn. lia. Qed.

Lemma sliceLast_step {A} (n : nat) (l : list A) (x : A) :
  sliceLast n (sliceLast n l ++ [x]) = sliceLast n (l ++ [x]).
Proof.
  unfold sliceLast.
  assert (H : skipn (length l - n) l ++ [x] = skipn (length l - n) (l ++ [x])).
  { rewrite skipn_app. replace (length l - n - length l)%nat with 0%nat by lia.
    reflexivity. }
  rewrite H, List.skipn_skipn, length_skipn, !length_app. cbn [length]. f_equal. lia.
Qed.

Lemma recordUsage_some (used now : Z) (measurements : list Measurement) :
  recordUsage (Some used) now measurements
  = sliceLast maxMeasurements (measurements ++ [mkMeasurement now used]).
Proof.
  unfold recordUsage.
  destruct (maxMeasurements <? length (measurements ++ [mkMeasurement now used]))%nat
    eqn:E; [reflexivity|].
  apply Nat.ltb_ge in E. symmetry. apply sliceLast_short. exact E.
Qed.

Lemma recordAll_latest (samples : list (option Z * Z)) (all : list Measurement) :
  recordAll samples (sliceLast maxMeasurements all)
  = sliceLast maxMeasurements (all ++ taken samples).
Proof.
  revert all. induction samples as [|[heapUsed now] samples IH]; intros all.
  - cbn. rewrite app_nil_r. reflexivity.
  - unfold recordAll, taken in *. cbn [fold_left omap fst snd].
    destruct heapUsed as [used|].
    + rewrite recordUsage_some, sliceLast_step, IH. cbn [mbind option_bind].
      rewrite <- app_assoc. reflexivity.
    + cbn [recordUsage]. apply IH.
Qed.

(** X28: a [MemoryMonitor] holds the measurements taken, in order,
    and when more than 100 were taken, the latest 100 of them; so it
    never holds more than 100. *)
Theorem memory_monitor_keeps_the_latest (samples : list (option Z * Z)) :
  recordAll samples [] = sliceLast maxMeasurements (taken samples)
  /\ (length (recordAll samples []) <= 100)%nat.
Proof.
  assert (H : recordAll samples [] = sliceLast maxMeasurements (taken samples)).
  { change (@nil Measurement) with (sliceLast maxMeasurements (@nil Measurement)) at 1.
    rewrite recordAll_latest. reflexivity. }
  split; [exact H|]. rewrite H. apply sliceLast_length.
Qed.

Lemma maximum_spec (l : list Z) (x : Z) :
  (x <= maximum l x)%Z
  /\ Forall (fun y => (y <= maximum l x)%Z) l
  /\ (maximum l x = x \/ In (maximum l x) l).
Proof.
  unfold maximum. revert x. induction l as [|y l IH]; intros x; cbn [fold_left].
  - split; [lia|]. split; [constructor|left; reflexivity].
  - destruct (IH (Z.max x y)) as (H1 & H2 & H3). split; [lia|]. split.
    + constructor; [lia|exact H2].
    + destruct H3 as [H3|H3]; [|right; right; exact H3].
      destruct (Z.max_spec x y) as [[_ E]|[_ E]].
      * right. left. rewrite H3, E. reflexivity.
      * left. rewrite H3. exact E.
Qed.

(** X29: [getPeakUsage] gives 0 when no measurement is in the window,
    and otherwise the usage of a measurement in the window that no
    other measurement in the window exceeds. *)
Theorem peak_usage_is_the_maximum (windowMs now : Z) (measurements : list Measurement) :
  let peak := getPeakUsage windowMs now measurements in
  let recent := List.filter (isRecent windowMs now) measurements in
  match recent with
  | [] => peak = 0%Z
  | _ :: _ =>
      (exists m, In m recent /\ usage m = peak)
      /\ Forall (fun m => (usage m <= peak)%Z) recent
  end.
Proof.
  cbv zeta. unfold getPeakUsage. fold (isRecent windowMs now).
  destruct (List.filter (isRecent windowMs now) measurements) as [|m ms]; [reflexivity|].
  cbn [List.map]. destruct (maximum_spec (List.map usage ms) (usage m)) as (H1 & H2 & H3).
  split.
  - destruct H3 as [H3|H3].
    + exists m. split; [left; reflexivity|]. symmetry. exact H3.
    + apply in_map_iff in H3 as (m' & E & Hin). exists m'. split; [right; exact Hin|exact E].
  - constructor; [exact H1|]. apply Forall_forall. intros m' Hin.
    rewrite Forall_forall in H2. apply H2. apply list_elem_of_In.
    apply in_map. apply list_elem_of_In. exact Hin.
Qed.

(** *** [ProcessManager] *)

Lemma str_eqb_refl (a : jsstring) : str_eqb a a = true.
Proof. apply SecurityProps.str_eqb_eq. reflexivity. Qed.

Lemma mapGet_skip (id : jsstring) (a b : ProcessMap) :
  ~ In id (List.map fst a) -> mapGet id (a ++ b) = mapGet id b.
Proof.
  induction a as [|[k v] a IH]; [reflexivity|]. cbn [List.map fst In app mapGet].
  intros Hn. rewrite SecurityProps.str_eqb_neq by tauto. apply IH. tauto.
Qed.

Lemma mapDelete_absent (id : jsstring) (a : ProcessMap) :
  ~ In id (List.map fst a) -> mapDelete id a = a.
Proof.
  induction a as [|[k v] a IH]; [reflexivity|]. cbn [List.map fst In].
  intros Hn. unfold mapDelete in *. cbn [List.filter fst].
  rewrite SecurityProps.str_eqb_neq by tauto. cbn [negb]. rewrite IH by tauto.
  reflexivity.
Qed.

Lemma falsy_keys (done : ProcessMap) (id : jsstring) :
  In id (List.map fst (List.filter (fun kv => isFalsy (snd kv)) done)) ->
  In id (List.map fst done).
Proof.
  intros H. apply in_map_iff in H as (kv & <- & H). apply filter_In in H as [H _].
  apply in_map. exact H.
Qed.

Lemma killAll_fold (todo done : ProcessMap) (calls : list ProcessEffect) :
  NoDup (List.map fst (done ++ todo)) ->
  fold_left (fun acc kv =>
               let '(_, e, m') := killProcess (fst kv) (snd acc) in (fst acc ++ e, m'))
            todo
            (calls, List.filter (fun kv => isFalsy (snd kv)) done ++ todo)
  = (calls ++ flat_map (fun kv => stopCalls (snd kv)) todo,
     List.filter (fun kv => isFalsy (snd kv)) (done ++ todo)).
Proof.
  revert done calls. induction todo as [|[k v] todo IH]; intros done calls Hnd.
  - cbn. rewrite !app_nil_r. reflexivity.
  - assert (Hk : ~ In k (List.map fst done) /\ ~ In k (List.map fst todo)).
    { rewrite List.map_app in Hnd. cbn [List.map fst] in Hnd.
      apply NoDup_app in Hnd as (_ & Hx & Ht). apply NoDup_cons in Ht as [Ht _].
      split.
      - intros Hin. apply (Hx k); [apply list_elem_of_In; exact Hin|].
        apply list_elem_of_In. left. reflexivity.
      - intros Hin. apply Ht. apply list_elem_of_In. exact Hin. }
    destruct Hk as [Hk1 Hk2].
    assert (Hnd' : NoDup (List.map fst ((done ++ [(k, v)]) ++ todo)))
      by (rewrite <- app_assoc; exact Hnd).
    specialize (IH (done ++ [(k, v)])).
    cbn [fold_left fst snd]. unfold killProcess.
    rewrite mapGet_skip by (intros H; apply Hk1; apply (falsy_keys _ _ H)).
    cbn [mapGet]. rewrite str_eqb_refl.
    assert (Hdel : mapDelete k (List.filter (fun kv => isFalsy (snd kv)) done
                                ++ (k, v) :: todo)
                   = List.filter (fun kv => isFalsy (snd kv)) done ++ todo).
    { unfold mapDelete. rewrite List.filter_app. cbn [List.filter fst].
      rewrite str_eqb_refl. cbn [negb]. f_equal.
      - apply (mapDelete_absent k). intros H. apply Hk1. apply (falsy_keys _ _ H).
      - apply (mapDelete_absent k). exact Hk2. }
    rewrite List.filter_app in IH. cbn [List.filter snd] in IH.
    destruct v as [process|]; cbn [isFalsy stopCalls flat_map snd] in *.
    + rewrite app_nil_r in IH.
      destruct (hasKill process); [|destruct (hasCancel process)];
        rewrite Hdel, IH by exact Hnd'; rewrite <- !app_assoc; reflexivity.
    + replace (List.filter (fun kv => isFalsy (snd kv)) done ++ (k, None) :: todo)
        with ((List.filter (fun kv => isFalsy (snd kv)) done ++ [(k, None)]) ++ todo)
        by (rewrite <- app_assoc; reflexivity).
      rewrite IH by exact Hnd'. rewrite <- !app_assoc. reflexivity.
Qed.

(** X30: [killAllProcesses] stops every process object of the map once,
    in the order of insertion, by [kill] when the object has it and
    else by [cancel], and takes it out of the map whether or not the
    call throws; only the values that are falsy stay behind. *)
Theorem killAllProcesses_empties_the_map (m : ProcessMap) :
  NoDup (List.map fst m) ->
  killAllProcesses m
  = (flat_map (fun kv => stopCalls (snd kv)) m,
     List.filter (fun kv => isFalsy (snd kv)) m).
Proof.
  intros Hnd. unfold killAllProcesses.
  apply (killAll_fold m [] [] Hnd).
Qed.

Lemma killAllProcesses_empties_the_map_witness :
  let m := [ (js "a", Some (mkProcess 1 true false true false));
             (js "b", None);
             (js "c", Some (mkProcess 2 false true false true)) ] in
  killAllProcesses m = ([Killed 1; Cancelled 2], [(js "b", None)]).
Proof.
  apply (killAllProcesses_empties_the_map
           [ (js "a", Some (mkProcess 1 true false true false));
             (js "b", None);
             (js "c", Some (mkProcess 2 false true false true)) ]).
  apply (bool_decide_eq_true_1
           (NoDup (List.map fst
                     [ (js "a", Some (mkProcess 1 true false true false));
                       (js "b", None);
                       (js "c", Some (mkProcess 2 false true false true)) ]))).
  vm_compute. reflexivity.
Defined.

End PerformanceProps.
